(** * The arena-shooter engine of [src/app/game-engine.ts]

    A shallow embedding of the [GameEngine] class: its fields become the
    record [GameEngine], its methods become functions on that record, and
    the event handlers of the browser become the constructors of [Op].

    Numbers.  The counters of the source (health, ammunition, timestamps of
    [Date.now()]) only ever hold integers and are modelled in [Z].  The
    remaining JavaScript numbers (coordinates, velocities, angles, seconds)
    are modelled by exact rationals [Q]: rounding, infinities and NaN are
    outside the model.

    Environment.  What the source obtains from outside itself is explicit:
    - [Math.sqrt] and the three.js routines that need trigonometry or mesh
      geometry (Euler/quaternion conversion, [lookAt], ray casting) are the
      fields of the class [Host];
    - the values that [Math.random()] will return are the field [entropy]
      of the state, consumed from the front; a call that finds it empty
      yields [None];
    - the callbacks scheduled with [setTimeout] wait in the field
      [pending];
    - the invocations of the [GameCallbacks] are recorded, newest first, in
      the field [calls].
    Rendering, the scene graph and audio carry no game state and are left
    out. *)

From Stdlib Require Import ZArith QArith Qabs Qround List Bool Lia Lqa.
Import ListNotations.

(** ** JavaScript numbers and [Math] *)

Definition Qltb (a b : Q) : bool := negb (Qle_bool b a).

(** [Math.max(a, b)] and [Math.min(a, b)]; on a tie either argument is the
    same number, the second is returned. *)
Definition Math_max (a b : Q) : Q := if Qltb b a then a else b.
Definition Math_min (a b : Q) : Q := if Qltb a b then a else b.

(** [Math.PI] is the double nearest to pi, an exact rational. *)
Definition Math_PI : Q := 884279719003555 # 281474976710656.

(** [Number(b)] for a boolean. *)
Definition Number (b : bool) : Q := if b then 1 else 0.

(** [a || d] for numbers: [d] when [a] is zero. *)
Definition or_default (a d : Q) : Q := if Qeq_bool a 0 then d else a.

(** ** Option as the effect of an exhausted random source *)

Definition bind {A B : Type} (m : option A) (k : A -> option B) : option B :=
  match m with
  | Some a => k a
  | None => None
  end.

Notation "x <- m ;; k" := (bind m (fun x => k))
  (at level 61, m at next level, right associativity).
Notation "' p <- m ;; k" := (bind m (fun p => k))
  (at level 61, p pattern, m at next level, right associativity).

(** ** three.js value types *)

Module Vector3.
Record t := mk { x : Q; y : Q; z : Q }.

Definition set_x (v : t) (a : Q) : t := mk a (y v) (z v).
Definition set_y (v : t) (a : Q) : t := mk (x v) a (z v).
Definition set_z (v : t) (a : Q) : t := mk (x v) (y v) a.

Definition add (a b : t) : t := mk (x a + x b) (y a + y b) (z a + z b).
Definition sub (a b : t) : t := mk (x a - x b) (y a - y b) (z a - z b).
Definition multiplyScalar (v : t) (k : Q) : t :=
  mk (x v * k) (y v * k) (z v * k).
Definition divideScalar (v : t) (k : Q) : t := multiplyScalar v (1 / k).

Definition lengthSq (v : t) : Q := x v * x v + y v * y v + z v * z v.

Section WithSqrt.
Variable sqrt : Q -> Q.
Definition length (v : t) : Q := sqrt (lengthSq v).
Definition normalize (v : t) : t := divideScalar v (or_default (length v) 1).
Definition distanceTo (a b : t) : Q := sqrt (lengthSq (sub a b)).
End WithSqrt.
End Vector3.

Module Quaternion.
Record t := mk { x : Q; y : Q; z : Q; w : Q }.
Definition identity : t := mk 0 0 0 1.
End Quaternion.

Module Euler.
(** The rotation order is not stored: [this.euler] is used in order
    [YXZ], [camera.rotation] in the default order [XYZ]. *)
Inductive order := XYZ | YXZ.
Record t := mk { x : Q; y : Q; z : Q }.
Definition set_x (e : t) (a : Q) : t := mk a (y e) (z e).
Definition set_y (e : t) (a : Q) : t := mk (x e) a (z e).
End Euler.

Module Box3.
Record t := mk { min : Vector3.t; max : Vector3.t }.

Definition setFromCenterAndSize (center size : Vector3.t) : t :=
  let halfSize := Vector3.multiplyScalar size (1 # 2) in
  mk (Vector3.sub center halfSize) (Vector3.add center halfSize).

(** [a.intersectsBox(b)]: touching boxes intersect. *)
Definition intersectsBox (a b : t) : bool :=
  if Qltb (Vector3.x (max b)) (Vector3.x (min a))
     || Qltb (Vector3.x (max a)) (Vector3.x (min b))
     || Qltb (Vector3.y (max b)) (Vector3.y (min a))
     || Qltb (Vector3.y (max a)) (Vector3.y (min b))
     || Qltb (Vector3.z (max b)) (Vector3.z (min a))
     || Qltb (Vector3.z (max a)) (Vector3.z (min b))
  then false else true.
End Box3.

Module Mesh.
(** A box mesh.  [id] stands for the identity of the JavaScript object
    ([===] on meshes compares it); [size] is the extent of its
    [BoxGeometry]. *)
Record t := mk {
  id : nat;
  position : Vector3.t;
  size : Vector3.t;
  quaternion : Quaternion.t
}.
Definition set_position (m : t) (p : Vector3.t) : t :=
  mk (id m) p (size m) (quaternion m).
Definition set_quaternion (m : t) (q : Quaternion.t) : t :=
  mk (id m) (position m) (size m) q.

(** [new Box3().setFromObject(m)] for a mesh that was never rotated, as
    is every element of [walls]. *)
Definition box (m : t) : Box3.t :=
  Box3.setFromCenterAndSize (position m) (size m).
End Mesh.

Module Ray.
Record t := mk { origin : Vector3.t; direction : Vector3.t }.
End Ray.

Module Intersection.
(** One entry of the array returned by [intersectObjects]: [object] is
    the identity of the mesh that was hit. *)
Record t := mk { distance : Q; object : nat }.
End Intersection.

Module Camera.
(** [rotation] (an Euler in order [XYZ]) and [quaternion] are two stored
    views of the orientation which three.js keeps in step: writing one
    recomputes the other. *)
Record t := mk {
  position : Vector3.t;
  quaternion : Quaternion.t;
  rotation : Euler.t
}.
Definition set_position (c : t) (p : Vector3.t) : t :=
  mk p (quaternion c) (rotation c).
End Camera.

(** ** The host: [Math.sqrt] and the three.js routines left abstract *)

Class Host := {
  Math_sqrt : Q -> Q;
  (** [e.setFromQuaternion(q)] for an Euler [e] of the given order *)
  Euler_setFromQuaternion : Euler.order -> Quaternion.t -> Euler.t;
  (** [q.setFromEuler(e)] for an Euler [e] of the given order *)
  Quaternion_setFromEuler : Euler.order -> Euler.t -> Quaternion.t;
  (** the orientation [m.lookAt(target)] gives to the mesh [m] *)
  Object3D_lookAt : Mesh.t -> Vector3.t -> Quaternion.t;
  (** [raycaster.setFromCamera(new Vector2(0, 0), camera)] *)
  Raycaster_setFromCamera : Camera.t -> Ray.t;
  (** [raycaster.intersectObjects(objects)], nearest first *)
  Raycaster_intersectObjects : Ray.t -> list Mesh.t -> list Intersection.t
}.

(** ** Object3D operations used on the camera *)

(** [v.applyQuaternion(q)]: plain arithmetic on the components. *)
Definition applyQuaternion (v : Vector3.t) (q : Quaternion.t) : Vector3.t :=
  let vx := Vector3.x v in
  let vy := Vector3.y v in
  let vz := Vector3.z v in
  let qx := Quaternion.x q in
  let qy := Quaternion.y q in
  let qz := Quaternion.z q in
  let qw := Quaternion.w q in
  let tx := 2 * (qy * vz - qz * vy) in
  let ty := 2 * (qz * vx - qx * vz) in
  let tz := 2 * (qx * vy - qy * vx) in
  Vector3.mk (vx + qw * tx + qy * tz - qz * ty)
             (vy + qw * ty + qz * tx - qx * tz)
             (vz + qw * tz + qx * ty - qy * tx).

(** [camera.translateOnAxis(axis, distance)]: a move along the axis as the
    camera is oriented. *)
Definition translateOnAxis (c : Camera.t) (axis : Vector3.t) (distance : Q)
  : Camera.t :=
  let v1 := applyQuaternion axis (Camera.quaternion c) in
  Camera.set_position c
    (Vector3.add (Camera.position c) (Vector3.multiplyScalar v1 distance)).

Definition translateX (c : Camera.t) (distance : Q) : Camera.t :=
  translateOnAxis c (Vector3.mk 1 0 0) distance.

Definition translateZ (c : Camera.t) (distance : Q) : Camera.t :=
  translateOnAxis c (Vector3.mk 0 0 1) distance.

Section CameraOrientation.
Context {H : Host}.

(** Assigning to a component of [camera.rotation] recomputes the
    quaternion from the rotation. *)
Definition set_camera_rotation (c : Camera.t) (r : Euler.t) : Camera.t :=
  Camera.mk (Camera.position c) (Quaternion_setFromEuler Euler.XYZ r) r.

(** [camera.quaternion.setFromEuler(e)] for [e] of order [YXZ]: the
    quaternion changes and the rotation is recomputed from it. *)
Definition set_camera_quaternion_from (c : Camera.t) (e : Euler.t)
  : Camera.t :=
  let q := Quaternion_setFromEuler Euler.YXZ e in
  Camera.mk (Camera.position c) q (Euler_setFromQuaternion Euler.XYZ q).
End CameraOrientation.

(** ** Game data *)

Module Enemy.
Record t := mk {
  mesh : Mesh.t;
  velocity : Vector3.t;
  health : Z;
  lastShot : Z;
  target : Vector3.t;
  moveTimer : Q
}.
Definition set_mesh (e : t) (m : Mesh.t) : t :=
  mk m (velocity e) (health e) (lastShot e) (target e) (moveTimer e).
Definition set_velocity (e : t) (v : Vector3.t) : t :=
  mk (mesh e) v (health e) (lastShot e) (target e) (moveTimer e).
Definition set_health (e : t) (h : Z) : t :=
  mk (mesh e) (velocity e) h (lastShot e) (target e) (moveTimer e).
Definition set_lastShot (e : t) (n : Z) : t :=
  mk (mesh e) (velocity e) (health e) n (target e) (moveTimer e).
Definition set_target (e : t) (p : Vector3.t) : t :=
  mk (mesh e) (velocity e) (health e) (lastShot e) p (moveTimer e).
Definition set_moveTimer (e : t) (q : Q) : t :=
  mk (mesh e) (velocity e) (health e) (lastShot e) (target e) q.

(** Identity of the enemy object.  Every enemy object is created together
    with its own mesh, so the identity of the mesh stands for it. *)
Definition ident (e : t) : nat := Mesh.id (mesh e).
Definition same (a b : t) : bool := Nat.eqb (ident a) (ident b).
End Enemy.

Module Timer.
(** A callback scheduled by [reload] with [setTimeout]: the delay in
    milliseconds and the captured constant [toReload]. *)
Record t := mk { delay : Z; toReload : Z }.
End Timer.

(** The invocations of [GameCallbacks]. *)
Inductive Callback :=
| onHealthChange (health : Z)
| onAmmoChange (ammo : Z)
| onKill
| onDeath
| onHit.

Record GameEngine := mkEngine {
  camera : Camera.t;
  (* Player state *)
  playerHealth : Z;
  playerAmmo : Z;
  playerReserveAmmo : Z;
  isReloading : bool;
  (* Movement *)
  moveForward : bool;
  moveBackward : bool;
  moveLeft : bool;
  moveRight : bool;
  canJump : bool;
  velocity : Vector3.t;
  direction : Vector3.t;
  (* Mouse *)
  euler : Euler.t;
  isLocked : bool;
  (* Game objects *)
  enemies : list Enemy.t;
  walls : list Mesh.t;
  (* Environment *)
  pending : list Timer.t;
  entropy : list Q;
  nextId : nat;
  calls : list Callback
}.

Definition set_camera (v : Camera.t) (s : GameEngine) : GameEngine :=
  mkEngine v (playerHealth s) (playerAmmo s) (playerReserveAmmo s)
    (isReloading s) (moveForward s) (moveBackward s) (moveLeft s)
    (moveRight s) (canJump s) (velocity s) (direction s) (euler s)
    (isLocked s) (enemies s) (walls s) (pending s) (entropy s) (nextId s)
    (calls s).

Definition set_playerHealth (v : Z) (s : GameEngine) : GameEngine :=
  mkEngine (camera s) v (playerAmmo s) (playerReserveAmmo s) (isReloading s)
    (moveForward s) (moveBackward s) (moveLeft s) (moveRight s) (canJump s)
    (velocity s) (direction s) (euler s) (isLocked s) (enemies s) (walls s)
    (pending s) (entropy s) (nextId s) (calls s).

Definition set_playerAmmo (v : Z) (s : GameEngine) : GameEngine :=
  mkEngine (camera s) (playerHealth s) v (playerReserveAmmo s)
    (isReloading s) (moveForward s) (moveBackward s) (moveLeft s)
    (moveRight s) (canJump s) (velocity s) (direction s) (euler s)
    (isLocked s) (enemies s) (walls s) (pending s) (entropy s) (nextId s)
    (calls s).

Definition set_playerReserveAmmo (v : Z) (s : GameEngine) : GameEngine :=
  mkEngine (camera s) (playerHealth s) (playerAmmo s) v (isReloading s)
    (moveForward s) (moveBackward s) (moveLeft s) (moveRight s) (canJump s)
    (velocity s) (direction s) (euler s) (isLocked s) (enemies s) (walls s)
    (pending s) (entropy s) (nextId s) (calls s).

Definition set_isReloading (v : bool) (s : GameEngine) : GameEngine :=
  mkEngine (camera s) (playerHealth s) (playerAmmo s) (playerReserveAmmo s)
    v (moveForward s) (moveBackward s) (moveLeft s) (moveRight s)
    (canJump s) (velocity s) (direction s) (euler s) (isLocked s)
    (enemies s) (walls s) (pending s) (entropy s) (nextId s) (calls s).

Definition set_moveForward (v : bool) (s : GameEngine) : GameEngine :=
  mkEngine (camera s) (playerHealth s) (playerAmmo s) (playerReserveAmmo s)
    (isReloading s) v (moveBackward s) (moveLeft s) (moveRight s)
    (canJump s) (velocity s) (direction s) (euler s) (isLocked s)
    (enemies s) (walls s) (pending s) (entropy s) (nextId s) (calls s).

Definition set_moveBackward (v : bool) (s : GameEngine) : GameEngine :=
  mkEngine (camera s) (playerHealth s) (playerAmmo s) (playerReserveAmmo s)
    (isReloading s) (moveForward s) v (moveLeft s) (moveRight s) (canJump s)
    (velocity s) (direction s) (euler s) (isLocked s) (enemies s) (walls s)
    (pending s) (entropy s) (nextId s) (calls s).

Definition set_moveLeft (v : bool) (s : GameEngine) : GameEngine :=
  mkEngine (camera s) (playerHealth s) (playerAmmo s) (playerReserveAmmo s)
    (isReloading s) (moveForward s) (moveBackward s) v (moveRight s)
    (canJump s) (velocity s) (direction s) (euler s) (isLocked s)
    (enemies s) (walls s) (pending s) (entropy s) (nextId s) (calls s).

Definition set_moveRight (v : bool) (s : GameEngine) : GameEngine :=
  mkEngine (camera s) (playerHealth s) (playerAmmo s) (playerReserveAmmo s)
    (isReloading s) (moveForward s) (moveBackward s) (moveLeft s) v
    (canJump s) (velocity s) (direction s) (euler s) (isLocked s)
    (enemies s) (walls s) (pending s) (entropy s) (nextId s) (calls s).

Definition set_canJump (v : bool) (s : GameEngine) : GameEngine :=
  mkEngine (camera s) (playerHealth s) (playerAmmo s) (playerReserveAmmo s)
    (isReloading s) (moveForward s) (moveBackward s) (moveLeft s)
    (moveRight s) v (velocity s) (direction s) (euler s) (isLocked s)
    (enemies s) (walls s) (pending s) (entropy s) (nextId s) (calls s).

Definition set_velocity (v : Vector3.t) (s : GameEngine) : GameEngine :=
  mkEngine (camera s) (playerHealth s) (playerAmmo s) (playerReserveAmmo s)
    (isReloading s) (moveForward s) (moveBackward s) (moveLeft s)
    (moveRight s) (canJump s) v (direction s) (euler s) (isLocked s)
    (enemies s) (walls s) (pending s) (entropy s) (nextId s) (calls s).

Definition set_direction (v : Vector3.t) (s : GameEngine) : GameEngine :=
  mkEngine (camera s) (playerHealth s) (playerAmmo s) (playerReserveAmmo s)
    (isReloading s) (moveForward s) (moveBackward s) (moveLeft s)
    (moveRight s) (canJump s) (velocity s) v (euler s) (isLocked s)
    (enemies s) (walls s) (pending s) (entropy s) (nextId s) (calls s).

Definition set_euler (v : Euler.t) (s : GameEngine) : GameEngine :=
  mkEngine (camera s) (playerHealth s) (playerAmmo s) (playerReserveAmmo s)
    (isReloading s) (moveForward s) (moveBackward s) (moveLeft s)
    (moveRight s) (canJump s) (velocity s) (direction s) v (isLocked s)
    (enemies s) (walls s) (pending s) (entropy s) (nextId s) (calls s).

Definition set_isLocked (v : bool) (s : GameEngine) : GameEngine :=
  mkEngine (camera s) (playerHealth s) (playerAmmo s) (playerReserveAmmo s)
    (isReloading s) (moveForward s) (moveBackward s) (moveLeft s)
    (moveRight s) (canJump s) (velocity s) (direction s) (euler s) v
    (enemies s) (walls s) (pending s) (entropy s) (nextId s) (calls s).

Definition set_enemies (v : list Enemy.t) (s : GameEngine) : GameEngine :=
  mkEngine (camera s) (playerHealth s) (playerAmmo s) (playerReserveAmmo s)
    (isReloading s) (moveForward s) (moveBackward s) (moveLeft s)
    (moveRight s) (canJump s) (velocity s) (direction s) (euler s)
    (isLocked s) v (walls s) (pending s) (entropy s) (nextId s) (calls s).

Definition set_pending (v : list Timer.t) (s : GameEngine) : GameEngine :=
  mkEngine (camera s) (playerHealth s) (playerAmmo s) (playerReserveAmmo s)
    (isReloading s) (moveForward s) (moveBackward s) (moveLeft s)
    (moveRight s) (canJump s) (velocity s) (direction s) (euler s)
    (isLocked s) (enemies s) (walls s) v (entropy s) (nextId s) (calls s).

Definition set_entropy (v : list Q) (s : GameEngine) : GameEngine :=
  mkEngine (camera s) (playerHealth s) (playerAmmo s) (playerReserveAmmo s)
    (isReloading s) (moveForward s) (moveBackward s) (moveLeft s)
    (moveRight s) (canJump s) (velocity s) (direction s) (euler s)
    (isLocked s) (enemies s) (walls s) (pending s) v (nextId s) (calls s).

Definition set_nextId (v : nat) (s : GameEngine) : GameEngine :=
  mkEngine (camera s) (playerHealth s) (playerAmmo s) (playerReserveAmmo s)
    (isReloading s) (moveForward s) (moveBackward s) (moveLeft s)
    (moveRight s) (canJump s) (velocity s) (direction s) (euler s)
    (isLocked s) (enemies s) (walls s) (pending s) (entropy s) v (calls s).

Definition set_calls (v : list Callback) (s : GameEngine) : GameEngine :=
  mkEngine (camera s) (playerHealth s) (playerAmmo s) (playerReserveAmmo s)
    (isReloading s) (moveForward s) (moveBackward s) (moveLeft s)
    (moveRight s) (canJump s) (velocity s) (direction s) (euler s)
    (isLocked s) (enemies s) (walls s) (pending s) (entropy s) (nextId s) v.
Definition emit (c : Callback) (s : GameEngine) : GameEngine :=
  set_calls (c :: calls s) s.

(** [Math.random()] *)
Definition Math_random (s : GameEngine) : option (Q * GameEngine) :=
  match entropy s with
  | [] => None
  | r :: rest => Some (r, set_entropy rest s)
  end.

Definition set_walls (v : list Mesh.t) (s : GameEngine) : GameEngine :=
  mkEngine (camera s) (playerHealth s) (playerAmmo s) (playerReserveAmmo s)
    (isReloading s) (moveForward s) (moveBackward s) (moveLeft s)
    (moveRight s) (canJump s) (velocity s) (direction s) (euler s)
    (isLocked s) (enemies s) v (pending s) (entropy s) (nextId s) (calls s).

(** [new THREE.Mesh(new THREE.BoxGeometry(...size), material)]: a fresh
    object at the origin. *)
Definition newMesh (size : Vector3.t) (s : GameEngine) : Mesh.t * GameEngine :=
  (Mesh.mk (nextId s) (Vector3.mk 0 0 0) size Quaternion.identity,
   set_nextId (S (nextId s)) s).

(** ** World construction *)

Definition addWall (size position : Vector3.t) (s : GameEngine) : GameEngine :=
  let '(wall, s1) := newMesh size s in
  set_walls (walls s1 ++ [Mesh.set_position wall position]) s1.

Definition createArena (s : GameEngine) : GameEngine :=
  let wallHeight := 20 in
  let arenaSize := 100 in
  let wallGeometry1 := Vector3.mk (arenaSize * 2) wallHeight 2 in
  (* North wall *)
  let s1 := addWall wallGeometry1 (Vector3.mk 0 (wallHeight / 2) (- arenaSize)) s in
  (* South wall *)
  let s2 := addWall wallGeometry1 (Vector3.mk 0 (wallHeight / 2) arenaSize) s1 in
  let wallGeometry2 := Vector3.mk 2 wallHeight (arenaSize * 2) in
  (* East wall *)
  let s3 := addWall wallGeometry2 (Vector3.mk arenaSize (wallHeight / 2) 0) s2 in
  (* West wall *)
  addWall wallGeometry2 (Vector3.mk (- arenaSize) (wallHeight / 2) 0) s3.

Definition coverPositions : list (Q * Q) :=
  [ (20, 30); (-20, 30); (20, -30); (-20, -30);
    (40, 0); (-40, 0); (0, 40); (0, -40) ].

Definition createCover (s : GameEngine) : GameEngine :=
  fold_left
    (fun acc '(x, z) => addWall (Vector3.mk 8 10 8) (Vector3.mk x 5 z) acc)
    coverPositions s.

(** The [do ... while] of [spawnEnemies]: pairs of random numbers are
    drawn until one falls outside the square around the player's start. *)
Fixpoint spawnPosition (tape : list Q) : option (Q * Q * list Q) :=
  match tape with
  | r1 :: r2 :: rest =>
      let x := (r1 - (1 # 2)) * 160 in
      let z := (r2 - (1 # 2)) * 160 in
      if Qltb (Qabs x) 20 && Qltb (Qabs z) 20
      then spawnPosition rest
      else Some (x, z, rest)
  | _ => None
  end.

Fixpoint spawnEnemies (count : nat) (s : GameEngine) : option GameEngine :=
  match count with
  | O => Some s
  | S count' =>
      let '(enemy, s1) := newMesh (Vector3.mk 4 12 4) s in
      '(x, z, rest) <- spawnPosition (entropy s1) ;;
      let s2 := set_entropy rest s1 in
      let enemy := Mesh.set_position enemy (Vector3.mk x 6 z) in
      let s3 :=
        set_enemies
          (enemies s2 ++
           [Enemy.mk enemy (Vector3.mk 0 0 0) 100 0 (Vector3.mk x 6 z) 0])
          s2 in
      spawnEnemies count' s3
  end.

(** The field initialisers together with [camera.position.y = 10]. *)
Definition fresh (tape : list Q) : GameEngine :=
  mkEngine
    (Camera.mk (Vector3.mk 0 10 0) Quaternion.identity (Euler.mk 0 0 0))
    100 30 90 false
    false false false false false (Vector3.mk 0 0 0) (Vector3.mk 0 0 0)
    (Euler.mk 0 0 0) false
    [] []
    [] tape O [].

Definition constructor (tape : list Q) : option GameEngine :=
  let s := fresh tape in
  (* Create arena walls *)
  let s := createArena s in
  (* Create cover objects *)
  let s := createCover s in
  (* Spawn initial enemies *)
  spawnEnemies 5 s.

(** ** Combat *)

(** [this.enemies.find(p)] is [List.find]; the assignment to
    [hitEnemy.health] changes the object that [find] returned, which sits
    in the array: the first element satisfying [p] is replaced. *)
Fixpoint assign_first {A : Type} (p : A -> bool) (f : A -> A) (l : list A)
  : list A :=
  match l with
  | [] => []
  | a :: l' => if p a then f a :: l' else a :: assign_first p f l'
  end.

Definition killEnemy (enemy : Enemy.t) (s : GameEngine) : option GameEngine :=
  let s1 :=
    set_enemies (filter (fun e => negb (Enemy.same e enemy)) (enemies s)) s in
  let s2 := emit onKill s1 in
  (* Spawn new enemy *)
  if (length (enemies s2) <? 5)%nat then spawnEnemies 1 s2 else Some s2.

Section Combat.
Context {H : Host}.

(** Camera recoil, the last two statements of [shoot]. *)
Definition recoil (s : GameEngine) : option GameEngine :=
  '(r1, s1) <- Math_random s ;;
  let rot := Camera.rotation (camera s1) in
  let s2 :=
    set_camera
      (set_camera_rotation (camera s1)
         (Euler.set_x rot (Euler.x rot + (r1 - (1 # 2)) * (2 # 100))))
      s1 in
  '(r2, s3) <- Math_random s2 ;;
  let rot := Camera.rotation (camera s3) in
  Some
    (set_camera
       (set_camera_rotation (camera s3)
          (Euler.set_y rot (Euler.y rot + (r2 - (1 # 2)) * (2 # 100))))
       s3).

(** The enemy, if any, that the raycast of [shoot] designates:
    [intersects[0].object] looked up among the enemies. *)
Definition hitEnemy (s : GameEngine) : option Enemy.t :=
  let ray := Raycaster_setFromCamera (camera s) in
  let intersects :=
    Raycaster_intersectObjects ray (map Enemy.mesh (enemies s)) in
  match intersects with
  | [] => None
  | i :: _ =>
      find (fun e => Nat.eqb (Enemy.ident e) (Intersection.object i))
           (enemies s)
  end.

(** The two statements of [shoot] that spend the round. *)
Definition fire (s : GameEngine) : GameEngine :=
  let s1 := set_playerAmmo (playerAmmo s - 1)%Z s in
  emit (onAmmoChange (playerAmmo s1)) s1.

(** "Raycasting for hit detection" *)
Definition resolveHit (s : GameEngine) : option GameEngine :=
  match hitEnemy s with
  | Some target =>
      let hit := Enemy.set_health target (Enemy.health target - 34)%Z in
      let s1 :=
        set_enemies
          (assign_first (Enemy.same target) (fun _ => hit) (enemies s)) s in
      let s2 := emit onHit s1 in
      if (Enemy.health hit <=? 0)%Z then killEnemy hit s2 else Some s2
  | None => Some s
  end.

Definition shoot (s : GameEngine) : option GameEngine :=
  if (playerAmmo s <=? 0)%Z || isReloading s then Some s
  else
    let s1 := fire s in
    (* playGunshot: audio only *)
    s2 <- resolveHit s1 ;;
    (* Camera recoil *)
    recoil s2.
End Combat.

(** The callback that [reload] hands to [setTimeout]. *)
Definition reloadDone (toReload : Z) (s : GameEngine) : GameEngine :=
  let s1 := set_playerAmmo (playerAmmo s + toReload)%Z s in
  let s2 := set_playerReserveAmmo (playerReserveAmmo s1 - toReload)%Z s1 in
  let s3 := emit (onAmmoChange (playerAmmo s2)) s2 in
  set_isReloading false s3.

Definition reload (s : GameEngine) : GameEngine :=
  if isReloading s || (playerAmmo s =? 30)%Z then s
  else
    let s1 := set_isReloading true s in
    let needed := (30 - playerAmmo s1)%Z in
    let toReload := Z.min needed (playerReserveAmmo s1) in
    set_pending (pending s1 ++ [Timer.mk 1500 toReload]) s1.

(** The timer at the head of the queue runs (all delays are equal, so the
    scheduled callbacks run in the order they were scheduled). *)
Definition timeout (s : GameEngine) : GameEngine :=
  match pending s with
  | [] => s
  | t :: rest => reloadDone (Timer.toReload t) (set_pending rest s)
  end.

(** ** Per-frame updates *)

Section Frame.
Context {H : Host}.

Definition length3 := Vector3.length Math_sqrt.
Definition normalize3 := Vector3.normalize Math_sqrt.
Definition distanceTo3 := Vector3.distanceTo Math_sqrt.

(** *** Enemies *)

(** "Update target position periodically" *)
Definition retarget (delta : Q) (enemy : Enemy.t) (s : GameEngine)
  : option (Enemy.t * GameEngine) :=
  let enemy := Enemy.set_moveTimer enemy (Enemy.moveTimer enemy + delta) in
  if Qltb 2 (Enemy.moveTimer enemy) then
    let enemy := Enemy.set_moveTimer enemy 0 in
    (* 70% chance to move towards player, 30% random *)
    '(r, s1) <- Math_random s ;;
    if Qltb (3 # 10) r then
      let position := Mesh.position (Enemy.mesh enemy) in
      let dirToPlayer :=
        Vector3.sub (Camera.position (camera s1)) position in
      let dirToPlayer := Vector3.set_y dirToPlayer 0 in
      let dirToPlayer := normalize3 dirToPlayer in
      Some (Enemy.set_target enemy
              (Vector3.add position (Vector3.multiplyScalar dirToPlayer 20)),
            s1)
    else
      '(rx, s2) <- Math_random s1 ;;
      '(rz, s3) <- Math_random s2 ;;
      Some (Enemy.set_target enemy
              (Vector3.mk ((rx - (1 # 2)) * 160) 6 ((rz - (1 # 2)) * 160)),
            s3)
  else Some (enemy, s).

(** "Move towards target" *)
Definition moveTowardsTarget (delta : Q) (enemy : Enemy.t) : Enemy.t :=
  let position := Mesh.position (Enemy.mesh enemy) in
  let direction := Vector3.sub (Enemy.target enemy) position in
  let direction := Vector3.set_y direction 0 in
  if Qltb 2 (length3 direction) then
    let direction := normalize3 direction in
    let v := Enemy.velocity enemy in
    let v := Vector3.set_x v (Vector3.x direction * 15) in
    let v := Vector3.set_z v (Vector3.z direction * 15) in
    let position :=
      Vector3.set_x position (Vector3.x position + Vector3.x v * delta) in
    let position :=
      Vector3.set_z position (Vector3.z position + Vector3.z v * delta) in
    let mesh := Mesh.set_position (Enemy.mesh enemy) position in
    (* Look at target *)
    let mesh :=
      Mesh.set_quaternion mesh (Object3D_lookAt mesh (Enemy.target enemy)) in
    Enemy.set_mesh (Enemy.set_velocity enemy v) mesh
  else enemy.

(** "Hit player with some accuracy": the body of the innermost [if]. *)
Definition hitPlayer (s : GameEngine) : GameEngine :=
  let s1 := set_playerHealth (playerHealth s - 10)%Z s in
  let s2 := emit (onHealthChange (playerHealth s1)) s1 in
  if (playerHealth s2 <=? 0)%Z then emit onDeath s2 else s2.

(** The guard of "Shoot at player". *)
Definition shotDue (distToPlayer : Q) (currentTime : Z) (enemy : Enemy.t)
  : bool :=
  Qltb distToPlayer 50 && (2000 <? currentTime - Enemy.lastShot enemy)%Z.

(** "Shoot at player" *)
Definition shootAtPlayer (currentTime : Z) (enemy : Enemy.t)
  (s : GameEngine) : option (Enemy.t * GameEngine) :=
  let position := Mesh.position (Enemy.mesh enemy) in
  let distToPlayer := distanceTo3 position (Camera.position (camera s)) in
  if shotDue distToPlayer currentTime enemy then
    let enemy := Enemy.set_lastShot enemy currentTime in
    (* Check if player is visible *)
    let direction := Vector3.sub (Camera.position (camera s)) position in
    let direction := normalize3 direction in
    let intersects :=
      Raycaster_intersectObjects (Ray.mk position direction) (walls s) in
    let visible :=
      match intersects with
      | [] => true
      | i :: _ => Qltb distToPlayer (Intersection.distance i)
      end in
    if visible then
      '(r, s1) <- Math_random s ;;
      if Qltb (3 # 10) r then Some (enemy, hitPlayer s1) else Some (enemy, s1)
    else Some (enemy, s)
  else Some (enemy, s).

(** The body of the [forEach] of [updateEnemies]. *)
Definition updateEnemy (delta : Q) (currentTime : Z) (enemy : Enemy.t)
  (s : GameEngine) : option (Enemy.t * GameEngine) :=
  '(enemy, s1) <- retarget delta enemy s ;;
  let enemy := moveTowardsTarget delta enemy in
  shootAtPlayer currentTime enemy s1.

(** The [forEach]: the enemy objects are updated in place, in order;
    the player's health, the callbacks and the random source are threaded
    through. *)
Fixpoint forEachEnemy (delta : Q) (currentTime : Z) (es : list Enemy.t)
  (s : GameEngine) : option (list Enemy.t * GameEngine) :=
  match es with
  | [] => Some ([], s)
  | enemy :: rest =>
      '(enemy', s1) <- updateEnemy delta currentTime enemy s ;;
      '(rest', s2) <- forEachEnemy delta currentTime rest s1 ;;
      Some (enemy' :: rest', s2)
  end.

(** [currentTime] is the value of [Date.now()]. *)
Definition updateEnemies (delta : Q) (currentTime : Z) (s : GameEngine)
  : option GameEngine :=
  '(es, s1) <- forEachEnemy delta currentTime (enemies s) s ;;
  Some (set_enemies es s1).

(** *** Player *)

(** Damping, gravity and input acceleration: the statements of
    [updatePlayer] up to the copy of the position. *)
Definition accelerate (delta : Q) (s : GameEngine) : GameEngine :=
  let v := velocity s in
  (* Damping *)
  let v := Vector3.set_x v (Vector3.x v - Vector3.x v * 10 * delta) in
  let v := Vector3.set_z v (Vector3.z v - Vector3.z v * 10 * delta) in
  let v := Vector3.set_y v (Vector3.y v - (98 # 10) * 10 * delta) in
  let d := direction s in
  let d :=
    Vector3.set_z d (Number (moveForward s) - Number (moveBackward s)) in
  let d := Vector3.set_x d (Number (moveRight s) - Number (moveLeft s)) in
  let d := normalize3 d in
  let v :=
    if moveForward s || moveBackward s
    then Vector3.set_z v (Vector3.z v - Vector3.z d * 100 * delta) else v in
  let v :=
    if moveLeft s || moveRight s
    then Vector3.set_x v (Vector3.x v - Vector3.x d * 100 * delta) else v in
  set_direction d (set_velocity v s).

(** The three statements that move the camera. *)
Definition integrate (delta : Q) (s : GameEngine) : GameEngine :=
  let c := translateX (camera s) (Vector3.x (velocity s) * delta) in
  let c := translateZ c (Vector3.z (velocity s) * delta) in
  let p := Camera.position c in
  let c :=
    Camera.set_position c
      (Vector3.set_y p (Vector3.y p + Vector3.y (velocity s) * delta)) in
  set_camera c s.

Definition playerBox (s : GameEngine) : Box3.t :=
  Box3.setFromCenterAndSize (Camera.position (camera s)) (Vector3.mk 2 10 2).

(** "Collision detection with walls": the [for] loop with its [break]. *)
Fixpoint collideWalls (box : Box3.t) (prevPosition : Vector3.t)
  (ws : list Mesh.t) (s : GameEngine) : GameEngine :=
  match ws with
  | [] => s
  | wall :: rest =>
      let wallBox := Mesh.box wall in
      if Box3.intersectsBox box wallBox then
        let s1 := set_camera (Camera.set_position (camera s) prevPosition) s in
        let s2 := set_velocity (Vector3.set_x (velocity s1) 0) s1 in
        set_velocity (Vector3.set_z (velocity s2) 0) s2
      else collideWalls box prevPosition rest s
  end.

(** "Ground collision" *)
Definition groundCollision (s : GameEngine) : GameEngine :=
  if Qltb (Vector3.y (Camera.position (camera s))) 10 then
    let s1 := set_velocity (Vector3.set_y (velocity s) 0) s in
    let s2 :=
      set_camera
        (Camera.set_position (camera s1)
           (Vector3.set_y (Camera.position (camera s1)) 10)) s1 in
    set_canJump true s2
  else s.

(** "Arena bounds" *)
Definition arenaBounds (s : GameEngine) : GameEngine :=
  let p := Camera.position (camera s) in
  let p := Vector3.set_x p (Math_max (-95) (Math_min 95 (Vector3.x p))) in
  let p := Vector3.set_z p (Math_max (-95) (Math_min 95 (Vector3.z p))) in
  set_camera (Camera.set_position (camera s) p) s.

Definition updatePlayer (delta : Q) (s : GameEngine) : GameEngine :=
  let s1 := accelerate delta s in
  let prevPosition := Camera.position (camera s1) in
  let s2 := integrate delta s1 in
  let s3 := collideWalls (playerBox s2) prevPosition (walls s2) s2 in
  let s4 := groundCollision s3 in
  arenaBounds s4.

(** [delta] is the value of [this.clock.getDelta()], [currentTime] the
    value [Date.now()] has inside [updateEnemies]. *)
Definition animate (delta : Q) (currentTime : Z) (s : GameEngine)
  : option GameEngine :=
  if negb (isLocked s) then Some s
  else updateEnemies delta currentTime (updatePlayer delta s).
End Frame.

(** ** Input handlers *)

Inductive KeyCode := KeyW | KeyS | KeyA | KeyD | Space | KeyR | OtherKey.

Section Input.
Context {H : Host}.

Definition onKeyDown (code : KeyCode) (s : GameEngine) : GameEngine :=
  match code with
  | KeyW => set_moveForward true s
  | KeyS => set_moveBackward true s
  | KeyA => set_moveLeft true s
  | KeyD => set_moveRight true s
  | Space =>
      let s1 :=
        if canJump s
        then set_velocity
               (Vector3.set_y (velocity s) (Vector3.y (velocity s) + 15)) s
        else s in
      set_canJump false s1
  | KeyR => reload s
  | OtherKey => s
  end.

Definition onKeyUp (code : KeyCode) (s : GameEngine) : GameEngine :=
  match code with
  | KeyW => set_moveForward false s
  | KeyS => set_moveBackward false s
  | KeyA => set_moveLeft false s
  | KeyD => set_moveRight false s
  | _ => s
  end.

Definition onMouseMove (movementX movementY : Q) (s : GameEngine)
  : GameEngine :=
  if negb (isLocked s) then s
  else
    let movementX := or_default movementX 0 in
    let movementY := or_default movementY 0 in
    let e := Euler_setFromQuaternion Euler.YXZ (Camera.quaternion (camera s)) in
    let e := Euler.set_y e (Euler.y e - movementX * (2 # 1000)) in
    let e := Euler.set_x e (Euler.x e - movementY * (2 # 1000)) in
    let e :=
      Euler.set_x e
        (Math_max (- Math_PI / 2) (Math_min (Math_PI / 2) (Euler.x e))) in
    set_camera (set_camera_quaternion_from (camera s) e) (set_euler e s).

(** [button] is [event.button]. *)
Definition onMouseDown (button : Z) (s : GameEngine) : option GameEngine :=
  if negb (isLocked s) || negb (button =? 0)%Z then Some s else shoot s.

(** The [pointerlockchange] listener; [locked] is the outcome of the
    comparison [document.pointerLockElement === this.renderer.domElement]. *)
Definition onPointerLockChange (locked : bool) (s : GameEngine)
  : GameEngine :=
  set_isLocked locked s.

(** ** Runs *)

(** What can happen to an engine: the browser delivers an event, a
    scheduled callback or an animation frame, or a method is called
    directly. *)
Inductive Op :=
| KeyDown (code : KeyCode)
| KeyUp (code : KeyCode)
| MouseMove (movementX movementY : Q)
| MouseDown (button : Z)
| PointerLockChange (locked : bool)
| Timeout
| Animate (delta : Q) (currentTime : Z)
| Shoot
| Reload
| UpdatePlayer (delta : Q)
| UpdateEnemies (delta : Q) (currentTime : Z).

Definition step (op : Op) (s : GameEngine) : option GameEngine :=
  match op with
  | KeyDown code => Some (onKeyDown code s)
  | KeyUp code => Some (onKeyUp code s)
  | MouseMove mx my => Some (onMouseMove mx my s)
  | MouseDown button => onMouseDown button s
  | PointerLockChange locked => Some (onPointerLockChange locked s)
  | Timeout => Some (timeout s)
  | Animate delta currentTime => animate delta currentTime s
  | Shoot => shoot s
  | Reload => Some (reload s)
  | UpdatePlayer delta => Some (updatePlayer delta s)
  | UpdateEnemies delta currentTime => updateEnemies delta currentTime s
  end.

Fixpoint run (ops : list Op) (s : GameEngine) : option GameEngine :=
  match ops with
  | [] => Some s
  | op :: rest => s1 <- step op s ;; run rest s1
  end.

(** The states an engine can be in: built by [constructor], then any
    number of steps. *)
Inductive reachable : GameEngine -> Prop :=
| reachable_new tape s :
    constructor tape = Some s -> reachable s
| reachable_step op s s' :
    reachable s -> step op s = Some s' -> reachable s'.
End Input.

(** ** A host for running examples

    Square roots are integer square roots of the integer part (exact on
    perfect squares, which is all the examples take roots of); orientations
    are not tracked; the ray caster is a parameter. *)

Definition sqrt_floor (q : Q) : Q := inject_Z (Z.sqrt (Qfloor q)).

Definition exampleHost
  (cast : Ray.t -> list Mesh.t -> list Intersection.t) : Host :=
  {| Math_sqrt := sqrt_floor;
     Euler_setFromQuaternion := fun _ _ => Euler.mk 0 0 0;
     Quaternion_setFromEuler := fun _ _ => Quaternion.identity;
     Object3D_lookAt := fun m _ => Mesh.quaternion m;
     Raycaster_setFromCamera :=
       fun c => Ray.mk (Camera.position c) (Vector3.mk 0 0 (-1));
     Raycaster_intersectObjects := cast |}.

(** No ray meets anything. *)
Definition castNothing (_ : Ray.t) (_ : list Mesh.t) : list Intersection.t :=
  [].

(** Every ray meets the first of the objects it is tested against, at
    distance 1. *)
Definition castFirst (_ : Ray.t) (objects : list Mesh.t)
  : list Intersection.t :=
  match objects with
  | [] => []
  | m :: _ => [Intersection.mk 1 (Mesh.id m)]
  end.

(** ** Invariants and example states used by the properties *)

(** The invariant of the magazine, the reserve and the reload timer: at
    most one reload is scheduled, exactly while [isReloading] is set, and
    the amount it captured is still the amount the magazine can take. *)
Definition ammo_ok (s : GameEngine) : Prop :=
  (0 <= playerAmmo s <= 30)%Z /\
  (0 <= playerReserveAmmo s)%Z /\
  (playerAmmo s + playerReserveAmmo s <= 120)%Z /\
  match pending s with
  | [] => isReloading s = false
  | [t] =>
      isReloading s = true /\
      Timer.toReload t = Z.min (30 - playerAmmo s) (playerReserveAmmo s)
  | _ => False
  end.

Definition ammoView (s : GameEngine) : Z * Z * bool * list Timer.t :=
  (playerAmmo s, playerReserveAmmo s, isReloading s, pending s).

(** The fields [updatePlayer] can change. *)
Definition player_frame (s s' : GameEngine) : Prop :=
  s' = set_camera (camera s')
         (set_velocity (velocity s')
            (set_direction (direction s') (set_canJump (canJump s') s))).

(** The state in an option, for examples. *)
Definition the (o : option GameEngine) : GameEngine :=
  match o with
  | Some s => s
  | None => fresh []
  end.

(** Random numbers that place the five initial enemies at [(20, 6, 5)]. *)
Definition spawnTape : list Q :=
  concat (repeat [5 # 8; 17 # 32] 5).

(** An engine, on a host whose rays meet nothing, after one shot and a
    call of [reload]. *)
Definition reloadingEngine : GameEngine :=
  the (s <- constructor (spawnTape ++ [1 # 2; 1 # 2]) ;;
       run (H := exampleHost castNothing) [Shoot; Reload] s).

(** An engine, on a host whose rays meet nothing, that has fired its 30
    rounds and reloaded three times, emptying the reserve, and then fired
    once more. *)
Definition drainedEngine : GameEngine :=
  the (s <- constructor (spawnTape ++ repeat (1 # 2) 182) ;;
       run (H := exampleHost castNothing)
         (concat (repeat (repeat Shoot 30 ++ [Reload; Timeout]) 3) ++ [Shoot])
         s).

(** Where the player can stand: on or above eye height 10 and inside the
    arena bounds. *)
Definition position_ok (p : Vector3.t) : Prop :=
  10 <= Vector3.y p /\
  -95 <= Vector3.x p <= 95 /\
  -95 <= Vector3.z p <= 95.

(** Whether the box around the position integrated over [delta] meets a
    wall: the test of the [for] loop of [updatePlayer]. *)
Definition wouldCollide {H : Host} (delta : Q) (s : GameEngine) : bool :=
  existsb
    (fun wall =>
       Box3.intersectsBox
         (playerBox (integrate delta (accelerate delta s))) (Mesh.box wall))
    (walls s).

(** An engine whose player holds the forward key through two frames of a
    third of a second: the next such frame would carry the player from
    [z = 100/27] into the cover block at [(0, -40)]. *)
Definition walkingEngine : GameEngine :=
  the (s <- constructor spawnTape ;;
       run (H := exampleHost castNothing)
         [KeyDown KeyW; UpdatePlayer (1 # 3); UpdatePlayer (1 # 3)] s).

(** The enemy object that [spawnEnemies] pushes for the mesh identity
    [id] and the accepted coordinates [x], [z]. *)
Definition spawned (id : nat) (x z : Q) : Enemy.t :=
  Enemy.mk
    (Mesh.mk id (Vector3.mk x 6 z) (Vector3.mk 4 12 4) Quaternion.identity)
    (Vector3.mk 0 0 0) 100 0 (Vector3.mk x 6 z) 0.

(** What a call of [shoot] does, as decided by its guards. *)
Inductive Shot :=
| Blocked
| Miss
| Wound (enemy : Enemy.t)
| Kill (enemy : Enemy.t).

Definition shotOutcome {H : Host} (s : GameEngine) : Shot :=
  if (playerAmmo s <=? 0)%Z || isReloading s then Blocked
  else
    match hitEnemy s with
    | None => Miss
    | Some enemy =>
        if (Enemy.health enemy - 34 <=? 0)%Z then Kill enemy else Wound enemy
    end.

(** The enemy as [shoot] leaves it after the hit. *)
Definition damaged (enemy : Enemy.t) : Enemy.t :=
  Enemy.set_health enemy (Enemy.health enemy - 34)%Z.

(** The array after the hit on [enemy] was recorded in place. *)
Definition afterHit (enemy : Enemy.t) (es : list Enemy.t) : list Enemy.t :=
  assign_first (Enemy.same enemy) (fun _ => damaged enemy) es.

(** The array after [killEnemy] filtered the dead enemy out. *)
Definition survivors (enemy : Enemy.t) (es : list Enemy.t) : list Enemy.t :=
  filter (fun e => negb (Enemy.same e (damaged enemy))) (afterHit enemy es).

(** Counting callbacks in the record of invocations. *)
Definition is_onKill (c : Callback) : bool :=
  match c with onKill => true | _ => false end.

Definition is_onHealthChange (c : Callback) : bool :=
  match c with onHealthChange _ => true | _ => false end.

(** Number of [onKill] invocations so far. *)
Definition kills (s : GameEngine) : nat :=
  length (filter is_onKill (calls s)).

(** Number of [onHealthChange] invocations so far: one per enemy shot
    that hit the player. *)
Definition hitsTaken (s : GameEngine) : Z :=
  Z.of_nat (length (filter is_onHealthChange (calls s))).

(** The invariant of the enemy array: five enemies, distinct objects,
    created before [nextId], each with the health a 100-point enemy has
    after zero, one or two hits; and every mesh after the 12 walls and the
    5 initial enemies was created for a kill. *)
Definition enemies_ok (s : GameEngine) : Prop :=
  length (enemies s) = 5%nat /\
  NoDup (map Enemy.ident (enemies s)) /\
  Forall (fun i => (i < nextId s)%nat) (map Enemy.ident (enemies s)) /\
  Forall (fun h => In h [100; 66; 32]%Z) (map Enemy.health (enemies s)) /\
  nextId s = (17 + kills s)%nat.

(** The enemy object with mesh identity [m], if it is in the array. *)
Definition lookup (m : nat) (es : list Enemy.t) : option Enemy.t :=
  find (fun e => Nat.eqb (Enemy.ident e) m) es.

(** The health of the live enemy [m]; [None] when [m] is not alive. *)
Definition healthOf (m : nat) (s : GameEngine) : option Z :=
  option_map Enemy.health (lookup m (enemies s)).

(** A step that leaves the game objects and the player's health alone and
    invokes at most [onAmmoChange]. *)
Definition quiet (s s' : GameEngine) : Prop :=
  enemies s' = enemies s /\
  nextId s' = nextId s /\
  playerHealth s' = playerHealth s /\
  walls s' = walls s /\
  (calls s' = calls s \/ exists a, calls s' = onAmmoChange a :: calls s).

(** Enemies spawned after construction: the meshes created beyond the 12
    walls and the 5 initial enemies. *)
Definition replacements (s : GameEngine) : nat := (nextId s - 17)%nat.

(** An engine, on a host whose rays always meet the first enemy of the
    array, after three shots: the first enemy was killed and replaced. *)
Definition killingEngine : GameEngine :=
  the (s <- constructor (spawnTape ++ [1 # 2; 1 # 2; 1 # 2; 1 # 2;
                                       5 # 8; 17 # 32; 1 # 2; 1 # 2]) ;;
       run (H := exampleHost castFirst) [Shoot; Shoot; Shoot] s).

(** The random numbers one enemy draws in a frame in which it picks a
    random target (here its own position), sees the player and hits. *)
Definition hitTape : list Q := [0; 5 # 8; 17 # 32; 1 # 2].

(** An engine, on a host whose rays meet nothing, after three frames three
    seconds apart in each of which all five enemies, 21 units from the
    player, hit: fifteen hits. *)
Definition overrunEngine : GameEngine :=
  the (s <- constructor (spawnTape ++ concat (repeat hitTape 15)) ;;
       run (H := exampleHost castNothing)
         [PointerLockChange true; Animate 3 1000000; Animate 3 1003000;
          Animate 3 1006000] s).

(** The enemy a call of [shoot] hits, by mesh identity. *)
Definition victim {H : Host} (s : GameEngine) : option nat :=
  match shotOutcome s with
  | Wound enemy | Kill enemy => Some (Enemy.ident enemy)
  | Blocked | Miss => None
  end.

(** The enemy an operation hits: only [shoot], called directly or by a
    left click while the pointer is locked, hits anything. *)
Definition struck {H : Host} (op : Op) (s : GameEngine) : option nat :=
  match op with
  | Shoot => victim s
  | MouseDown button =>
      if negb (isLocked s) || negb (button =? 0)%Z then None else victim s
  | _ => None
  end.

Definition strikes {H : Host} (m : nat) (op : Op) (s : GameEngine) : bool :=
  match struck op s with
  | Some m' => Nat.eqb m' m
  | None => false
  end.

(** How many operations of a run hit the enemy [m]. *)
Fixpoint hitsOn {H : Host} (m : nat) (ops : list Op) (s : GameEngine) : nat :=
  match ops with
  | [] => 0
  | op :: rest =>
      match step op s with
      | Some s1 => (if strikes m op s then 1 else 0) + hitsOn m rest s1
      | None => 0
      end
  end.

(** What a hit of 34 leaves of an enemy with health [h]: removed when the
    new health is not positive. *)
Definition afterDamage (h : Z) : option Z :=
  if (h - 34 <=? 0)%Z then None else Some (h - 34)%Z.

(** An engine, on a host whose rays always meet the first enemy of the
    array, right after construction. *)
Definition aimingEngine : GameEngine :=
  the (constructor (spawnTape ++ [1 # 2; 1 # 2])).

(** The live enemies other than [m]. *)
Definition others (m : nat) (es : list Enemy.t) : list Enemy.t :=
  filter (fun e => negb (Nat.eqb (Enemy.ident e) m)) es.

(** Rays fired from beyond the line [z = 0] meet the first enemy of the
    array; rays fired from elsewhere meet nothing. *)
Definition castPastLine (ray : Ray.t) (objects : list Mesh.t)
  : list Intersection.t :=
  if Qltb (Vector3.z (Ray.origin ray)) 0 then castFirst ray objects else [].

(** An engine that fired 25 rounds into the air and whose player then
    stepped forward across the line: 5 rounds left, every enemy at 100. *)
Definition scenarioEngine : GameEngine :=
  the (s <- constructor (spawnTape ++ repeat (1 # 2) 50 ++
                         [1 # 2; 1 # 2; 1 # 2; 1 # 2;
                          5 # 8; 17 # 32; 1 # 2; 1 # 2;
                          1 # 2; 1 # 2; 1 # 2; 1 # 2]) ;;
       run (H := exampleHost castPastLine)
         (repeat Shoot 25 ++ [KeyDown KeyW; UpdatePlayer (1 # 3)]) s).

(** The state [n] shots after [scenarioEngine]. *)
Fixpoint scenarioShots (n : nat) : GameEngine :=
  match n with
  | O => scenarioEngine
  | S n' => the (shoot (H := exampleHost castPastLine) (scenarioShots n'))
  end.

(** A host in which an orientation is stored as the Euler angles it was
    last given, and read back as those angles in either order.  It serves
    for the example of looking straight up, where only a pitch is set. *)
Definition angleHost : Host :=
  {| Math_sqrt := sqrt_floor;
     Euler_setFromQuaternion :=
       fun _ q => Euler.mk (Quaternion.x q) (Quaternion.y q) (Quaternion.z q);
     Quaternion_setFromEuler :=
       fun _ e => Quaternion.mk (Euler.x e) (Euler.y e) (Euler.z e) 1;
     Object3D_lookAt := fun m _ => Mesh.quaternion m;
     Raycaster_setFromCamera :=
       fun c => Ray.mk (Camera.position c) (Vector3.mk 0 0 (-1));
     Raycaster_intersectObjects := castNothing |}.

(** The pointer is locked, the mouse is pushed far up, a shot is fired. *)
Definition lookUpAndShoot : list Op :=
  [PointerLockChange true; MouseMove 0 (-1000); Shoot].

(** The pitch that [onMouseMove] asks for before it clamps. *)
Definition requestedPitch {H : Host} (movementY : Q) (s : GameEngine) : Q :=
  Euler.x (Euler_setFromQuaternion Euler.YXZ (Camera.quaternion (camera s)))
  - or_default movementY 0 * (2 # 1000).

(** Random numbers enough for one call of [shoot]: a position for a
    replacement enemy can be drawn and two numbers remain for the recoil. *)
Definition sufficesForShot (tape : list Q) : Prop :=
  exists x z r1 r2 rest, spawnPosition tape = Some (x, z, r1 :: r2 :: rest).

(** ** Vocabulary of the further properties *)

(** Whether the enemy's ray to the player reaches the player before it
    reaches a wall: the value of [visible] in "Shoot at player". *)
Definition playerVisible {H : Host} (enemy : Enemy.t) (s : GameEngine) : bool :=
  let position := Mesh.position (Enemy.mesh enemy) in
  let distToPlayer := distanceTo3 position (Camera.position (camera s)) in
  let direction :=
    normalize3 (Vector3.sub (Camera.position (camera s)) position) in
  match Raycaster_intersectObjects (Ray.mk position direction) (walls s) with
  | [] => true
  | i :: _ => Qltb distToPlayer (Intersection.distance i)
  end.

(** The player's health and the record of invocations after [n] more
    enemy shots have hit: each is one run of the innermost [if] of
    [updateEnemies]. *)
Fixpoint afterHits (n : nat) (health : Z) (cs : list Callback)
  : Z * list Callback :=
  match n with
  | O => (health, cs)
  | S n' =>
      let '(h, cs1) := afterHits n' health cs in
      ((h - 10)%Z,
       (if (h - 10 <=? 0)%Z then [onDeath] else []) ++
       onHealthChange (h - 10) :: cs1)
  end.

(** A step that touches neither the enemies, nor the player's health and
    ammunition, nor the callbacks. *)
Definition silent (s s' : GameEngine) : Prop :=
  enemies s' = enemies s /\
  nextId s' = nextId s /\
  playerHealth s' = playerHealth s /\
  playerAmmo s' = playerAmmo s /\
  playerReserveAmmo s' = playerReserveAmmo s /\
  calls s' = calls s.

Definition is_onHit (c : Callback) : bool :=
  match c with onHit => true | _ => false end.

Definition is_onDeath (c : Callback) : bool :=
  match c with onDeath => true | _ => false end.

(** Number of [onHit] invocations so far: the player's shots that hit an
    enemy. *)
Definition hitsLanded (s : GameEngine) : Z :=
  Z.of_nat (length (filter is_onHit (calls s))).

(** The health the live enemies have lost. *)
Definition damageDealt (es : list Enemy.t) : Z :=
  fold_right (fun e a => (100 - Enemy.health e + a)%Z) 0%Z es.

(** ** The page (layout.tsx)

    The state cells of the [Game] component that the engine's callbacks
    write, with the number of [setTimeout] callbacks scheduled to hide the
    hit marker. *)
Module Game.
Record t := mk {
  health : Z;
  ammo : Z;
  kills : Z;
  deaths : Z;
  gameOver : bool;
  showHitMarker : bool;
  hideTimers : nat
}.

Definition setHealth (v : Z) (g : t) : t :=
  mk v (ammo g) (kills g) (deaths g) (gameOver g) (showHitMarker g)
     (hideTimers g).
Definition setAmmo (v : Z) (g : t) : t :=
  mk (health g) v (kills g) (deaths g) (gameOver g) (showHitMarker g)
     (hideTimers g).
Definition setKills (f : Z -> Z) (g : t) : t :=
  mk (health g) (ammo g) (f (kills g)) (deaths g) (gameOver g)
     (showHitMarker g) (hideTimers g).
Definition setDeaths (f : Z -> Z) (g : t) : t :=
  mk (health g) (ammo g) (kills g) (f (deaths g)) (gameOver g)
     (showHitMarker g) (hideTimers g).
Definition setGameOver (v : bool) (g : t) : t :=
  mk (health g) (ammo g) (kills g) (deaths g) v (showHitMarker g)
     (hideTimers g).
Definition setShowHitMarker (v : bool) (g : t) : t :=
  mk (health g) (ammo g) (kills g) (deaths g) (gameOver g) v (hideTimers g).
Definition setTimeout (g : t) : t :=
  mk (health g) (ammo g) (kills g) (deaths g) (gameOver g) (showHitMarker g)
     (S (hideTimers g)).

(** The [useState] initial values, which [startGame] sets again. *)
Definition initial : t := mk 100 30 0 0 false false 0.

(** The callbacks handed to [new GameEngine]. *)
Definition callback (c : Callback) (g : t) : t :=
  match c with
  | onHealthChange v => setHealth v g
  | onAmmoChange v => setAmmo v g
  | onKill => setKills (fun k => k + 1)%Z g
  | onDeath => setGameOver true (setDeaths (fun d => d + 1)%Z g)
  | onHit => setTimeout (setShowHitMarker true g)
  end.

(** One of the scheduled [() => setShowHitMarker(false)] runs. *)
Definition hideHitMarker (g : t) : option t :=
  match hideTimers g with
  | O => None
  | S n =>
      Some (mk (health g) (ammo g) (kills g) (deaths g) (gameOver g) false n)
  end.

(** What happens to the page: the engine invokes a callback, or a hide
    timer runs. *)
Inductive Event :=
| Invoke (c : Callback)
| HideHitMarker.

Definition handle (ev : Event) (g : t) : option t :=
  match ev with
  | Invoke c => Some (callback c g)
  | HideHitMarker => hideHitMarker g
  end.

Fixpoint handleAll (evs : list Event) (g : t) : option t :=
  match evs with
  | [] => Some g
  | ev :: rest => g1 <- handle ev g ;; handleAll rest g1
  end.

(** The callbacks among the events, oldest first. *)
Fixpoint invoked (evs : list Event) : list Callback :=
  match evs with
  | [] => []
  | Invoke c :: rest => c :: invoked rest
  | HideHitMarker :: rest => invoked rest
  end.

(** The page after the callbacks [cs] (newest first, as [calls] records
    them) and no hide timer. *)
Definition afterCalls (cs : list Callback) : t :=
  fold_right callback initial cs.
End Game.

(** What the page shows of the game: health, magazine, kills, deaths and
    the game-over overlay. *)
Definition shown (g : Game.t) : Z * Z * Z * Z * bool :=
  (Game.health g, Game.ammo g, Game.kills g, Game.deaths g, Game.gameOver g).

(** The page agrees with the player's health [hp], the magazine [am] and
    the record of invocations [cs]. *)
Definition report_ok (hp am : Z) (cs : list Callback) : Prop :=
  let taken := Z.of_nat (length (filter is_onHealthChange cs)) in
  Game.health (Game.afterCalls cs) = hp /\
  Game.ammo (Game.afterCalls cs) = am /\
  Game.deaths (Game.afterCalls cs) = Z.max 0 (taken - 9) /\
  Game.gameOver (Game.afterCalls cs) = (0 <? Game.deaths (Game.afterCalls cs))%Z /\
  (hp + 10 * taken = 100)%Z.

(** The ledger of the player's fire: every hit landed cost a round, and
    every hit landed is a third of a kill or 34 points of damage on a live
    enemy. *)
Definition ledger_ok (s : GameEngine) : Prop :=
  (hitsLanded s + playerAmmo s + playerReserveAmmo s <= 120)%Z /\
  (34 * hitsLanded s =
   102 * Z.of_nat (kills s) + damageDealt (enemies s))%Z.

(** What every enemy object keeps: its mesh stands at height 6 and has
    the size it was built with, it has no vertical velocity, and its
    retarget timer has not passed 2. *)
Definition body_ok (e : Enemy.t) : Prop :=
  Vector3.y (Mesh.position (Enemy.mesh e)) = 6 /\
  Mesh.size (Enemy.mesh e) = Vector3.mk 4 12 4 /\
  Vector3.y (Enemy.velocity e) = 0 /\
  Enemy.moveTimer e <= 2.

(** The range of [Math.random()]. *)
Definition unit_interval (r : Q) : Prop := 0 <= r < 1.

(** An enemy as [spawnEnemies] places it: inside the arena, outside the
    square of side 40 around the player's start. *)
Definition placed (e : Enemy.t) : Prop :=
  exists id x z,
    e = spawned id x z /\
    -80 <= x < 80 /\ -80 <= z < 80 /\
    ~ (Qabs x < 20 /\ Qabs z < 20).

(** The world before the enemies are spawned, with the random numbers that
    place the five initial enemies. *)
Definition emptyArena : GameEngine :=
  createCover (createArena (fresh spawnTape)).

(** An enemy 21 units from the player's start that has not shot yet. *)
Definition sniper : Enemy.t := spawned 12 20 5.

(** An engine right after construction, the pointer locked, with the
    random numbers for one frame in which each of the five enemies picks
    a target, sees the player and hits. *)
Definition besiegedEngine : GameEngine :=
  set_isLocked true
    (the (constructor (spawnTape ++ concat (repeat hitTape 5)))).

(** A mesh whose box lies beyond the reach of a player who is inside the
    arena bounds: at 99 or further out on one of the horizontal axes. *)
Definition beyond_bounds (w : Mesh.t) : Prop :=
  99 <= Vector3.x (Box3.min (Mesh.box w)) \/
  Vector3.x (Box3.max (Mesh.box w)) <= -99 \/
  99 <= Vector3.z (Box3.min (Mesh.box w)) \/
  Vector3.z (Box3.max (Mesh.box w)) <= -99.

(** The page after it received, in order, the callbacks that the engine
    of [overrunEngine] invoked. *)
Definition overrunPage : Game.t :=
  match Game.handleAll (map Game.Invoke (rev (calls overrunEngine))) Game.initial with
  | Some g => g
  | None => Game.initial
  end.


(** An engine, on a host whose rays always meet the first enemy of the
    array, after two shots: the first enemy is at 32, and the random
    numbers left place one replacement and serve one recoil. *)
Definition woundedEngine : GameEngine :=
  the (s <- constructor (spawnTape ++ [1 # 2; 1 # 2; 1 # 2; 1 # 2;
                                       5 # 8; 17 # 32; 1 # 2; 1 # 2]) ;;
       run (H := exampleHost castFirst) [Shoot; Shoot] s).

(** Rays tested against the walls (the meshes created first, with
    identities below 12) meet the first wall at distance 1; rays tested
    against other meshes meet the second of them at distance 5. *)
Definition castBehindWall (_ : Ray.t) (objects : list Mesh.t)
  : list Intersection.t :=
  match objects with
  | [] => []
  | m :: rest =>
      if (Mesh.id m <? 12)%nat then [Intersection.mk 1 (Mesh.id m)]
      else
        match rest with
        | [] => []
        | m2 :: _ => [Intersection.mk 5 (Mesh.id m2)]
        end
  end.

(** How many passes of the [do ... while] of [spawnEnemies] the random
    numbers let exit: the pairs, taken two by two, that fall outside the
    square around the player's start. *)
Fixpoint acceptedPairs (tape : list Q) : nat :=
  match tape with
  | r1 :: r2 :: rest =>
      let x := (r1 - (1 # 2)) * 160 in
      let z := (r2 - (1 # 2)) * 160 in
      ((if Qltb (Qabs x) 20 && Qltb (Qabs z) 20 then 0 else 1) +
       acceptedPairs rest)%nat
  | _ => O
  end.

(** * Properties *)

(** Reduction of field accesses through the setters, leaving arithmetic
    as it is written. *)
Ltac fields :=
  cbn [camera playerHealth playerAmmo playerReserveAmmo isReloading
       moveForward moveBackward moveLeft moveRight canJump velocity
       direction euler isLocked enemies walls pending entropy nextId calls
       set_camera set_playerHealth set_playerAmmo set_playerReserveAmmo
       set_isReloading set_moveForward set_moveBackward set_moveLeft
       set_moveRight set_canJump set_velocity set_direction set_euler
       set_isLocked set_enemies set_walls set_pending set_entropy
       set_nextId set_calls emit].

Tactic Notation "fields" "in" hyp(X) :=
  cbn [camera playerHealth playerAmmo playerReserveAmmo isReloading
       moveForward moveBackward moveLeft moveRight canJump velocity
       direction euler isLocked enemies walls pending entropy nextId calls
       set_camera set_playerHealth set_playerAmmo set_playerReserveAmmo
       set_isReloading set_moveForward set_moveBackward set_moveLeft
       set_moveRight set_canJump set_velocity set_direction set_euler
       set_isLocked set_enemies set_walls set_pending set_entropy
       set_nextId set_calls emit] in X.


(** ** Comparisons and the option monad *)

Lemma Qltb_true (a b : Q) : Qltb a b = true <-> a < b.
Proof.
  unfold Qltb. rewrite negb_true_iff, <- not_true_iff_false, Qle_bool_iff.
  split; [apply Qnot_le_lt | apply Qlt_not_le].
Qed.

Lemma Qltb_false (a b : Q) : Qltb a b = false <-> b <= a.
Proof.
  unfold Qltb. rewrite negb_false_iff, Qle_bool_iff. reflexivity.
Qed.

Lemma bind_Some {A B : Type} (m : option A) (k : A -> option B) (b : B) :
  bind m k = Some b -> exists a, m = Some a /\ k a = Some b.
Proof. destruct m as [a|]; simpl; [eauto | discriminate]. Qed.

(** ** Frames: the fields a method can change

    Each lemma writes the final state as the initial one with the fields
    the method may assign overwritten; every other field is untouched. *)

Lemma Math_random_spec s r s' :
  Math_random s = Some (r, s') ->
  entropy s = r :: entropy s' /\ s' = set_entropy (entropy s') s.
Proof.
  unfold Math_random. destruct (entropy s) as [|r0 rest] eqn:E; [discriminate|].
  intros [= <- <-]. auto.
Qed.

Lemma spawnEnemies_frame n : forall s s',
  spawnEnemies n s = Some s' ->
  s' = set_enemies (enemies s')
         (set_entropy (entropy s') (set_nextId (nextId s') s)).
Proof.
  induction n as [|n IH]; simpl; intros s s' E.
  - injection E as <-. destruct s; reflexivity.
  - apply bind_Some in E. destruct E as [[[x z] rest] [_ E]].
    apply IH in E. rewrite E. destruct s; reflexivity.
Qed.

Lemma killEnemy_frame enemy s s' :
  killEnemy enemy s = Some s' ->
  s' = set_enemies (enemies s')
         (set_entropy (entropy s')
            (set_nextId (nextId s') (set_calls (calls s') s))).
Proof.
  unfold killEnemy. intros E.
  destruct (_ <? 5)%nat.
  - apply spawnEnemies_frame in E. rewrite E. destruct s; reflexivity.
  - injection E as <-. destruct s; reflexivity.
Qed.

Section Frames.
Context {H : Host}.

Lemma recoil_frame s s' :
  recoil s = Some s' ->
  s' = set_camera (camera s') (set_entropy (entropy s') s).
Proof.
  unfold recoil. intros E.
  apply bind_Some in E. destruct E as [[r1 s1] [E1 E]].
  apply bind_Some in E. destruct E as [[r2 s3] [E2 E]].
  apply Math_random_spec in E1. destruct E1 as [_ E1].
  apply Math_random_spec in E2. destruct E2 as [_ E2].
  injection E as <-. rewrite E2, E1. destruct s; reflexivity.
Qed.

Lemma shoot_frame s s' :
  shoot s = Some s' ->
  s' = set_camera (camera s')
         (set_playerAmmo (playerAmmo s')
            (set_enemies (enemies s')
               (set_entropy (entropy s')
                  (set_nextId (nextId s') (set_calls (calls s') s))))).
Proof.
  unfold shoot, resolveHit, fire. intros E.
  destruct (_ || _).
  - injection E as <-. destruct s; reflexivity.
  - apply bind_Some in E. destruct E as [s3 [E3 E]].
    apply recoil_frame in E. rewrite E.
    destruct (hitEnemy _) as [target|].
    + destruct (_ <=? 0)%Z.
      * apply killEnemy_frame in E3. rewrite E3. destruct s; reflexivity.
      * injection E3 as <-. destruct s; reflexivity.
    + injection E3 as <-. destruct s; reflexivity.
Qed.

Lemma updateEnemy_frame delta currentTime enemy s enemy' s' :
  updateEnemy delta currentTime enemy s = Some (enemy', s') ->
  s' = set_playerHealth (playerHealth s')
         (set_entropy (entropy s') (set_calls (calls s') s)).
Proof.
  unfold updateEnemy. intros E.
  apply bind_Some in E. destruct E as [[e1 s1] [E1 E]].
  assert (F1 : s1 = set_entropy (entropy s1) s).
  { unfold retarget in E1. destruct (Qltb 2 _).
    - apply bind_Some in E1. destruct E1 as [[r t1] [R1 E1]].
      apply Math_random_spec in R1. destruct R1 as [_ R1].
      destruct (Qltb _ r).
      + injection E1 as _ <-. exact R1.
      + apply bind_Some in E1. destruct E1 as [[rx t2] [R2 E1]].
        apply bind_Some in E1. destruct E1 as [[rz t3] [R3 E1]].
        apply Math_random_spec in R2. destruct R2 as [_ R2].
        apply Math_random_spec in R3. destruct R3 as [_ R3].
        injection E1 as _ <-. rewrite R3, R2, R1. destruct s; reflexivity.
    - injection E1 as _ <-. destruct s; reflexivity. }
  unfold shootAtPlayer in E.
  assert (F0 : s1 = set_playerHealth (playerHealth s1)
                      (set_entropy (entropy s1) (set_calls (calls s1) s))).
  { rewrite F1. destruct s; reflexivity. }
  destruct (shotDue _ _ _); [|injection E as _ <-; exact F0].
  match type of E with (if ?b then _ else _) = _ => destruct b end;
    [|injection E as _ <-; exact F0].
  apply bind_Some in E. destruct E as [[r t1] [R1 E]].
  apply Math_random_spec in R1. destruct R1 as [_ R1].
  destruct (Qltb _ r); injection E as _ <-.
  - unfold hitPlayer. cbn. destruct (_ <=? 0)%Z;
      rewrite R1, F1; destruct s; reflexivity.
  - rewrite R1, F1. destruct s; reflexivity.
Qed.
End Frames.

Section FrameOfFrame.
Context {H : Host}.

(** An enemy keeps its identity and its health through a frame. *)
Lemma updateEnemy_enemy delta currentTime enemy s enemy' s' :
  updateEnemy delta currentTime enemy s = Some (enemy', s') ->
  Enemy.ident enemy' = Enemy.ident enemy /\
  Enemy.health enemy' = Enemy.health enemy.
Proof.
  unfold updateEnemy. intros E.
  apply bind_Some in E. destruct E as [[e1 s1] [E1 E]].
  assert (K1 : Enemy.ident e1 = Enemy.ident enemy /\
               Enemy.health e1 = Enemy.health enemy).
  { unfold retarget in E1. destruct (Qltb 2 _).
    - apply bind_Some in E1. destruct E1 as [[r t1] [_ E1]].
      destruct (Qltb _ r).
      + injection E1 as <- _. auto.
      + apply bind_Some in E1. destruct E1 as [[rx t2] [_ E1]].
        apply bind_Some in E1. destruct E1 as [[rz t3] [_ E1]].
        injection E1 as <- _. auto.
    - injection E1 as <- _. auto. }
  assert (K2 : Enemy.ident (moveTowardsTarget delta e1) = Enemy.ident e1 /\
               Enemy.health (moveTowardsTarget delta e1) = Enemy.health e1).
  { unfold moveTowardsTarget. destruct (Qltb 2 _); auto. }
  destruct K1 as [<- <-], K2 as [<- <-].
  unfold shootAtPlayer in E.
  destruct (shotDue _ _ _); [|injection E as <- _; auto].
  match type of E with (if ?b then _ else _) = _ => destruct b end;
    [|injection E as <- _; auto].
  apply bind_Some in E. destruct E as [[r t1] [_ E]].
  destruct (Qltb _ r); injection E as <- _; auto.
Qed.

Lemma forEachEnemy_spec delta currentTime es : forall s es' s',
  forEachEnemy delta currentTime es s = Some (es', s') ->
  s' = set_playerHealth (playerHealth s')
         (set_entropy (entropy s') (set_calls (calls s') s)) /\
  map Enemy.ident es' = map Enemy.ident es /\
  map Enemy.health es' = map Enemy.health es.
Proof.
  induction es as [|enemy rest IH]; simpl; intros s es' s' E.
  - injection E as <- <-. split; [destruct s; reflexivity | auto].
  - apply bind_Some in E. destruct E as [[e1 s1] [E1 E]].
    apply bind_Some in E. destruct E as [[r2 s2] [E2 E]].
    injection E as <- <-.
    pose proof (updateEnemy_frame _ _ _ _ _ _ E1) as F1.
    apply updateEnemy_enemy in E1. destruct E1 as [I1 H1].
    apply IH in E2. destruct E2 as [F2 [I2 H2]].
    simpl. rewrite I1, H1, I2, H2. split; [|auto].
    rewrite F2, F1. destruct s; reflexivity.
Qed.

Lemma updateEnemies_spec delta currentTime s s' :
  updateEnemies delta currentTime s = Some s' ->
  s' = set_playerHealth (playerHealth s')
         (set_enemies (enemies s')
            (set_entropy (entropy s') (set_calls (calls s') s))) /\
  map Enemy.ident (enemies s') = map Enemy.ident (enemies s) /\
  map Enemy.health (enemies s') = map Enemy.health (enemies s).
Proof.
  unfold updateEnemies. intros E.
  apply bind_Some in E. destruct E as [[es s1] [E1 E]].
  injection E as <-. apply forEachEnemy_spec in E1.
  destruct E1 as [F [I Hh]]. split; [|auto].
  rewrite F. destruct s; reflexivity.
Qed.

Lemma player_frame_trans s s1 s2 :
  player_frame s s1 -> player_frame s1 s2 -> player_frame s s2.
Proof.
  unfold player_frame. intros E1 E2. rewrite E2.
  generalize (camera s2) (velocity s2) (direction s2) (canJump s2).
  rewrite E1.
  generalize (camera s1) (velocity s1) (direction s1) (canJump s1).
  intros. destruct s; reflexivity.
Qed.

Lemma accelerate_frame delta s : player_frame s (accelerate delta s).
Proof.
  unfold player_frame, accelerate.
  match goal with
  | |- set_direction ?d (set_velocity ?v s) = _ => generalize d v
  end.
  intros. destruct s; reflexivity.
Qed.

Lemma integrate_frame delta s : player_frame s (integrate delta s).
Proof.
  unfold player_frame, integrate.
  match goal with |- set_camera ?c s = _ => generalize c end.
  intros. destruct s; reflexivity.
Qed.

Lemma collideWalls_frame box prev ws s :
  player_frame s (collideWalls box prev ws s).
Proof.
  induction ws as [|w ws IH]; simpl.
  - destruct s; reflexivity.
  - destruct (Box3.intersectsBox _ _); [destruct s; reflexivity | exact IH].
Qed.

Lemma groundCollision_frame s : player_frame s (groundCollision s).
Proof.
  unfold groundCollision.
  destruct (Qltb _ 10); destruct s; reflexivity.
Qed.

Lemma arenaBounds_frame s : player_frame s (arenaBounds s).
Proof.
  unfold player_frame, arenaBounds.
  match goal with |- set_camera ?c s = _ => generalize c end.
  intros. destruct s; reflexivity.
Qed.

Lemma updatePlayer_frame delta s : player_frame s (updatePlayer delta s).
Proof.
  unfold updatePlayer.
  eapply player_frame_trans; [|apply arenaBounds_frame].
  eapply player_frame_trans; [|apply groundCollision_frame].
  eapply player_frame_trans; [|apply collideWalls_frame].
  eapply player_frame_trans; [|apply integrate_frame].
  apply accelerate_frame.
Qed.
End FrameOfFrame.

(** ** Ammunition *)

Lemma ammo_ok_view s s' : ammoView s' = ammoView s -> ammo_ok s -> ammo_ok s'.
Proof.
  unfold ammoView, ammo_ok. intros [= -> -> -> ->]. auto.
Qed.

Lemma reload_ammo_ok s : ammo_ok s -> ammo_ok (reload s).
Proof.
  unfold reload, ammo_ok. intros (Ha & Hr & Hs & Hp).
  destruct (isReloading s) eqn:R; simpl; [rewrite R; auto|].
  destruct (playerAmmo s =? 30)%Z eqn:F; [rewrite R; auto|].
  cbn. destruct (pending s) as [|t [|t' rest]]; cbn; try tauto.
  destruct Hp; discriminate.
Qed.

Lemma timeout_ammo_ok s : ammo_ok s -> ammo_ok (timeout s).
Proof.
  unfold timeout, ammo_ok. intros (Ha & Hr & Hs & Hp).
  destruct (pending s) as [|t [|t' rest]] eqn:P.
  - rewrite P. auto.
  - destruct Hp as [_ Ht]. cbn. rewrite Ht. lia.
  - tauto.
Qed.

Section Ammunition.
Context {H : Host}.

Lemma shoot_ammoView s s' :
  shoot s = Some s' ->
  ammoView s' =
  (if (playerAmmo s <=? 0)%Z || isReloading s
   then playerAmmo s else (playerAmmo s - 1)%Z,
   playerReserveAmmo s, isReloading s, pending s).
Proof.
  intros E. pose proof (shoot_frame _ _ E) as F.
  unfold ammoView.
  rewrite (f_equal playerReserveAmmo F), (f_equal isReloading F),
    (f_equal pending F). cbn.
  do 3 f_equal. clear F. unfold shoot, resolveHit, fire in E.
  destruct (_ || _); [injection E as <-; reflexivity|].
  apply bind_Some in E. destruct E as [s3 [E3 E]].
  apply recoil_frame in E. rewrite (f_equal playerAmmo E). cbn. clear E.
  destruct (hitEnemy _) as [target|]; [|injection E3 as <-; reflexivity].
  destruct (_ <=? 0)%Z; [|injection E3 as <-; reflexivity].
  apply killEnemy_frame in E3. rewrite (f_equal playerAmmo E3). reflexivity.
Qed.

Lemma shoot_ammo_ok s s' : shoot s = Some s' -> ammo_ok s -> ammo_ok s'.
Proof.
  intros E. apply shoot_ammoView in E. injection E as E1 E2 E3 E4.
  unfold ammo_ok. rewrite E1, E2, E3, E4. intros (Ha & Hr & Hs & Hp).
  destruct (playerAmmo s <=? 0)%Z eqn:A; simpl; [tauto|].
  apply Z.leb_gt in A.
  destruct (isReloading s) eqn:R; [tauto|].
  destruct (pending s) as [|t [|t' rest]]; [| destruct Hp; discriminate | tauto].
  repeat split; lia.
Qed.

Lemma updateEnemies_ammoView delta currentTime s s' :
  updateEnemies delta currentTime s = Some s' -> ammoView s' = ammoView s.
Proof.
  intros E. apply updateEnemies_spec in E. destruct E as [F _].
  unfold ammoView.
  rewrite (f_equal playerAmmo F), (f_equal playerReserveAmmo F),
    (f_equal isReloading F), (f_equal pending F). reflexivity.
Qed.

Lemma updatePlayer_ammoView delta s :
  ammoView (updatePlayer delta s) = ammoView s.
Proof.
  pose proof (updatePlayer_frame delta s) as F. unfold player_frame in F.
  unfold ammoView.
  rewrite (f_equal playerAmmo F), (f_equal playerReserveAmmo F),
    (f_equal isReloading F), (f_equal pending F). reflexivity.
Qed.

Lemma step_ammo_ok op s s' : step op s = Some s' -> ammo_ok s -> ammo_ok s'.
Proof.
  destruct op; simpl; intros E.
  - injection E as <-. destruct code; simpl;
      try (apply ammo_ok_view; reflexivity); try apply reload_ammo_ok.
    apply ammo_ok_view. destruct (canJump s); reflexivity.
  - injection E as <-. destruct code; simpl; apply ammo_ok_view; reflexivity.
  - injection E as <-. apply ammo_ok_view. unfold onMouseMove.
    destruct (negb _); reflexivity.
  - unfold onMouseDown in E. destruct (_ || _).
    + injection E as <-. auto.
    + eapply shoot_ammo_ok; eauto.
  - injection E as <-. apply ammo_ok_view. reflexivity.
  - injection E as <-. apply timeout_ammo_ok.
  - unfold animate in E. destruct (negb _).
    + injection E as <-. auto.
    + apply updateEnemies_ammoView in E. apply ammo_ok_view.
      rewrite E. apply updatePlayer_ammoView.
  - eapply shoot_ammo_ok; eauto.
  - injection E as <-. apply reload_ammo_ok.
  - injection E as <-. apply ammo_ok_view. apply updatePlayer_ammoView.
  - apply updateEnemies_ammoView in E. apply ammo_ok_view. exact E.
Qed.
End Ammunition.

(** ** The state after construction *)

Lemma constructor_unfold tape :
  constructor tape = spawnEnemies 5 (createCover (createArena (fresh tape))).
Proof. reflexivity. Qed.

Lemma constructor_fields tape s :
  constructor tape = Some s ->
  camera s = Camera.mk (Vector3.mk 0 10 0) Quaternion.identity (Euler.mk 0 0 0)
  /\ playerHealth s = 100%Z
  /\ ammoView s = (30%Z, 90%Z, false, [])
  /\ calls s = []
  /\ walls s = walls (createCover (createArena (fresh tape))).
Proof.
  rewrite constructor_unfold. intros E. apply spawnEnemies_frame in E.
  unfold ammoView.
  rewrite (f_equal camera E), (f_equal playerHealth E),
    (f_equal playerAmmo E), (f_equal playerReserveAmmo E),
    (f_equal isReloading E), (f_equal pending E), (f_equal calls E),
    (f_equal walls E).
  vm_compute. repeat split.
Qed.

Section Reachability.
Context {H : Host}.

Lemma run_reachable ops : forall s s',
  reachable s -> run ops s = Some s' -> reachable s'.
Proof.
  induction ops as [|op ops IH]; simpl; intros s s' R E.
  - injection E as <-. exact R.
  - apply bind_Some in E. destruct E as [s1 [E1 E]].
    eapply IH; [|exact E]. eapply reachable_step; eauto.
Qed.

Lemma constructed_run_reachable tape ops s :
  (s0 <- constructor tape ;; run ops s0) = Some s -> reachable s.
Proof.
  intros E. apply bind_Some in E. destruct E as [s0 [E0 E]].
  eapply run_reachable; [|exact E]. eapply reachable_new; eauto.
Qed.

Lemma reachable_ammo_ok s : reachable s -> ammo_ok s.
Proof.
  induction 1 as [tape s E | op s s' _ IH E].
  - apply constructor_fields in E. destruct E as (_ & _ & E & _).
    injection E as E1 E2 E3 E4. unfold ammo_ok.
    rewrite E1, E2, E3, E4. repeat split; lia.
  - eapply step_ammo_ok; eauto.
Qed.
End Reachability.

(** C1.  In every state an engine can reach, magazine and reserve are not
    negative and together hold at most the 120 rounds of the start; and
    when a scheduled reload completes it moves exactly
    [min (30 - magazine) reserve] rounds from the reserve to the magazine,
    so the sum is the same before and after. *)
Theorem ammo_conserved {H : Host} (s : GameEngine) :
  reachable s ->
  (0 <= playerAmmo s)%Z /\
  (0 <= playerReserveAmmo s)%Z /\
  (playerAmmo s + playerReserveAmmo s <= 120)%Z /\
  (pending s <> [] ->
   let moved := Z.min (30 - playerAmmo s) (playerReserveAmmo s) in
   playerAmmo (timeout s) = (playerAmmo s + moved)%Z /\
   playerReserveAmmo (timeout s) = (playerReserveAmmo s - moved)%Z /\
   (playerAmmo (timeout s) + playerReserveAmmo (timeout s) =
    playerAmmo s + playerReserveAmmo s)%Z).
Proof.
  intros R. apply reachable_ammo_ok in R.
  destruct R as (Ha & Hr & Hs & Hp).
  split; [lia|]. split; [lia|]. split; [lia|].
  intros P moved. subst moved. unfold timeout.
  destruct (pending s) as [|t [|t' rest]]; [congruence | | tauto].
  destruct Hp as [_ Ht]. unfold reloadDone. fields. rewrite Ht. lia.
Qed.

Lemma ammo_conserved_witness :
  reachable (H := exampleHost castNothing) reloadingEngine /\
  pending reloadingEngine <> [] /\
  playerAmmo (timeout reloadingEngine) = 30%Z /\
  playerReserveAmmo (timeout reloadingEngine) = 89%Z.
Proof.
  assert (R : reachable (H := exampleHost castNothing) reloadingEngine).
  { apply (constructed_run_reachable (spawnTape ++ [1 # 2; 1 # 2])
             [Shoot; Reload]).
    vm_compute. reflexivity. }
  assert (P : pending reloadingEngine <> []).
  { vm_compute. discriminate. }
  split; [exact R|]. split; [exact P|].
  destruct (ammo_conserved reloadingEngine R) as (_ & _ & _ & M).
  destruct (M P) as (Ma & Mr & _).
  split; [rewrite Ma | rewrite Mr]; vm_compute; reflexivity.
Defined.

(** ** Refused actions *)

Lemma shoot_blocked {H : Host} s :
  (playerAmmo s <= 0)%Z \/ isReloading s = true -> shoot s = Some s.
Proof.
  intros B. unfold shoot.
  destruct B as [B | ->]; [|rewrite orb_true_r; reflexivity].
  apply Z.leb_le in B. rewrite B. reflexivity.
Qed.

Lemma reload_blocked s :
  isReloading s = true \/ playerAmmo s = 30%Z -> reload s = s.
Proof.
  intros B. unfold reload.
  destruct B as [-> | ->]; [|rewrite orb_true_r]; reflexivity.
Qed.

(** C4.  [shoot] with an empty magazine or during a reload, and [reload]
    during a reload or with a full magazine, return the state they were
    given: no field of the engine changes, no callback is invoked and no
    random number is drawn. *)
Theorem misuse_is_noop {H : Host} (s : GameEngine) :
  ((playerAmmo s <= 0)%Z \/ isReloading s = true -> shoot s = Some s) /\
  (isReloading s = true \/ playerAmmo s = 30%Z -> reload s = s).
Proof.
  split; [apply shoot_blocked | apply reload_blocked].
Qed.

Lemma misuse_is_noop_witness :
  isReloading reloadingEngine = true /\
  shoot (H := exampleHost castNothing) reloadingEngine = Some reloadingEngine /\
  reload reloadingEngine = reloadingEngine.
Proof.
  assert (R : isReloading reloadingEngine = true) by (vm_compute; reflexivity).
  destruct (misuse_is_noop (H := exampleHost castNothing) reloadingEngine)
    as [S L].
  split; [exact R|]. split; [apply S; right | apply L; left]; exact R.
Defined.

(** C10.  With a magazine below 30, an empty reserve and no reload under
    way, [reload] is not a no-op: it sets [isReloading] and schedules the
    callback with the delay of 1500 ms and 0 rounds to move; until that
    callback runs [shoot] and [reload] do nothing; and when it runs the
    magazine and the reserve are what they were and the flag is cleared. *)
Theorem reload_with_empty_reserve {H : Host} (s : GameEngine) :
  reachable s ->
  isReloading s = false ->
  (playerAmmo s < 30)%Z ->
  playerReserveAmmo s = 0%Z ->
  let s1 := reload s in
  s1 <> s /\
  isReloading s1 = true /\
  pending s1 = [Timer.mk 1500 0] /\
  shoot s1 = Some s1 /\
  reload s1 = s1 /\
  let s2 := timeout s1 in
  playerAmmo s2 = playerAmmo s /\
  playerReserveAmmo s2 = 0%Z /\
  isReloading s2 = false /\
  pending s2 = [].
Proof.
  intros R F A Z0 s1.
  apply reachable_ammo_ok in R. destruct R as (Ha & _ & _ & Hp).
  assert (P : pending s = []).
  { destruct (pending s) as [|t [|t' rest]]; [reflexivity | | tauto].
    destruct Hp as [Hp _]. congruence. }
  assert (E : s1 = set_pending [Timer.mk 1500 0] (set_isReloading true s)).
  { subst s1. unfold reload. rewrite F.
    replace (playerAmmo s =? 30)%Z with false by (symmetry; apply Z.eqb_neq; lia).
    cbv zeta. fields. rewrite P, Z0.
    replace (Z.min (30 - playerAmmo s) 0) with 0%Z by lia. reflexivity. }
  assert (R1 : isReloading s1 = true) by (rewrite E; reflexivity).
  split; [intros C; rewrite C in R1; congruence|].
  split; [exact R1|].
  split; [rewrite E; reflexivity|].
  split; [apply shoot_blocked; auto|].
  split; [apply reload_blocked; auto|].
  rewrite E. unfold timeout, reloadDone. fields. cbn [Timer.toReload].
  repeat split; try reflexivity; lia.
Qed.

Lemma reload_with_empty_reserve_witness :
  reachable (H := exampleHost castNothing) drainedEngine /\
  playerAmmo drainedEngine = 29%Z /\
  playerReserveAmmo drainedEngine = 0%Z /\
  isReloading (reload drainedEngine) = true /\
  playerAmmo (timeout (reload drainedEngine)) = 29%Z.
Proof.
  assert (R : reachable (H := exampleHost castNothing) drainedEngine).
  { apply (constructed_run_reachable (spawnTape ++ repeat (1 # 2) 182)
             (concat (repeat (repeat Shoot 30 ++ [Reload; Timeout]) 3)
              ++ [Shoot])).
    vm_compute. reflexivity. }
  assert (F : isReloading drainedEngine = false) by (vm_compute; reflexivity).
  assert (A : (playerAmmo drainedEngine < 30)%Z) by (vm_compute; reflexivity).
  assert (Z0 : playerReserveAmmo drainedEngine = 0%Z)
    by (vm_compute; reflexivity).
  destruct (reload_with_empty_reserve drainedEngine R F A Z0)
    as (_ & W1 & _ & _ & _ & W2 & _).
  split; [exact R|]. split; [vm_compute; reflexivity|].
  split; [exact Z0|]. split; [exact W1|].
  rewrite W2. vm_compute. reflexivity.
Defined.

(** ** Player movement *)

Lemma clamp_bounds (x : Q) :
  -95 <= Math_max (-95) (Math_min 95 x) <= 95.
Proof.
  unfold Math_max, Math_min.
  destruct (Qltb 95 x) eqn:A.
  - replace (Qltb 95 (-95)) with false by reflexivity. split; discriminate.
  - apply Qltb_false in A. destruct (Qltb x (-95)) eqn:B.
    + split; [apply Qle_refl | discriminate].
    + apply Qltb_false in B. auto.
Qed.

Lemma clamp_inside (x : Q) :
  -95 <= x <= 95 -> Math_max (-95) (Math_min 95 x) = x.
Proof.
  intros [L U]. unfold Math_max, Math_min.
  replace (Qltb 95 x) with false by (symmetry; apply Qltb_false; exact U).
  replace (Qltb x (-95)) with false by (symmetry; apply Qltb_false; exact L).
  reflexivity.
Qed.

Section PlayerMovement.
Context {H : Host}.

Lemma groundCollision_position s :
  10 <= Vector3.y (Camera.position (camera (groundCollision s))) /\
  Vector3.x (Camera.position (camera (groundCollision s))) =
  Vector3.x (Camera.position (camera s)) /\
  Vector3.z (Camera.position (camera (groundCollision s))) =
  Vector3.z (Camera.position (camera s)).
Proof.
  unfold groundCollision.
  destruct (Qltb _ 10) eqn:G.
  - fields. cbn. repeat split. apply Qle_refl.
  - apply Qltb_false in G. auto.
Qed.

Lemma updatePlayer_position_ok delta s :
  position_ok (Camera.position (camera (updatePlayer delta s))).
Proof.
  unfold updatePlayer, position_ok.
  set (s3 := collideWalls _ _ _ _).
  destruct (groundCollision_position s3) as (Y & _ & _).
  unfold arenaBounds. fields. cbn [Camera.position Camera.set_position
    Vector3.x Vector3.y Vector3.z Vector3.set_x Vector3.set_z].
  split; [exact Y|]. split; apply clamp_bounds.
Qed.

Lemma recoil_position s s' :
  recoil s = Some s' ->
  Camera.position (camera s') = Camera.position (camera s).
Proof.
  unfold recoil. intros E.
  apply bind_Some in E. destruct E as [[r1 s1] [E1 E]].
  apply bind_Some in E. destruct E as [[r2 s3] [E2 E]].
  apply Math_random_spec in E1. destruct E1 as [_ E1].
  apply Math_random_spec in E2. destruct E2 as [_ E2].
  injection E as <-. rewrite E2, E1. reflexivity.
Qed.

Lemma shoot_position s s' :
  shoot s = Some s' ->
  Camera.position (camera s') = Camera.position (camera s).
Proof.
  unfold shoot, resolveHit, fire. intros E.
  destruct (_ || _); [injection E as <-; reflexivity|].
  apply bind_Some in E. destruct E as [s3 [E3 E]].
  apply recoil_position in E. rewrite E. clear E.
  destruct (hitEnemy _) as [target|]; [|injection E3 as <-; reflexivity].
  destruct (_ <=? 0)%Z; [|injection E3 as <-; reflexivity].
  apply killEnemy_frame in E3. rewrite (f_equal camera E3). reflexivity.
Qed.

Lemma step_position_ok op s s' :
  step op s = Some s' ->
  position_ok (Camera.position (camera s)) ->
  position_ok (Camera.position (camera s')).
Proof.
  destruct op; simpl; intros E.
  - injection E as <-. destruct code; simpl; auto.
    + destruct (canJump s); auto.
    + unfold reload. destruct (_ || _); auto.
  - injection E as <-. destruct code; auto.
  - injection E as <-. unfold onMouseMove. destruct (negb _); auto.
  - unfold onMouseDown in E. destruct (_ || _).
    + injection E as <-. auto.
    + apply shoot_position in E. rewrite E. auto.
  - injection E as <-. auto.
  - injection E as <-. unfold timeout. destruct (pending s); auto.
  - unfold animate in E. destruct (negb _).
    + injection E as <-. auto.
    + remember (updatePlayer delta s) as u eqn:U.
      apply updateEnemies_spec in E. destruct E as [F _].
      rewrite (f_equal camera F). fields. intros _. rewrite U.
      apply updatePlayer_position_ok.
  - apply shoot_position in E. rewrite E. auto.
  - injection E as <-. unfold reload. destruct (_ || _); auto.
  - injection E as <-. intros _. apply updatePlayer_position_ok.
  - apply updateEnemies_spec in E. destruct E as [F _].
    rewrite (f_equal camera F). fields. auto.
Qed.

Lemma reachable_position_ok s :
  reachable s -> position_ok (Camera.position (camera s)).
Proof.
  induction 1 as [tape s E | op s s' _ IH E].
  - apply constructor_fields in E. destruct E as (E & _). rewrite E.
    unfold position_ok. cbn. repeat split; discriminate.
  - eapply step_position_ok; eauto.
Qed.

(** When some wall meets the box, the loop leaves the saved position in
    the camera and zeroes the two horizontal components of the velocity. *)
Lemma collideWalls_hit box prev ws s :
  existsb (fun wall => Box3.intersectsBox box (Mesh.box wall)) ws = true ->
  Camera.position (camera (collideWalls box prev ws s)) = prev /\
  Vector3.x (velocity (collideWalls box prev ws s)) = 0 /\
  Vector3.z (velocity (collideWalls box prev ws s)) = 0.
Proof.
  induction ws as [|w ws IH]; simpl; [discriminate|].
  destruct (Box3.intersectsBox box (Mesh.box w)); simpl; auto.
Qed.

Lemma wouldCollide_spec delta s :
  wouldCollide delta s = true <->
  exists wall,
    In wall (walls s) /\
    Box3.intersectsBox
      (playerBox (integrate delta (accelerate delta s))) (Mesh.box wall) = true.
Proof. unfold wouldCollide. apply existsb_exists. Qed.

End PlayerMovement.

(** C2.  In a state the engine can reach, if the box around the position
    integrated over one frame meets a wall, then after [updatePlayer] the
    camera is exactly where it was before the frame and the horizontal
    components of the velocity are 0. *)
Theorem collision_rollback {H : Host} (s : GameEngine) (delta : Q) :
  reachable s ->
  wouldCollide delta s = true ->
  Camera.position (camera (updatePlayer delta s)) = Camera.position (camera s)
  /\ Vector3.x (velocity (updatePlayer delta s)) = 0
  /\ Vector3.z (velocity (updatePlayer delta s)) = 0.
Proof.
  intros R C. apply reachable_position_ok in R.
  unfold wouldCollide in C. unfold updatePlayer.
  assert (P1 : Camera.position (camera (accelerate delta s)) =
               Camera.position (camera s)).
  { rewrite (f_equal camera (accelerate_frame delta s)) at 1.
    unfold accelerate. fields. reflexivity. }
  rewrite P1.
  assert (W : walls (integrate delta (accelerate delta s)) = walls s).
  { rewrite (f_equal walls (integrate_frame delta (accelerate delta s))).
    fields. rewrite (f_equal walls (accelerate_frame delta s)). reflexivity. }
  rewrite W.
  remember (integrate delta (accelerate delta s)) as s2 eqn:E2.
  destruct (collideWalls_hit (playerBox s2) (Camera.position (camera s))
              (walls s) s2 C) as (Hp & Hx & Hz).
  remember (collideWalls (playerBox s2) (Camera.position (camera s))
              (walls s) s2) as s3 eqn:E3.
  clear E2 E3 C W P1.
  destruct R as (Y & X & Z).
  assert (G : groundCollision s3 = s3).
  { unfold groundCollision. rewrite Hp.
    replace (Qltb (Vector3.y (Camera.position (camera s))) 10) with false
      by (symmetry; apply Qltb_false; exact Y).
    reflexivity. }
  rewrite G. unfold arenaBounds. fields.
  cbn [Camera.position Camera.set_position Vector3.x Vector3.y Vector3.z
       Vector3.set_x Vector3.set_z].
  rewrite Hp, (clamp_inside _ X), (clamp_inside _ Z).
  split; [destruct (Camera.position (camera s)); reflexivity | auto].
Qed.

Lemma collision_rollback_witness :
  reachable (H := exampleHost castNothing) walkingEngine /\
  wouldCollide (H := exampleHost castNothing) (1 # 3) walkingEngine = true /\
  Camera.position
    (camera (updatePlayer (H := exampleHost castNothing) (1 # 3) walkingEngine))
  = Camera.position (camera walkingEngine).
Proof.
  assert (R : reachable (H := exampleHost castNothing) walkingEngine).
  { apply (constructed_run_reachable spawnTape
             [KeyDown KeyW; UpdatePlayer (1 # 3); UpdatePlayer (1 # 3)]).
    vm_compute. reflexivity. }
  assert (C : wouldCollide (H := exampleHost castNothing) (1 # 3)
                walkingEngine = true) by (vm_compute; reflexivity).
  split; [exact R|]. split; [exact C|].
  exact (proj1 (collision_rollback walkingEngine (1 # 3) R C)).
Defined.

(** ** Spawning and shooting *)

Lemma spawnPosition_outside tape x z rest :
  spawnPosition tape = Some (x, z, rest) ->
  ~ (Qabs x < 20 /\ Qabs z < 20).
Proof.
  assert (G : forall n tape, (length tape <= n)%nat ->
            spawnPosition tape = Some (x, z, rest) ->
            ~ (Qabs x < 20 /\ Qabs z < 20)).
  { induction n as [|n IH]; intros [|r1 [|r2 tape']] L E;
      try discriminate; simpl in L; try lia.
    cbn [spawnPosition] in E. cbv zeta in E.
    destruct (_ && _) eqn:B.
    - apply (IH tape'); [lia | exact E].
    - injection E as <- <- _. intros [A1 A2].
      apply Qltb_true in A1, A2. rewrite A1, A2 in B. discriminate. }
  apply (G (length tape)). lia.
Qed.

Lemma spawnEnemies_one s s' :
  spawnEnemies 1 s = Some s' ->
  exists x z,
    ~ (Qabs x < 20 /\ Qabs z < 20) /\
    enemies s' = enemies s ++ [spawned (nextId s) x z] /\
    nextId s' = S (nextId s) /\
    calls s' = calls s.
Proof.
  simpl. intros E.
  apply bind_Some in E. destruct E as [[[x z] rest] [P E]].
  fields in P. apply spawnPosition_outside in P.
  injection E as <-. exists x, z. fields. auto.
Qed.

Lemma spawnEnemies_many n : forall s s',
  spawnEnemies n s = Some s' ->
  exists new,
    enemies s' = enemies s ++ new /\
    map Enemy.ident new = seq (nextId s) n /\
    Forall (fun e => Enemy.health e = 100%Z) new /\
    nextId s' = (nextId s + n)%nat.
Proof.
  induction n as [|n IH]; intros s s' E.
  - injection E as <-. exists []. rewrite app_nil_r, Nat.add_0_r. auto.
  - simpl in E. apply bind_Some in E. destruct E as [[[x z] rest] [_ E]].
    apply IH in E. fields in E. destruct E as (new & E1 & E2 & E3 & E4).
    exists (spawned (nextId s) x z :: new).
    rewrite E1, <- app_assoc, E4. simpl. rewrite E2.
    repeat split; [constructor; auto | lia].
Qed.

Section Shooting.
Context {H : Host}.

Lemma hitEnemy_found s enemy :
  hitEnemy s = Some enemy -> In enemy (enemies s).
Proof.
  unfold hitEnemy. destruct (Raycaster_intersectObjects _ _); [discriminate|].
  intros E. apply find_some in E. tauto.
Qed.

Lemma recoil_game s s' :
  recoil s = Some s' ->
  enemies s' = enemies s /\ nextId s' = nextId s /\ calls s' = calls s /\
  playerHealth s' = playerHealth s.
Proof.
  intros E. apply recoil_frame in E. rewrite E. auto.
Qed.

(** The effect of [shoot] on the game objects, by outcome. *)
Lemma shoot_outcome s s' :
  shoot s = Some s' ->
  match shotOutcome s with
  | Blocked => s' = s
  | Miss =>
      calls s' = onAmmoChange (playerAmmo s - 1) :: calls s /\
      enemies s' = enemies s /\
      nextId s' = nextId s
  | Wound enemy =>
      calls s' = onHit :: onAmmoChange (playerAmmo s - 1) :: calls s /\
      enemies s' = afterHit enemy (enemies s) /\
      nextId s' = nextId s
  | Kill enemy =>
      calls s' =
        onKill :: onHit :: onAmmoChange (playerAmmo s - 1) :: calls s /\
      if (length (survivors enemy (enemies s)) <? 5)%nat then
        nextId s' = S (nextId s) /\
        exists x z,
          ~ (Qabs x < 20 /\ Qabs z < 20) /\
          enemies s' =
            survivors enemy (enemies s) ++ [spawned (nextId s) x z]
      else
        nextId s' = nextId s /\
        enemies s' = survivors enemy (enemies s)
  end.
Proof.
  unfold shoot, resolveHit, fire, shotOutcome. intros E.
  destruct (_ || _); [injection E as <-; reflexivity|].
  apply bind_Some in E. destruct E as [s3 [E3 E]].
  apply recoil_game in E. destruct E as (Re & Rn & Rc & _).
  change (hitEnemy (emit (onAmmoChange (playerAmmo (set_playerAmmo
            (playerAmmo s - 1)%Z s))) (set_playerAmmo (playerAmmo s - 1)%Z s)))
    with (hitEnemy s) in E3.
  destruct (hitEnemy s) as [enemy|];
    [|injection E3 as <-; rewrite Re, Rn, Rc; fields; auto].
  change (Enemy.health (Enemy.set_health enemy (Enemy.health enemy - 34)%Z))
    with (Enemy.health enemy - 34)%Z in E3.
  destruct (_ <=? 0)%Z;
    [|injection E3 as <-; rewrite Re, Rn, Rc; fields; auto].
  unfold killEnemy in E3. fields in E3.
  change (filter _ _) with (survivors enemy (enemies s)) in E3.
  destruct (_ <? 5)%nat.
  - apply spawnEnemies_one in E3. fields in E3.
    destruct E3 as (x & z & O & E1 & E2 & E4).
    rewrite Rc, Rn, E4, E2. split; [reflexivity|]. split; [reflexivity|].
    exists x, z. rewrite Re. auto.
  - injection E3 as <-. rewrite Re, Rn, Rc. fields. auto.
Qed.

End Shooting.

(** ** The three kinds of step *)

Lemma quiet_refl s : quiet s s.
Proof. unfold quiet. auto 8. Qed.

Section Steps.
Context {H : Host}.

Lemma updatePlayer_quiet delta s : quiet s (updatePlayer delta s).
Proof.
  pose proof (updatePlayer_frame delta s) as F. unfold player_frame in F.
  unfold quiet.
  rewrite (f_equal enemies F), (f_equal nextId F), (f_equal playerHealth F),
    (f_equal walls F), (f_equal calls F).
  fields. auto 8.
Qed.

Lemma reload_quiet s : quiet s (reload s).
Proof.
  unfold reload. destruct (_ || _); [apply quiet_refl|].
  unfold quiet. fields. auto 8.
Qed.

Lemma timeout_quiet s : quiet s (timeout s).
Proof.
  unfold timeout. destruct (pending s); [apply quiet_refl|].
  unfold quiet, reloadDone. fields. eauto 8.
Qed.

(** Every step is quiet, or a call of [shoot], or a call of
    [updateEnemies] after a quiet change. *)
Lemma step_cases op s s' :
  step op s = Some s' ->
  quiet s s' \/
  shoot s = Some s' \/
  exists delta currentTime s1,
    quiet s s1 /\ updateEnemies delta currentTime s1 = Some s'.
Proof.
  destruct op; simpl; intros E.
  - left. injection E as <-. destruct code; simpl;
      try apply reload_quiet; try (unfold quiet; fields; auto 8; fail).
    destruct (canJump s); unfold quiet; fields; auto 8.
  - left. injection E as <-.
    destruct code; simpl; unfold quiet; fields; auto 8.
  - left. injection E as <-. unfold onMouseMove.
    destruct (negb _); unfold quiet; fields; auto 8.
  - unfold onMouseDown in E. destruct (_ || _); [left | auto].
    injection E as <-. apply quiet_refl.
  - left. injection E as <-. unfold quiet. simpl. auto 8.
  - left. injection E as <-. apply timeout_quiet.
  - unfold animate in E. destruct (negb _).
    + left. injection E as <-. apply quiet_refl.
    + right. right. exists delta, currentTime, (updatePlayer delta s).
      split; [apply updatePlayer_quiet | exact E].
  - auto.
  - left. injection E as <-. apply reload_quiet.
  - left. injection E as <-. apply updatePlayer_quiet.
  - right. right. exists delta, currentTime, s.
    split; [apply quiet_refl | exact E].
Qed.

End Steps.

(** ** The enemy array *)

Lemma same_damaged a enemy :
  Enemy.same a (damaged enemy) = Nat.eqb (Enemy.ident a) (Enemy.ident enemy).
Proof. reflexivity. Qed.

Lemma survivors_filter enemy es :
  survivors enemy es =
  filter (fun a => negb (Nat.eqb (Enemy.ident a) (Enemy.ident enemy))) es.
Proof.
  unfold survivors, afterHit.
  induction es as [|a es IH]; [reflexivity|].
  cbn [assign_first].
  destruct (Enemy.same enemy a) eqn:E; unfold Enemy.same in E;
    rewrite Nat.eqb_sym in E; cbn [filter]; rewrite same_damaged.
  - rewrite Nat.eqb_refl, E. reflexivity.
  - rewrite E. cbn [negb]. f_equal. exact IH.
Qed.

Lemma afterHit_idents enemy es :
  map Enemy.ident (afterHit enemy es) = map Enemy.ident es.
Proof.
  unfold afterHit. induction es as [|a es IH]; [reflexivity|].
  cbn [assign_first]. unfold Enemy.same at 1.
  destruct (Nat.eqb (Enemy.ident enemy) (Enemy.ident a)) eqn:E.
  - apply Nat.eqb_eq in E. cbn [map]. f_equal. rewrite <- E. reflexivity.
  - cbn [map]. f_equal. exact IH.
Qed.

Lemma afterHit_healths enemy es (P : Z -> Prop) :
  P (Enemy.health enemy - 34)%Z ->
  Forall P (map Enemy.health es) ->
  Forall P (map Enemy.health (afterHit enemy es)).
Proof.
  intros Pe. unfold afterHit. induction es as [|a es IH]; [auto|].
  cbn [assign_first map]. intros F. inversion F as [|h hs Ph Phs]; subst.
  destruct (Enemy.same enemy a); cbn [map]; constructor; auto.
Qed.

Lemma filter_idents (m : nat) es :
  map Enemy.ident (filter (fun a => negb (Nat.eqb (Enemy.ident a) m)) es) =
  filter (fun i => negb (Nat.eqb i m)) (map Enemy.ident es).
Proof.
  induction es as [|a es IH]; [reflexivity|].
  cbn [filter map]. destruct (negb _); cbn [map]; rewrite IH; reflexivity.
Qed.

(** Removing the one occurrence of a member of a duplicate-free list. *)
Lemma filter_out_length (m : nat) (l : list nat) :
  NoDup l -> In m l ->
  S (length (filter (fun i => negb (Nat.eqb i m)) l)) = length l.
Proof.
  induction 1 as [|a l Na Nl IH]; [intros []|].
  cbn [filter length]. intros [-> | I].
  - rewrite Nat.eqb_refl. cbn [negb]. f_equal.
    clear IH Nl. induction l as [|b l IHl]; [reflexivity|].
    cbn [filter]. destruct (Nat.eqb b m) eqn:E.
    + apply Nat.eqb_eq in E. subst. exfalso. apply Na. left. reflexivity.
    + cbn [negb length]. f_equal. apply IHl. intros I. apply Na. right. exact I.
  - destruct (Nat.eqb a m) eqn:E.
    + apply Nat.eqb_eq in E. subst. contradiction.
    + cbn [negb length]. f_equal. apply IH. exact I.
Qed.

Lemma Forall_filter {A : Type} (P : A -> Prop) (p : A -> bool) (l : list A) :
  Forall P l -> Forall P (filter p l).
Proof.
  induction 1 as [|a l Pa _ IH]; cbn [filter]; [constructor|].
  destruct (p a); [constructor|]; auto.
Qed.

Lemma filter_healths (m : nat) es (P : Z -> Prop) :
  Forall P (map Enemy.health es) ->
  Forall P
    (map Enemy.health
       (filter (fun a => negb (Nat.eqb (Enemy.ident a) m)) es)).
Proof.
  induction es as [|a es IH]; [auto|].
  cbn [filter map]. intros F. inversion F as [|h hs Ph Phs]; subst.
  destruct (negb _); cbn [map]; [constructor|]; auto.
Qed.

(** ** Invariants of the enemy array and of the player's health *)

Lemma world_enemies tape :
  enemies (createCover (createArena (fresh tape))) = [].
Proof. vm_compute. reflexivity. Qed.

Lemma world_nextId tape :
  nextId (createCover (createArena (fresh tape))) = 12%nat.
Proof. vm_compute. reflexivity. Qed.

Lemma constructor_enemies_ok tape s : constructor tape = Some s -> enemies_ok s.
Proof.
  intros E. pose proof (constructor_fields _ _ E) as (_ & _ & _ & C & _).
  rewrite constructor_unfold in E. apply spawnEnemies_many in E.
  destruct E as (new & E1 & E2 & E3 & E4).
  rewrite world_enemies in E1. rewrite world_nextId in E2, E4.
  unfold enemies_ok, kills. rewrite E1, E4, C. cbn [app filter length].
  rewrite E2.
  split.
  { rewrite <- (length_map Enemy.ident), E2. apply length_seq. }
  split; [apply seq_NoDup|].
  split.
  { apply Forall_forall. intros i I. apply in_seq in I. lia. }
  split; [|reflexivity].
  apply Forall_map. eapply Forall_impl; [|exact E3].
  intros e ->. left. reflexivity.
Qed.

Lemma quiet_kills {s s'} : quiet s s' -> kills s' = kills s.
Proof.
  unfold quiet, kills. intros (_ & _ & _ & _ & [-> | [a ->]]); reflexivity.
Qed.

Lemma quiet_hitsTaken {s s'} : quiet s s' -> hitsTaken s' = hitsTaken s.
Proof.
  unfold quiet, hitsTaken.
  intros (_ & _ & _ & _ & [-> | [a ->]]); reflexivity.
Qed.

Lemma quiet_enemies_ok s s' : quiet s s' -> enemies_ok s -> enemies_ok s'.
Proof.
  intros Q. pose proof (quiet_kills Q) as K.
  destruct Q as (E & N & _). unfold enemies_ok. rewrite E, N, K. auto.
Qed.

Section Invariants.
Context {H : Host}.

Lemma shotOutcome_hit s enemy :
  shotOutcome s = Wound enemy \/ shotOutcome s = Kill enemy ->
  In enemy (enemies s) /\
  (shotOutcome s = Kill enemy <-> (Enemy.health enemy - 34 <= 0)%Z).
Proof.
  unfold shotOutcome. destruct (_ || _); [intros [?|?]; discriminate|].
  destruct (hitEnemy s) as [e|] eqn:F; [|intros [?|?]; discriminate].
  apply hitEnemy_found in F.
  destruct (_ <=? 0)%Z eqn:L.
  - apply Z.leb_le in L. intros [?|[= <-]]; [discriminate|].
    split; [exact F|]. split; auto.
  - apply Z.leb_gt in L. intros [[= <-]|?]; [|discriminate].
    split; [exact F|]. split; [discriminate | lia].
Qed.

Lemma shoot_enemies_ok s s' :
  shoot s = Some s' -> enemies_ok s -> enemies_ok s'.
Proof.
  intros E (L & D & I & Hh & K). apply shoot_outcome in E.
  destruct (shotOutcome s) as [| |enemy|enemy] eqn:O.
  - subst s'. unfold enemies_ok. auto.
  - destruct E as (Ec & Ee & En).
    unfold enemies_ok, kills. rewrite Ec, Ee, En. cbn [filter is_onKill].
    auto.
  - destruct E as (Ec & Ee & En).
    destruct (shotOutcome_hit s enemy (or_introl O)) as (M & KK).
    assert (P : ~ (Enemy.health enemy - 34 <= 0)%Z).
    { intros P. apply KK in P. congruence. }
    unfold enemies_ok, kills. rewrite Ec, Ee, En. cbn [filter is_onKill].
    rewrite afterHit_idents.
    split; [rewrite <- (length_map Enemy.ident), afterHit_idents,
              length_map; exact L|].
    split; [exact D|]. split; [exact I|]. split; [|exact K].
    apply afterHit_healths; [|exact Hh].
    apply (in_map Enemy.health) in M.
    rewrite Forall_forall in Hh. apply Hh in M.
    simpl in M. simpl. lia.
  - destruct E as (Ec & E).
    destruct (shotOutcome_hit s enemy (or_intror O)) as (M & _).
    apply (in_map Enemy.ident) in M.
    assert (L4 : length (survivors enemy (enemies s)) = 4%nat).
    { rewrite survivors_filter, <- (length_map Enemy.ident), filter_idents.
      pose proof (filter_out_length _ _ D M) as F.
      rewrite length_map, L in F. lia. }
    rewrite L4 in E. cbn in E. destruct E as (En & x & z & _ & Ee).
    unfold enemies_ok, kills. rewrite Ec, Ee, En. cbn [filter is_onKill length].
    rewrite length_app, L4, !map_app. cbn [map length].
    rewrite survivors_filter, filter_idents.
    split; [reflexivity|]. split.
    { apply NoDup_app; [apply NoDup_filter; exact D | repeat constructor; auto|].
      intros i Ii [<-|[]]. apply filter_In in Ii. destruct Ii as [Ii _].
      rewrite Forall_forall in I. apply I in Ii.
      change (Enemy.ident (spawned (nextId s) x z)) with (nextId s) in Ii. lia. }
    split.
    { apply Forall_app. split.
      - apply Forall_filter. eapply Forall_impl; [|exact I].
        intros i; cbv beta; lia.
      - constructor; [|constructor].
        change (Enemy.ident (spawned (nextId s) x z)) with (nextId s). lia. }
    split.
    { apply Forall_app. split; [apply filter_healths; exact Hh|].
      constructor; [|constructor]. left. reflexivity. }
    unfold kills in K. lia.
Qed.

(** An enemy's turn changes neither the number of kills nor the sum of
    the player's health and ten times the hits taken. *)
Lemma updateEnemy_tally delta currentTime enemy s enemy' s' :
  updateEnemy delta currentTime enemy s = Some (enemy', s') ->
  kills s' = kills s /\
  (playerHealth s' + 10 * hitsTaken s' = playerHealth s + 10 * hitsTaken s)%Z.
Proof.
  unfold updateEnemy. intros E.
  apply bind_Some in E. destruct E as [[e1 s1] [E1 E]].
  assert (F1 : s1 = set_entropy (entropy s1) s).
  { unfold retarget in E1. destruct (Qltb 2 _).
    - apply bind_Some in E1. destruct E1 as [[r t1] [R1 E1]].
      apply Math_random_spec in R1. destruct R1 as [_ R1].
      destruct (Qltb _ r).
      + injection E1 as _ <-. exact R1.
      + apply bind_Some in E1. destruct E1 as [[rx t2] [R2 E1]].
        apply bind_Some in E1. destruct E1 as [[rz t3] [R3 E1]].
        apply Math_random_spec in R2. destruct R2 as [_ R2].
        apply Math_random_spec in R3. destruct R3 as [_ R3].
        injection E1 as _ <-. rewrite R3, R2, R1. destruct s; reflexivity.
    - injection E1 as _ <-. destruct s; reflexivity. }
  assert (T1 : kills s1 = kills s /\ hitsTaken s1 = hitsTaken s /\
               playerHealth s1 = playerHealth s).
  { rewrite F1. auto. }
  destruct T1 as (K1 & T1 & P1). rewrite <- K1, <- T1, <- P1.
  clear E1 F1 K1 T1 P1. unfold shootAtPlayer in E.
  destruct (shotDue _ _ _); [|injection E as _ <-; auto].
  match type of E with (if ?b then _ else _) = _ => destruct b end;
    [|injection E as _ <-; auto].
  apply bind_Some in E. destruct E as [[r t1] [R1 E]].
  apply Math_random_spec in R1. destruct R1 as [_ R1].
  assert (T1 : kills t1 = kills s1 /\ hitsTaken t1 = hitsTaken s1 /\
               playerHealth t1 = playerHealth s1).
  { rewrite R1. auto. }
  destruct T1 as (K1 & T1 & P1). rewrite <- K1, <- T1, <- P1.
  destruct (Qltb _ r); injection E as _ <-; [|auto].
  unfold hitPlayer, kills, hitsTaken. fields.
  destruct (_ <=? 0)%Z; fields; cbn [filter is_onKill is_onHealthChange length];
    split; try reflexivity; lia.
Qed.

Lemma forEachEnemy_tally delta currentTime es : forall s es' s',
  forEachEnemy delta currentTime es s = Some (es', s') ->
  kills s' = kills s /\
  (playerHealth s' + 10 * hitsTaken s' = playerHealth s + 10 * hitsTaken s)%Z.
Proof.
  induction es as [|enemy rest IH]; cbn [forEachEnemy]; intros s es' s' E.
  - injection E as _ <-. auto.
  - apply bind_Some in E. destruct E as [[e1 s1] [E1 E]].
    apply bind_Some in E. destruct E as [[r2 s2] [E2 E]].
    injection E as _ <-.
    apply updateEnemy_tally in E1. apply IH in E2. lia.
Qed.

Lemma updateEnemies_tally delta currentTime s s' :
  updateEnemies delta currentTime s = Some s' ->
  kills s' = kills s /\
  (playerHealth s' + 10 * hitsTaken s' = playerHealth s + 10 * hitsTaken s)%Z.
Proof.
  unfold updateEnemies. intros E.
  apply bind_Some in E. destruct E as [[es s1] [E1 E]].
  injection E as <-. apply forEachEnemy_tally in E1. exact E1.
Qed.

Lemma updateEnemies_enemies_ok delta currentTime s s' :
  updateEnemies delta currentTime s = Some s' -> enemies_ok s -> enemies_ok s'.
Proof.
  intros E. pose proof (updateEnemies_tally _ _ _ _ E) as [K _].
  apply updateEnemies_spec in E. destruct E as (F & I & Hh).
  unfold enemies_ok. rewrite K, I, Hh, (f_equal nextId F).
  rewrite <- (length_map Enemy.ident (enemies s')), I, length_map. auto.
Qed.

Lemma step_enemies_ok op s s' :
  step op s = Some s' -> enemies_ok s -> enemies_ok s'.
Proof.
  intros E. apply step_cases in E.
  destruct E as [Q | [E | (delta & currentTime & s1 & Q & E)]].
  - apply quiet_enemies_ok. exact Q.
  - apply shoot_enemies_ok. exact E.
  - intros O. eapply updateEnemies_enemies_ok; [exact E|].
    eapply quiet_enemies_ok; eauto.
Qed.

Lemma reachable_enemies_ok s : reachable s -> enemies_ok s.
Proof.
  induction 1 as [tape s E | op s s' _ IH E].
  - eapply constructor_enemies_ok; eauto.
  - eapply step_enemies_ok; eauto.
Qed.

End Invariants.

Section ShotReturns.
Context {H : Host}.

Lemma recoil_total s r1 r2 rest :
  entropy s = r1 :: r2 :: rest -> exists s', recoil s = Some s'.
Proof.
  intros T. unfold recoil, Math_random. rewrite T. cbn [bind]. fields.
  cbn [bind]. eauto.
Qed.

(** With enough random numbers [shoot] returns. *)
Lemma shoot_total s :
  sufficesForShot (entropy s) -> exists s', shoot s = Some s'.
Proof.
  intros (x & z & r1 & r2 & rest & P). unfold shoot.
  destruct (_ || _); [eauto|]. cbv zeta.
  assert (T : exists a b t, entropy (fire s) = a :: b :: t).
  { change (entropy (fire s)) with (entropy s).
    destruct (entropy s) as [|a [|b t]]; try discriminate. eauto. }
  destruct T as (a & b & t & T).
  unfold resolveHit.
  destruct (hitEnemy (fire s)) as [target|];
    [|cbn [bind]; eapply recoil_total; eauto].
  cbv zeta. destruct (_ <=? 0)%Z; [|cbn [bind]; eapply recoil_total; eauto].
  unfold killEnemy. destruct (_ <? 5)%nat;
    [|cbn [bind]; eapply recoil_total; fields; eauto].
  cbn [spawnEnemies newMesh]. fields.
  change (entropy (fire s)) with (entropy s). rewrite P. cbn [bind].
  eapply recoil_total. fields. reflexivity.
Qed.

End ShotReturns.

Lemma killEnemy_returns enemy t x z rest :
  spawnPosition (entropy t) = Some (x, z, rest) ->
  exists t',
    killEnemy enemy t = Some t' /\
    let left := filter (fun e => negb (Enemy.same e enemy)) (enemies t) in
    if (length left <? 5)%nat
    then enemies t' = left ++ [spawned (nextId t) x z] /\ entropy t' = rest
    else enemies t' = left /\ entropy t' = entropy t.
Proof.
  intros P. unfold killEnemy. fields. cbv zeta.
  destruct (length _ <? 5)%nat.
  - cbn [spawnEnemies newMesh]. fields. rewrite P. cbn [bind].
    eexists. split; [reflexivity|]. fields. split; reflexivity.
  - eexists. split; [reflexivity|]. fields. split; reflexivity.
Qed.

(** C6.  In every state the engine can reach there are five enemies, so
    the count is back at five after every death; the enemies spawned since
    construction are as many as the kills; [killEnemy] itself, in any
    state, removes the dead enemy and creates and appends exactly one new
    enemy when fewer than five are left, none otherwise; it returns
    whenever the random numbers yield a position for the new enemy, which
    is then placed there; and a call of [shoot] in a reachable state
    returns when the random numbers suffice, in a state with five enemies
    again and as many replacements as kills. *)
Theorem population_restored {H : Host} (s : GameEngine) :
  reachable s ->
  length (enemies s) = 5%nat /\
  replacements s = kills s /\
  (forall t enemy t',
     killEnemy enemy t = Some t' ->
     let rest := filter (fun e => negb (Enemy.same e enemy)) (enemies t) in
     kills t' = S (kills t) /\
     if (length rest <? 5)%nat
     then nextId t' = S (nextId t) /\
          exists x z, enemies t' = rest ++ [spawned (nextId t) x z]
     else nextId t' = nextId t /\ enemies t' = rest) /\
  (forall t enemy x z tape,
     spawnPosition (entropy t) = Some (x, z, tape) ->
     exists t',
       killEnemy enemy t = Some t' /\
       let rest := filter (fun e => negb (Enemy.same e enemy)) (enemies t) in
       if (length rest <? 5)%nat
       then enemies t' = rest ++ [spawned (nextId t) x z] /\
            entropy t' = tape
       else enemies t' = rest /\ entropy t' = entropy t) /\
  (sufficesForShot (entropy s) ->
   exists s',
     shoot s = Some s' /\
     length (enemies s') = 5%nat /\
     replacements s' = kills s').
Proof.
  intros R. pose proof (reachable_enemies_ok _ R) as (L & _ & _ & _ & K).
  split; [exact L|]. split; [unfold replacements; lia|].
  split; [|split].
  - intros t enemy t' E rest. unfold killEnemy in E. fields in E.
    fold rest in E. destruct (length rest <? 5)%nat.
    + apply spawnEnemies_one in E. fields in E.
      destruct E as (x & z & _ & Ee & En & Ec).
      unfold kills. rewrite Ec, En. cbn [filter is_onKill length].
      split; [reflexivity|]. split; [reflexivity | eauto].
    + injection E as <-. unfold kills. fields. auto.
  - intros t enemy x z tape P. apply killEnemy_returns. exact P.
  - intros S. destruct (shoot_total s S) as (s' & E). exists s'.
    split; [exact E|].
    assert (R' : reachable s').
    { apply (reachable_step Shoot s s' R). exact E. }
    apply reachable_enemies_ok in R'. destruct R' as (L' & _ & _ & _ & K').
    split; [exact L' | unfold replacements; lia].
Qed.

Lemma population_restored_witness :
  reachable (H := exampleHost castFirst) woundedEngine /\
  sufficesForShot (entropy woundedEngine) /\
  healthOf 12 woundedEngine = Some 32%Z /\
  exists s',
    shoot (H := exampleHost castFirst) woundedEngine = Some s' /\
    kills s' = S (kills woundedEngine) /\
    length (enemies s') = 5%nat /\
    replacements s' = kills s'.
Proof.
  assert (R : reachable (H := exampleHost castFirst) woundedEngine).
  { apply (constructed_run_reachable
             (spawnTape ++ [1 # 2; 1 # 2; 1 # 2; 1 # 2;
                            5 # 8; 17 # 32; 1 # 2; 1 # 2])
             [Shoot; Shoot]).
    vm_compute. reflexivity. }
  assert (S : sufficesForShot (entropy woundedEngine)).
  { exists (((5 # 8) - (1 # 2)) * 160), (((17 # 32) - (1 # 2)) * 160),
      (1 # 2), (1 # 2), []. vm_compute. reflexivity. }
  split; [exact R|]. split; [exact S|].
  split; [vm_compute; reflexivity|].
  destruct (population_restored woundedEngine R) as (_ & _ & _ & _ & W).
  destruct (W S) as (s' & E & L & K). exists s'.
  split; [exact E|]. split; [|auto].
  assert (E' : the (shoot (H := exampleHost castFirst) woundedEngine) = s')
    by (rewrite E; reflexivity).
  rewrite <- E'. vm_compute. reflexivity.
Defined.

(** ** The player's health *)

Section Health.
Context {H : Host}.

Lemma shoot_tally s s' :
  shoot s = Some s' ->
  hitsTaken s' = hitsTaken s /\ playerHealth s' = playerHealth s.
Proof.
  intros E. pose proof (shoot_frame _ _ E) as F.
  rewrite (f_equal playerHealth F). split; [|reflexivity].
  apply shoot_outcome in E. unfold hitsTaken.
  destruct (shotOutcome s); [subst; reflexivity | | |];
    destruct E as (-> & _); reflexivity.
Qed.

Lemma step_health op s s' :
  step op s = Some s' ->
  (playerHealth s' + 10 * hitsTaken s' = playerHealth s + 10 * hitsTaken s)%Z.
Proof.
  intros E. apply step_cases in E.
  destruct E as [Q | [E | (delta & currentTime & s1 & Q & E)]].
  - rewrite (quiet_hitsTaken Q). destruct Q as (_ & _ & -> & _). reflexivity.
  - apply shoot_tally in E. destruct E as (-> & ->). reflexivity.
  - apply updateEnemies_tally in E. destruct E as (_ & ->).
    rewrite (quiet_hitsTaken Q). destruct Q as (_ & _ & -> & _). reflexivity.
Qed.

Lemma reachable_health s :
  reachable s -> (playerHealth s + 10 * hitsTaken s = 100)%Z.
Proof.
  induction 1 as [tape s E | op s s' _ IH E].
  - apply constructor_fields in E. destruct E as (_ & -> & _ & C & _).
    unfold hitsTaken. rewrite C. reflexivity.
  - apply step_health in E. lia.
Qed.

End Health.

(** C7, as the code has it.  In every state the engine can reach the
    magazine and the reserve are not negative, and the player's health is
    100 minus 10 for every enemy shot that hit, with no floor: it is not
    negative exactly while at most ten shots have hit. *)
Theorem ammo_never_negative_health_unbounded {H : Host} (s : GameEngine) :
  reachable s ->
  (0 <= playerAmmo s)%Z /\
  (0 <= playerReserveAmmo s)%Z /\
  playerHealth s = (100 - 10 * hitsTaken s)%Z /\
  ((0 <= playerHealth s)%Z <-> (hitsTaken s <= 10)%Z).
Proof.
  intros R. pose proof (reachable_health _ R) as Hh.
  apply reachable_ammo_ok in R. destruct R as (Ha & Hr & _).
  repeat split; lia.
Qed.

Lemma ammo_never_negative_health_unbounded_witness :
  reachable (H := exampleHost castNothing) overrunEngine /\
  hitsTaken overrunEngine = 15%Z /\
  playerHealth overrunEngine = (100 - 10 * hitsTaken overrunEngine)%Z.
Proof.
  assert (R : reachable (H := exampleHost castNothing) overrunEngine).
  { apply (constructed_run_reachable
             (spawnTape ++ concat (repeat hitTape 15))
             [PointerLockChange true; Animate 3 1000000; Animate 3 1003000;
              Animate 3 1006000]).
    vm_compute. reflexivity. }
  destruct (ammo_never_negative_health_unbounded overrunEngine R)
    as (_ & _ & E & _).
  split; [exact R|]. split; [vm_compute; reflexivity | exact E].
Defined.

(** C7, as stated, fails: after fifteen hits the health is -50. *)
Lemma health_goes_negative :
  ~ (forall (H : Host) (s : GameEngine),
       reachable s ->
       (0 <= playerHealth s)%Z /\
       (0 <= playerAmmo s)%Z /\
       (0 <= playerReserveAmmo s)%Z).
Proof.
  intros C.
  assert (R : reachable (H := exampleHost castNothing) overrunEngine).
  { apply (constructed_run_reachable
             (spawnTape ++ concat (repeat hitTape 15))
             [PointerLockChange true; Animate 3 1000000; Animate 3 1003000;
              Animate 3 1006000]).
    vm_compute. reflexivity. }
  destruct (C _ _ R) as (N & _).
  vm_compute in N. apply N. reflexivity.
Qed.

(** ** Enemy fire *)

(** C5, as the code has it.  An enemy attempts a shot exactly when its
    distance to the player is below 50 and more than 2000 ms have passed
    since [lastShot]; without an attempt nothing changes; with an attempt
    [lastShot] becomes the current time whatever the ray cast and the
    accuracy roll give; and at distance 60 no attempt is made whatever the
    time. *)
Theorem enemy_shot_attempt {H : Host}
  (currentTime : Z) (enemy : Enemy.t) (s : GameEngine) :
  let dist :=
    distanceTo3 (Mesh.position (Enemy.mesh enemy))
      (Camera.position (camera s)) in
  (shotDue dist currentTime enemy = true <->
   dist < 50 /\ (2000 < currentTime - Enemy.lastShot enemy)%Z) /\
  (shotDue dist currentTime enemy = false ->
   shootAtPlayer currentTime enemy s = Some (enemy, s)) /\
  (shotDue dist currentTime enemy = true ->
   (forall enemy' s',
      shootAtPlayer currentTime enemy s = Some (enemy', s') ->
      enemy' = Enemy.set_lastShot enemy currentTime) /\
   (entropy s <> [] ->
    exists s',
      shootAtPlayer currentTime enemy s =
      Some (Enemy.set_lastShot enemy currentTime, s'))) /\
  (dist == 60 -> shotDue dist currentTime enemy = false).
Proof.
  intros dist. split; [|split; [|split]].
  - unfold shotDue. rewrite andb_true_iff, Qltb_true, Z.ltb_lt. reflexivity.
  - intros D. unfold shootAtPlayer. fold dist. rewrite D. reflexivity.
  - intros D. unfold shootAtPlayer. fold dist. rewrite D. split.
    + intros enemy' s' E.
      match type of E with (if ?b then _ else _) = _ => destruct b end;
        [|injection E as <- _; reflexivity].
      apply bind_Some in E. destruct E as [[r t1] [_ E]].
      destruct (Qltb _ r); injection E as <- _; reflexivity.
    + intros N. unfold Math_random.
      destruct (entropy s) as [|r rest]; [congruence|].
      match goal with |- context [if ?b then _ else _] => destruct b end;
        [|eauto].
      cbn [bind]. destruct (Qltb _ r); eauto.
  - intros D. unfold shotDue.
    replace (Qltb dist 50) with false; [reflexivity|].
    symmetry. apply Qltb_false. rewrite D. discriminate.
Qed.

(** C5, as stated, fails at the boundary: an enemy 21 units from the
    player whose last shot was exactly 2000 ms ago does not shoot. *)
Lemma cooldown_is_strict :
  ~ (forall (H : Host) (currentTime : Z) (enemy : Enemy.t) (s : GameEngine),
       let dist :=
         distanceTo3 (Mesh.position (Enemy.mesh enemy))
           (Camera.position (camera s)) in
       shotDue dist currentTime enemy = true <->
       dist < 50 /\ (2000 <= currentTime - Enemy.lastShot enemy)%Z).
Proof.
  intros C.
  specialize (C (exampleHost castNothing) 1002000%Z
                (Enemy.set_lastShot (spawned 12 20 5) 1000000) (fresh [])).
  cbv zeta in C. destruct C as [_ C].
  assert (D : shotDue
            (distanceTo3 (H := exampleHost castNothing)
               (Mesh.position
                  (Enemy.mesh (Enemy.set_lastShot (spawned 12 20 5) 1000000)))
               (Camera.position (camera (fresh []))))
            1002000 (Enemy.set_lastShot (spawned 12 20 5) 1000000) = false)
    by (vm_compute; reflexivity).
  rewrite D in C. discriminate C.
  split; vm_compute; [reflexivity | discriminate].
Qed.

(** ** Looking an enemy up by identity *)

Lemma lookup_afterHit (m : nat) enemy es :
  lookup (Enemy.ident enemy) es = Some enemy ->
  lookup m (afterHit enemy es) =
  if Nat.eqb m (Enemy.ident enemy) then Some (damaged enemy) else lookup m es.
Proof.
  unfold lookup, afterHit. induction es as [|a es IH]; [discriminate|].
  cbn [find assign_first]. unfold Enemy.same at 1.
  rewrite (Nat.eqb_sym (Enemy.ident a) (Enemy.ident enemy)).
  destruct (Nat.eqb (Enemy.ident enemy) (Enemy.ident a)) eqn:E.
  - intros _. apply Nat.eqb_eq in E. cbn [find].
    change (Enemy.ident (damaged enemy)) with (Enemy.ident enemy).
    rewrite <- E, (Nat.eqb_sym m).
    destruct (Nat.eqb (Enemy.ident enemy) m); reflexivity.
  - intros F. cbn [find]. rewrite (IH F).
    destruct (Nat.eqb (Enemy.ident a) m) eqn:A; [|reflexivity].
    apply Nat.eqb_eq in A. subst m. rewrite Nat.eqb_sym, E. reflexivity.
Qed.

Lemma lookup_survivors (m : nat) enemy es :
  lookup m (survivors enemy es) =
  if Nat.eqb m (Enemy.ident enemy) then None else lookup m es.
Proof.
  rewrite survivors_filter. unfold lookup.
  induction es as [|a es IH].
  - destruct (Nat.eqb _ _); reflexivity.
  - cbn [filter find].
    destruct (Nat.eqb (Enemy.ident a) (Enemy.ident enemy)) eqn:E;
      cbn [negb find].
    + rewrite IH. apply Nat.eqb_eq in E. rewrite <- E, (Nat.eqb_sym m).
      destruct (Nat.eqb (Enemy.ident a) m); reflexivity.
    + destruct (Nat.eqb (Enemy.ident a) m) eqn:A; [|exact IH].
      apply Nat.eqb_eq in A. subst m. rewrite E. reflexivity.
Qed.

Lemma lookup_app_fresh (m : nat) es (e : Enemy.t) :
  Enemy.ident e <> m -> lookup m (es ++ [e]) = lookup m es.
Proof.
  intros N. unfold lookup. induction es as [|a es IH]; cbn [app find].
  - apply Nat.eqb_neq in N. rewrite N. reflexivity.
  - destruct (Nat.eqb (Enemy.ident a) m); [reflexivity | exact IH].
Qed.

(** Arrays that agree on identities and on healths, position by
    position, give every identity the same health. *)
Lemma lookup_health_maps (m : nat) : forall es es',
  map Enemy.ident es' = map Enemy.ident es ->
  map Enemy.health es' = map Enemy.health es ->
  option_map Enemy.health (lookup m es') =
  option_map Enemy.health (lookup m es).
Proof.
  unfold lookup.
  induction es as [|a es IH]; intros [|a' es']; try discriminate;
    [reflexivity|].
  cbn [map find]. intros [= I Is] [= Hh Hs]. rewrite I.
  destruct (Nat.eqb (Enemy.ident a) m); cbn [option_map]; [congruence|].
  apply IH; assumption.
Qed.

Section Lookup.
Context {H : Host}.

Lemma lookup_hitEnemy s enemy :
  hitEnemy s = Some enemy -> lookup (Enemy.ident enemy) (enemies s) = Some enemy.
Proof.
  unfold hitEnemy, lookup.
  destruct (Raycaster_intersectObjects _ _) as [|i rest]; [discriminate|].
  intros F. pose proof (find_some _ _ F) as [_ E].
  apply Nat.eqb_eq in E. rewrite E. exact F.
Qed.

Lemma shotOutcome_inv s enemy :
  shotOutcome s = Wound enemy \/ shotOutcome s = Kill enemy ->
  hitEnemy s = Some enemy /\
  (0 < playerAmmo s)%Z /\ isReloading s = false.
Proof.
  unfold shotOutcome. destruct (playerAmmo s <=? 0)%Z eqn:A;
    [intros [?|?]; discriminate|].
  destruct (isReloading s); [intros [?|?]; discriminate|].
  apply Z.leb_gt in A. cbn [orb].
  destruct (hitEnemy s) as [e|]; [|intros [?|?]; discriminate].
  destruct (_ <=? 0)%Z; intros [E|E]; inversion E; subst; auto.
Qed.

(** The health of the enemy [m] after a call of [shoot]. *)
Lemma shoot_healthOf (m : nat) s s' :
  (m < nextId s)%nat ->
  shoot s = Some s' ->
  healthOf m s' =
  match victim s with
  | Some m' =>
      if Nat.eqb m m' then
        match healthOf m s with
        | Some h => afterDamage h
        | None => None
        end
      else healthOf m s
  | None => healthOf m s
  end.
Proof.
  intros Lm E. apply shoot_outcome in E. unfold victim.
  destruct (shotOutcome s) as [| |enemy|enemy] eqn:O.
  - subst. reflexivity.
  - destruct E as (_ & Ee & _). unfold healthOf. rewrite Ee. reflexivity.
  - destruct E as (_ & Ee & _).
    destruct (shotOutcome_inv s enemy (or_introl O)) as (F & _).
    destruct (shotOutcome_hit s enemy (or_introl O)) as (_ & KK).
    apply lookup_hitEnemy in F. unfold healthOf.
    rewrite Ee, (lookup_afterHit m _ _ F).
    destruct (Nat.eqb m (Enemy.ident enemy)) eqn:M; [|reflexivity].
    apply Nat.eqb_eq in M. subst m. rewrite F. cbn [option_map].
    unfold afterDamage.
    destruct (Enemy.health enemy - 34 <=? 0)%Z eqn:L; [|reflexivity].
    apply Z.leb_le in L. apply KK in L. congruence.
  - destruct E as (_ & E).
    destruct (shotOutcome_inv s enemy (or_intror O)) as (F & _).
    destruct (shotOutcome_hit s enemy (or_intror O)) as (_ & KK).
    apply lookup_hitEnemy in F.
    assert (S' : healthOf m s' =
                 option_map Enemy.health (lookup m (survivors enemy (enemies s)))).
    { unfold healthOf. destruct (_ <? 5)%nat.
      - destruct E as (_ & x & z & _ & ->).
        rewrite lookup_app_fresh; [reflexivity|].
        change (Enemy.ident (spawned (nextId s) x z)) with (nextId s). lia.
      - destruct E as (_ & ->). reflexivity. }
    rewrite S', lookup_survivors. unfold healthOf.
    destruct (Nat.eqb m (Enemy.ident enemy)) eqn:M; [|reflexivity].
    apply Nat.eqb_eq in M. subst m. rewrite F. cbn [option_map].
    unfold afterDamage.
    replace (Enemy.health enemy - 34 <=? 0)%Z with true; [reflexivity|].
    symmetry. apply Z.leb_le. apply KK. exact O.
Qed.

End Lookup.

(** ** The player's shot and the walls *)

Lemma spawnEnemies_walls ws n : forall s,
  spawnEnemies n (set_walls ws s) = option_map (set_walls ws) (spawnEnemies n s).
Proof.
  induction n as [|n IH]; intros s; [reflexivity|].
  cbn [spawnEnemies newMesh]. fields.
  destruct (spawnPosition (entropy s)) as [[[x z] rest]|]; cbn [bind];
    [|reflexivity].
  rewrite <- IH. reflexivity.
Qed.

Lemma killEnemy_walls ws enemy s :
  killEnemy enemy (set_walls ws s) =
  option_map (set_walls ws) (killEnemy enemy s).
Proof.
  unfold killEnemy. fields. destruct (_ <? 5)%nat; [|reflexivity].
  rewrite <- spawnEnemies_walls. reflexivity.
Qed.

Section ShotAndWalls.
Context {H : Host}.

Lemma recoil_walls ws s :
  recoil (set_walls ws s) = option_map (set_walls ws) (recoil s).
Proof.
  unfold recoil, Math_random. fields.
  destruct (entropy s) as [|r1 [|r2 rest]]; reflexivity.
Qed.

Lemma hitEnemy_walls ws s : hitEnemy (set_walls ws s) = hitEnemy s.
Proof. reflexivity. Qed.

(** [shoot] does not read the walls: with other walls it does the same
    to every other field. *)
Lemma resolveHit_walls ws s :
  resolveHit (set_walls ws s) = option_map (set_walls ws) (resolveHit s).
Proof.
  unfold resolveHit. rewrite hitEnemy_walls.
  destruct (hitEnemy s) as [target|]; [|reflexivity].
  cbv zeta. destruct (_ <=? 0)%Z; [|reflexivity].
  rewrite <- killEnemy_walls. reflexivity.
Qed.

(** [shoot] does not read the walls: with other walls it does the same
    to every other field. *)
Lemma shoot_walls ws s :
  shoot (set_walls ws s) = option_map (set_walls ws) (shoot s).
Proof.
  unfold shoot. fields. destruct (_ || _); [reflexivity|].
  cbv zeta. change (fire (set_walls ws s)) with (set_walls ws (fire s)).
  rewrite resolveHit_walls.
  destruct (resolveHit (fire s)) as [s2|]; [|reflexivity].
  cbn [option_map bind]. apply recoil_walls.
Qed.

End ShotAndWalls.


Lemma lookup_In (e : Enemy.t) es :
  NoDup (map Enemy.ident es) ->
  In e es ->
  lookup (Enemy.ident e) es = Some e.
Proof.
  unfold lookup. induction es as [|a es IH]; cbn [map In find]; [tauto|].
  intros N I. inversion N as [|i l N1 N2]; subst.
  destruct I as [-> | I]; [rewrite Nat.eqb_refl; reflexivity|].
  destruct (Nat.eqb (Enemy.ident a) (Enemy.ident e)) eqn:Q; [|auto].
  apply Nat.eqb_eq in Q. exfalso. apply N1. rewrite Q.
  apply in_map. exact I.
Qed.

(** C9.  [shoot] casts its ray, the one [setFromCamera] gives for the
    centre of the view, at the meshes of the live enemies only.  Let that
    ray meet the mesh of an enemy first.  Then this enemy is the one the
    shot designates, whatever the walls are -- also when the same ray
    meets a wall nearer than the enemy; [shoot] does to every other field
    what it does with the actual walls; it returns when the random numbers
    suffice; and that enemy loses 34 health, being removed when nothing
    positive is left. *)
Theorem obstacles_never_occlude {H : Host} (s : GameEngine) (enemy : Enemy.t)
  (nearest : Intersection.t) (farther : list Intersection.t) :
  reachable s ->
  (0 < playerAmmo s)%Z ->
  isReloading s = false ->
  Raycaster_intersectObjects (Raycaster_setFromCamera (camera s))
    (map Enemy.mesh (enemies s)) = nearest :: farther ->
  In enemy (enemies s) ->
  Mesh.id (Enemy.mesh enemy) = Intersection.object nearest ->
  hitEnemy s = Some enemy /\
  (forall ws,
     hitEnemy (set_walls ws s) = Some enemy /\
     shoot (set_walls ws s) = option_map (set_walls ws) (shoot s)) /\
  (forall ws wall more s',
     Raycaster_intersectObjects (Raycaster_setFromCamera (camera s)) ws =
       wall :: more ->
     Intersection.distance wall < Intersection.distance nearest ->
     shoot (set_walls ws s) = Some s' ->
     In onHit (calls s') /\
     healthOf (Enemy.ident enemy) s' = afterDamage (Enemy.health enemy)) /\
  (sufficesForShot (entropy s) -> exists s', shoot s = Some s') /\
  (forall s',
     shoot s = Some s' ->
     In onHit (calls s') /\
     healthOf (Enemy.ident enemy) s' = afterDamage (Enemy.health enemy)).
Proof.
  intros R A L C I M.
  pose proof (reachable_enemies_ok _ R) as (_ & N & Ids & _).
  assert (F : hitEnemy s = Some enemy).
  { unfold hitEnemy. rewrite C.
    change (find _ (enemies s))
      with (lookup (Intersection.object nearest) (enemies s)).
    rewrite <- M. apply (lookup_In enemy _ N I). }
  assert (G : forall s',
             shoot s = Some s' ->
             In onHit (calls s') /\
             healthOf (Enemy.ident enemy) s' =
             afterDamage (Enemy.health enemy)).
  { intros s' E.
    assert (V : victim s = Some (Enemy.ident enemy) /\
                (shotOutcome s = Wound enemy \/ shotOutcome s = Kill enemy)).
    { unfold victim, shotOutcome. rewrite F, L.
      replace (playerAmmo s <=? 0)%Z with false
        by (symmetry; apply Z.leb_gt; exact A).
      cbn [orb]. destruct (_ <=? 0)%Z; auto. }
    destruct V as (V & O).
    pose proof (lookup_hitEnemy _ _ F) as Lk.
    assert (Lm : (Enemy.ident enemy < nextId s)%nat).
    { rewrite Forall_forall in Ids. apply Ids. apply in_map. exact I. }
    split.
    + apply shoot_outcome in E. destruct O as [O|O]; rewrite O in E;
        destruct E as (-> & _); simpl; auto.
    + rewrite (shoot_healthOf _ _ _ Lm E), V, Nat.eqb_refl.
      unfold healthOf. rewrite Lk. reflexivity. }
  split; [exact F|]. split; [|split; [|split]].
  - intros ws. split; [exact F | apply shoot_walls].
  - intros ws wall more s' _ _ E. rewrite shoot_walls in E.
    destruct (shoot s) as [s0|] eqn:E0; [|discriminate].
    cbn [option_map] in E. injection E as <-.
    destruct (G s0 eq_refl) as (G1 & G2). split; [exact G1 | exact G2].
  - apply shoot_total.
  - exact G.
Qed.

Lemma obstacles_never_occlude_witness :
  reachable (H := exampleHost castBehindWall) aimingEngine /\
  (exists wall nearest,
     Raycaster_intersectObjects (Host := exampleHost castBehindWall)
       (Raycaster_setFromCamera (Host := exampleHost castBehindWall)
          (camera aimingEngine))
       (walls aimingEngine) = [wall] /\
     Raycaster_intersectObjects (Host := exampleHost castBehindWall)
       (Raycaster_setFromCamera (Host := exampleHost castBehindWall)
          (camera aimingEngine))
       (map Enemy.mesh (enemies aimingEngine)) = [nearest] /\
     Intersection.distance wall < Intersection.distance nearest /\
     Intersection.object nearest = 13%nat) /\
  healthOf 13
    (the (shoot (H := exampleHost castBehindWall) aimingEngine)) =
  Some 66%Z /\
  healthOf 12
    (the (shoot (H := exampleHost castBehindWall) aimingEngine)) =
  Some 100%Z.
Proof.
  assert (R : reachable (H := exampleHost castBehindWall) aimingEngine).
  { apply (reachable_new (spawnTape ++ [1 # 2; 1 # 2])).
    vm_compute. reflexivity. }
  split; [exact R|].
  pose (enemy := spawned 13 (((5 # 8) - (1 # 2)) * 160)
                   (((17 # 32) - (1 # 2)) * 160)).
  pose (nearest := Intersection.mk 5 13).
  assert (C : Raycaster_intersectObjects (Host := exampleHost castBehindWall)
                (Raycaster_setFromCamera (Host := exampleHost castBehindWall)
                   (camera aimingEngine))
                (map Enemy.mesh (enemies aimingEngine)) = nearest :: [])
    by (vm_compute; reflexivity).
  assert (Wl : Raycaster_intersectObjects
                 (Host := exampleHost castBehindWall)
                 (Raycaster_setFromCamera
                    (Host := exampleHost castBehindWall)
                    (camera aimingEngine))
                 (walls aimingEngine) = [Intersection.mk 1 0])
    by (vm_compute; reflexivity).
  assert (I : In enemy (enemies aimingEngine)).
  { vm_compute. right. left. reflexivity. }
  assert (M : Mesh.id (Enemy.mesh enemy) = Intersection.object nearest)
    by reflexivity.
  assert (A : (0 < playerAmmo aimingEngine)%Z) by (vm_compute; reflexivity).
  assert (L : isReloading aimingEngine = false) by (vm_compute; reflexivity).
  split.
  { exists (Intersection.mk 1 0), nearest.
    split; [exact Wl|]. split; [exact C|]. split; reflexivity. }
  destruct (obstacles_never_occlude (H := exampleHost castBehindWall)
              aimingEngine enemy nearest [] R A L C I M)
    as (_ & _ & _ & _ & W).
  destruct (shoot (H := exampleHost castBehindWall) aimingEngine)
    as [s'|] eqn:E; [|vm_compute in E; discriminate].
  destruct (W s' eq_refl) as (_ & W2). cbn [the].
  split; [exact W2|].
  assert (E' : the (shoot (H := exampleHost castBehindWall) aimingEngine)
               = s') by (rewrite E; reflexivity).
  rewrite <- E'. vm_compute. reflexivity.
Defined.

(** ** Hits on one enemy along a run *)

Section HitsOnOneEnemy.
Context {H : Host}.

Lemma quiet_healthOf (m : nat) s s' :
  quiet s s' -> healthOf m s' = healthOf m s /\ nextId s' = nextId s.
Proof.
  intros (E & N & _). unfold healthOf. rewrite E. auto.
Qed.

Lemma updateEnemies_healthOf (m : nat) delta currentTime s s' :
  updateEnemies delta currentTime s = Some s' ->
  healthOf m s' = healthOf m s /\ nextId s' = nextId s.
Proof.
  intros E. apply updateEnemies_spec in E. destruct E as (F & I & Hh).
  split; [apply lookup_health_maps; assumption|].
  rewrite (f_equal nextId F). reflexivity.
Qed.

Lemma shoot_nextId s s' :
  shoot s = Some s' -> (nextId s <= nextId s')%nat.
Proof.
  intros E. apply shoot_outcome in E.
  destruct (shotOutcome s); [subst; lia | | |];
    try (destruct E as (_ & _ & ->); lia).
  destruct E as (_ & E). destruct (_ <? 5)%nat; destruct E as (-> & _); lia.
Qed.

(** Only an operation that strikes [m] changes the health of [m]. *)
Lemma step_healthOf (m : nat) op s s' :
  (m < nextId s)%nat ->
  step op s = Some s' ->
  (m < nextId s')%nat /\
  healthOf m s' =
  if strikes m op s then
    match healthOf m s with
    | Some h => afterDamage h
    | None => None
    end
  else healthOf m s.
Proof.
  intros Lm E.
  assert (S1 : forall t, shoot s = Some t -> struck op s = victim s ->
            (m < nextId t)%nat /\
            healthOf m t =
            if strikes m op s then
              match healthOf m s with
              | Some h => afterDamage h
              | None => None
              end
            else healthOf m s).
  { intros t Et V. split; [apply shoot_nextId in Et; lia|].
    rewrite (shoot_healthOf _ _ _ Lm Et). unfold strikes. rewrite V.
    destruct (victim s) as [m'|]; [|reflexivity].
    rewrite (Nat.eqb_sym m' m). reflexivity. }
  assert (Q1 : forall t, quiet s t -> struck op s = None ->
            (m < nextId t)%nat /\
            healthOf m t =
            if strikes m op s then
              match healthOf m s with
              | Some h => afterDamage h
              | None => None
              end
            else healthOf m s).
  { intros t Q V. unfold strikes. rewrite V.
    destruct (quiet_healthOf m _ _ Q) as (-> & ->). auto. }
  assert (U1 : forall delta currentTime s1 t,
            quiet s s1 -> updateEnemies delta currentTime s1 = Some t ->
            struck op s = None ->
            (m < nextId t)%nat /\
            healthOf m t =
            if strikes m op s then
              match healthOf m s with
              | Some h => afterDamage h
              | None => None
              end
            else healthOf m s).
  { intros delta currentTime s1 t Q U V. unfold strikes. rewrite V.
    destruct (updateEnemies_healthOf m _ _ _ _ U) as (-> & ->).
    destruct (quiet_healthOf m _ _ Q) as (-> & ->). auto. }
  destruct op; cbn [step] in E.
  - injection E as <-. apply Q1; [|reflexivity].
    destruct code; cbn [onKeyDown]; try apply reload_quiet;
      try (unfold quiet; fields; auto 8; fail).
    destruct (canJump s); unfold quiet; fields; auto 8.
  - injection E as <-. apply Q1; [|reflexivity].
    destruct code; cbn [onKeyUp]; unfold quiet; fields; auto 8.
  - injection E as <-. apply Q1; [|reflexivity].
    unfold onMouseMove. destruct (negb _); unfold quiet; fields; auto 8.
  - unfold onMouseDown in E. cbn [struck] in *.
    destruct (negb (isLocked s) || negb (button =? 0)%Z) eqn:G.
    + injection E as <-. apply Q1; [apply quiet_refl | reflexivity].
    + apply S1; [exact E | reflexivity].
  - injection E as <-. apply Q1; [|reflexivity]. unfold quiet. simpl. auto 8.
  - injection E as <-. apply Q1; [apply timeout_quiet | reflexivity].
  - unfold animate in E. destruct (negb _).
    + injection E as <-. apply Q1; [apply quiet_refl | reflexivity].
    + eapply U1; [apply (updatePlayer_quiet delta) | exact E | reflexivity].
  - apply S1; [exact E | reflexivity].
  - injection E as <-. apply Q1; [apply reload_quiet | reflexivity].
  - injection E as <-. apply Q1; [apply updatePlayer_quiet | reflexivity].
  - eapply U1; [apply quiet_refl | exact E | reflexivity].
Qed.

(** An enemy that is struck is alive. *)
Lemma strikes_alive (m : nat) op s :
  strikes m op s = true -> exists h, healthOf m s = Some h.
Proof.
  unfold strikes. destruct (struck op s) as [m'|] eqn:S1; [|discriminate].
  intros E. apply Nat.eqb_eq in E. subst m'.
  assert (V : victim s = Some m).
  { destruct op; cbn [struck] in S1; try discriminate; [|exact S1].
    destruct (_ || _); [discriminate | exact S1]. }
  unfold victim in V.
  destruct (shotOutcome s) as [| |enemy|enemy] eqn:O; try discriminate;
    injection V as <-.
  - destruct (shotOutcome_inv s enemy (or_introl O)) as (F & _).
    apply lookup_hitEnemy in F. unfold healthOf. rewrite F. simpl. eauto.
  - destruct (shotOutcome_inv s enemy (or_intror O)) as (F & _).
    apply lookup_hitEnemy in F. unfold healthOf. rewrite F. simpl. eauto.
Qed.

(** The health of an enemy that has taken [k] hits since its health was
    100, and its health after the hits of a run. *)
Lemma run_healthOf (m : nat) ops : forall s s' (k : nat),
  (m < nextId s)%nat ->
  (k <= 3)%nat ->
  healthOf m s =
    (if (100 - 34 * Z.of_nat k <=? 0)%Z then None
     else Some (100 - 34 * Z.of_nat k)%Z) ->
  run ops s = Some s' ->
  (k + hitsOn m ops s <= 3)%nat /\
  healthOf m s' =
    (if (100 - 34 * Z.of_nat (k + hitsOn m ops s) <=? 0)%Z then None
     else Some (100 - 34 * Z.of_nat (k + hitsOn m ops s))%Z).
Proof.
  induction ops as [|op ops IH]; intros s s' k Lm Lk Hk E.
  - cbn [run] in E. injection E as <-. cbn [hitsOn].
    rewrite Nat.add_0_r. auto.
  - cbn [run] in E. apply bind_Some in E. destruct E as [s1 [E1 E]].
    cbn [hitsOn]. rewrite E1.
    destruct (step_healthOf m _ _ _ Lm E1) as (Lm1 & H1).
    destruct (strikes m op s) eqn:S1.
    + apply strikes_alive in S1. destruct S1 as [h Hh].
      rewrite Hh in Hk, H1.
      destruct (100 - 34 * Z.of_nat k <=? 0)%Z eqn:D; [discriminate|].
      injection Hk as ->. apply Z.leb_gt in D.
      assert (Lk' : (S k <= 3)%nat) by lia.
      replace (k + (1 + hitsOn m ops s1))%nat
        with (S k + hitsOn m ops s1)%nat by lia.
      apply (IH s1 s' (S k) Lm1 Lk'); [|exact E].
      rewrite H1. unfold afterDamage.
      replace (100 - 34 * Z.of_nat (S k))%Z
        with (100 - 34 * Z.of_nat k - 34)%Z by lia.
      reflexivity.
    + cbn [Nat.add]. apply (IH s1 s' k Lm1 Lk); [|exact E].
      rewrite H1. exact Hk.
Qed.

End HitsOnOneEnemy.

(** ** Kills *)

Lemma others_afterHit (m : nat) enemy es :
  Enemy.ident enemy = m -> others m (afterHit enemy es) = others m es.
Proof.
  intros <-. unfold others, afterHit.
  induction es as [|a es IH]; [reflexivity|].
  cbn [assign_first]. unfold Enemy.same at 1.
  destruct (Nat.eqb (Enemy.ident enemy) (Enemy.ident a)) eqn:E.
  - cbn [filter].
    change (Enemy.ident (damaged enemy)) with (Enemy.ident enemy).
    rewrite Nat.eqb_refl, Nat.eqb_sym, E. reflexivity.
  - cbn [filter]. rewrite IH. reflexivity.
Qed.

Lemma others_survivors (m : nat) enemy es :
  Enemy.ident enemy = m -> others m (survivors enemy es) = others m es.
Proof.
  intros <-. rewrite survivors_filter. unfold others.
  induction es as [|a es IH]; [reflexivity|].
  cbn [filter]. destruct (negb _) eqn:E; cbn [filter]; rewrite ?E, IH;
    reflexivity.
Qed.

Lemma others_all (m : nat) es : lookup m es = None -> others m es = es.
Proof.
  unfold lookup, others. induction es as [|a es IH]; [reflexivity|].
  cbn [find filter]. destruct (Nat.eqb (Enemy.ident a) m); [discriminate|].
  intros F. cbn [negb]. rewrite (IH F). reflexivity.
Qed.

Section Kills.
Context {H : Host}.

Lemma shoot_kills s s' :
  shoot s = Some s' ->
  kills s' =
  match shotOutcome s with
  | Kill _ => S (kills s)
  | _ => kills s
  end.
Proof.
  intros E. apply shoot_outcome in E. unfold kills.
  destruct (shotOutcome s); [subst; reflexivity | | |];
    destruct E as (-> & _); reflexivity.
Qed.

(** A shot that strikes [m] leaves the health of every other enemy as it
    was, and a replacement comes with health 100. *)
Lemma shoot_others (m : nat) s s' :
  victim s = Some m ->
  shoot s = Some s' ->
  Forall (fun h => h = 100%Z) (map Enemy.health (others m (enemies s))) ->
  Forall (fun h => h = 100%Z) (map Enemy.health (others m (enemies s'))).
Proof.
  unfold victim. intros V E F. apply shoot_outcome in E.
  destruct (shotOutcome s) as [| |enemy|enemy]; try discriminate;
    injection V as V.
  - destruct E as (_ & -> & _). rewrite others_afterHit; assumption.
  - destruct E as (_ & E). destruct (_ <? 5)%nat.
    + destruct E as (_ & x & z & _ & ->). unfold others.
      rewrite filter_app, map_app. apply Forall_app. split.
      * fold (others m (survivors enemy (enemies s))).
        rewrite others_survivors; assumption.
      * cbn [filter]. destruct (negb _); repeat constructor.
    + destruct E as (_ & ->). rewrite others_survivors; assumption.
Qed.

(** While every enemy has more than 34 health, a shot kills nobody. *)
Lemma shoot_no_kill (L : Z) s s' :
  (34 < L)%Z ->
  Forall (fun h => (L <= h <= 100)%Z) (map Enemy.health (enemies s)) ->
  shoot s = Some s' ->
  kills s' = kills s /\
  Forall (fun h => (L - 34 <= h <= 100)%Z) (map Enemy.health (enemies s')).
Proof.
  intros LL F E. rewrite (shoot_kills _ _ E). apply shoot_outcome in E.
  assert (W : Forall (fun h => (L - 34 <= h <= 100)%Z)
                (map Enemy.health (enemies s))).
  { eapply Forall_impl; [|exact F]. intros h; cbv beta; lia. }
  destruct (shotOutcome s) as [| |enemy|enemy] eqn:O.
  - subst. auto.
  - destruct E as (_ & -> & _). auto.
  - destruct E as (_ & -> & _). split; [reflexivity|].
    destruct (shotOutcome_hit s enemy (or_introl O)) as (M & _).
    apply afterHit_healths; [|exact W].
    apply (in_map Enemy.health) in M.
    rewrite Forall_forall in F. apply F in M. lia.
  - destruct (shotOutcome_hit s enemy (or_intror O)) as (M & KK).
    apply (in_map Enemy.health) in M.
    rewrite Forall_forall in F. apply F in M.
    assert (K : (Enemy.health enemy - 34 <= 0)%Z) by (apply KK; exact O).
    lia.
Qed.

(** The outcome of a shot that strikes [m], from the health of [m]. *)
Lemma victim_outcome (m : nat) (h : Z) s :
  victim s = Some m ->
  healthOf m s = Some h ->
  (0 < playerAmmo s)%Z /\ isReloading s = false /\
  exists enemy,
    hitEnemy s = Some enemy /\ Enemy.ident enemy = m /\
    Enemy.health enemy = h /\
    shotOutcome s = (if (h - 34 <=? 0)%Z then Kill enemy else Wound enemy).
Proof.
  unfold victim. intros V Hh.
  destruct (shotOutcome s) as [| |enemy|enemy] eqn:O; try discriminate;
    injection V as V.
  - destruct (shotOutcome_inv s enemy (or_introl O)) as (F & A & R).
    destruct (shotOutcome_hit s enemy (or_introl O)) as (_ & KK).
    pose proof (lookup_hitEnemy _ _ F) as Lk. subst m.
    unfold healthOf in Hh. rewrite Lk in Hh. injection Hh as Hh.
    split; [exact A|]. split; [exact R|]. exists enemy.
    repeat split; auto. subst h.
    destruct (_ <=? 0)%Z eqn:D; [|reflexivity].
    apply Z.leb_le in D. apply KK in D. congruence.
  - destruct (shotOutcome_inv s enemy (or_intror O)) as (F & A & R).
    destruct (shotOutcome_hit s enemy (or_intror O)) as (_ & KK).
    pose proof (lookup_hitEnemy _ _ F) as Lk. subst m.
    unfold healthOf in Hh. rewrite Lk in Hh. injection Hh as Hh.
    split; [exact A|]. split; [exact R|]. exists enemy.
    repeat split; auto. subst h.
    replace (Enemy.health enemy - 34 <=? 0)%Z with true; [reflexivity|].
    symmetry. apply Z.leb_le. apply KK. exact O.
Qed.

End Kills.

Lemma healthOf_alive (m : nat) (h : Z) s :
  healthOf m s = Some h -> In m (map Enemy.ident (enemies s)).
Proof.
  unfold healthOf, lookup.
  destruct (find _ (enemies s)) as [e|] eqn:F; [|discriminate].
  intros _. apply find_some in F. destruct F as [I E].
  apply Nat.eqb_eq in E. subst m. apply in_map. exact I.
Qed.

(** C3.  An enemy [m] with health 100 in a state the engine can reach:
    after any run in which [n] shots struck it, [n] is at most 3 and [m]
    is alive with health [100 - 34 n] exactly when that number is
    positive, removed otherwise.  And the scenario: with 5 rounds in the
    magazine, every enemy at 100, five calls of [shoot] of which the first
    three strike [m] leave it at 66, then 32, then remove it at -2; the
    magazine ends at 0; [onKill] is invoked once, by the third shot. *)
Theorem damage_and_removal {H : Host} (s : GameEngine) (m : nat) :
  reachable s ->
  healthOf m s = Some 100%Z ->
  (forall ops s',
     run ops s = Some s' ->
     let n := hitsOn m ops s in
     (n <= 3)%nat /\
     healthOf m s' =
       (if (100 - 34 * Z.of_nat n <=? 0)%Z then None
        else Some (100 - 34 * Z.of_nat n)%Z)) /\
  (forall s1 s2 s3 s4 s5,
     playerAmmo s = 5%Z ->
     isReloading s = false ->
     Forall (fun h => h = 100%Z) (map Enemy.health (enemies s)) ->
     shoot s = Some s1 -> victim s = Some m ->
     shoot s1 = Some s2 -> victim s1 = Some m ->
     shoot s2 = Some s3 -> victim s2 = Some m ->
     shoot s3 = Some s4 ->
     shoot s4 = Some s5 ->
     healthOf m s1 = Some 66%Z /\
     healthOf m s2 = Some 32%Z /\
     (exists enemy,
        hitEnemy s2 = Some enemy /\ Enemy.ident enemy = m /\
        Enemy.health (damaged enemy) = (-2)%Z) /\
     healthOf m s3 = None /\
     playerAmmo s5 = 0%Z /\
     kills s1 = kills s /\
     kills s2 = kills s /\
     kills s3 = S (kills s) /\
     kills s5 = S (kills s)).
Proof.
  intros R H100.
  assert (Lm : (m < nextId s)%nat).
  { apply reachable_enemies_ok in R. destruct R as (_ & _ & I & _).
    rewrite Forall_forall in I. apply I. eapply healthOf_alive; eauto. }
  split.
  - intros ops s' E n.
    apply (run_healthOf m ops s s' 0 Lm); [lia | exact H100 | exact E].
  - intros s1 s2 s3 s4 s5 A5 NR All E1 V0 E2 V1 E3 V2 E4 E5.
    (* the health of [m] *)
    pose proof (shoot_healthOf _ _ _ Lm E1) as H1.
    rewrite V0, Nat.eqb_refl, H100 in H1. change (afterDamage 100) with (Some 66%Z) in H1.
    assert (Lm1 : (m < nextId s1)%nat) by (apply shoot_nextId in E1; lia).
    pose proof (shoot_healthOf _ _ _ Lm1 E2) as H2.
    rewrite V1, Nat.eqb_refl, H1 in H2. change (afterDamage 66) with (Some 32%Z) in H2.
    assert (Lm2 : (m < nextId s2)%nat) by (apply shoot_nextId in E2; lia).
    pose proof (shoot_healthOf _ _ _ Lm2 E3) as H3.
    rewrite V2, Nat.eqb_refl, H2 in H3. change (afterDamage 32) with (@None Z) in H3.
    (* the outcomes of the first three shots *)
    destruct (victim_outcome _ _ _ V0 H100) as (A0 & R0 & e0 & _ & _ & _ & O0).
    destruct (victim_outcome _ _ _ V1 H1) as (A1 & R1 & e1 & _ & _ & _ & O1).
    destruct (victim_outcome _ _ _ V2 H2) as (A2 & R2 & e2 & F2 & I2 & Hh2 & O2).
    change (100 - 34 <=? 0)%Z with false in O0.
    change (66 - 34 <=? 0)%Z with false in O1.
    change (32 - 34 <=? 0)%Z with true in O2.
    pose proof (shoot_kills _ _ E1) as K1. rewrite O0 in K1.
    pose proof (shoot_kills _ _ E2) as K2. rewrite O1 in K2.
    pose proof (shoot_kills _ _ E3) as K3. rewrite O2 in K3.
    (* the other enemies *)
    assert (F0 : Forall (fun h => h = 100%Z)
                   (map Enemy.health (others m (enemies s)))).
    { apply filter_healths. exact All. }
    pose proof (shoot_others _ _ _ V0 E1 F0) as F1.
    pose proof (shoot_others _ _ _ V1 E2 F1) as F2'.
    pose proof (shoot_others _ _ _ V2 E3 F2') as F3.
    assert (N3 : lookup m (enemies s3) = None).
    { unfold healthOf in H3. destruct (lookup m (enemies s3)); [discriminate|].
      reflexivity. }
    rewrite (others_all _ _ N3) in F3.
    assert (B3 : Forall (fun h => (100 <= h <= 100)%Z)
                   (map Enemy.health (enemies s3))).
    { eapply Forall_impl; [|exact F3]. intros h; cbv beta; lia. }
    destruct (shoot_no_kill 100 _ _ ltac:(lia) B3 E4) as (K4 & B4).
    destruct (shoot_no_kill 66 _ _ ltac:(lia) B4 E5) as (K5 & _).
    (* the magazine *)
    pose proof (shoot_ammoView _ _ E1) as M1.
    pose proof (shoot_ammoView _ _ E2) as M2.
    pose proof (shoot_ammoView _ _ E3) as M3.
    pose proof (shoot_ammoView _ _ E4) as M4.
    pose proof (shoot_ammoView _ _ E5) as M5.
    unfold ammoView in M1, M2, M3, M4, M5.
    rewrite A5, NR in M1. cbn [Z.leb Z.compare orb] in M1.
    injection M1 as M1a _ M1r _.
    rewrite M1a, M1r in M2. cbn in M2. injection M2 as M2a _ M2r _.
    rewrite M2a, M2r in M3. cbn in M3. injection M3 as M3a _ M3r _.
    rewrite M3a, M3r in M4. cbn in M4. injection M4 as M4a _ M4r _.
    rewrite M4a, M4r in M5. cbn in M5. injection M5 as M5a _ _ _.
    repeat split; try assumption; try congruence.
    exists e2. repeat split; try assumption.
    unfold damaged. cbn [Enemy.health Enemy.set_health]. rewrite Hh2.
    reflexivity.
Qed.

Lemma damage_and_removal_witness :
  reachable (H := exampleHost castPastLine) scenarioEngine /\
  healthOf 12 scenarioEngine = Some 100%Z /\
  healthOf 12 (scenarioShots 1) = Some 66%Z /\
  healthOf 12 (scenarioShots 2) = Some 32%Z /\
  healthOf 12 (scenarioShots 3) = None /\
  playerAmmo (scenarioShots 5) = 0%Z /\
  kills (scenarioShots 5) = S (kills scenarioEngine).
Proof.
  assert (R : reachable (H := exampleHost castPastLine) scenarioEngine).
  { apply (constructed_run_reachable
             (spawnTape ++ repeat (1 # 2) 50 ++
              [1 # 2; 1 # 2; 1 # 2; 1 # 2;
               5 # 8; 17 # 32; 1 # 2; 1 # 2;
               1 # 2; 1 # 2; 1 # 2; 1 # 2])
             (repeat Shoot 25 ++ [KeyDown KeyW; UpdatePlayer (1 # 3)])).
    vm_compute. reflexivity. }
  assert (H100 : healthOf 12 scenarioEngine = Some 100%Z)
    by (vm_compute; reflexivity).
  destruct (damage_and_removal (H := exampleHost castPastLine)
              scenarioEngine 12 R H100) as (_ & W).
  assert (All : Forall (fun h => h = 100%Z)
                  (map Enemy.health (enemies scenarioEngine)))
    by (vm_compute; repeat constructor).
  destruct (W (scenarioShots 1) (scenarioShots 2) (scenarioShots 3)
              (scenarioShots 4) (scenarioShots 5))
    as (W1 & W2 & _ & W3 & W5 & _ & _ & _ & K5);
    try (vm_compute; reflexivity); try exact All.
  repeat split; assumption.
Defined.

(** ** Pitch *)

Lemma spawnPosition_suffix tape x z rest :
  spawnPosition tape = Some (x, z, rest) -> exists pre, tape = pre ++ rest.
Proof.
  assert (G : forall n tape, (length tape <= n)%nat ->
            spawnPosition tape = Some (x, z, rest) ->
            exists pre, tape = pre ++ rest).
  { induction n as [|n IH]; intros [|r1 [|r2 tape']] L E;
      try discriminate; simpl in L; try lia.
    cbn [spawnPosition] in E. cbv zeta in E.
    destruct (_ && _).
    - destruct (IH tape') as [pre ->]; [lia | exact E|].
      exists (r1 :: r2 :: pre). reflexivity.
    - injection E as _ _ <-. exists [r1; r2]. reflexivity. }
  apply (G (length tape)). lia.
Qed.

Section Pitch.
Context {H : Host}.

(** "Raycasting for hit detection" leaves the camera alone and consumes a
    prefix of the random numbers. *)
Lemma resolveHit_camera s s' :
  resolveHit s = Some s' ->
  camera s' = camera s /\ exists pre, entropy s = pre ++ entropy s'.
Proof.
  unfold resolveHit. intros E.
  destruct (hitEnemy s) as [target|];
    [|injection E as <-; split; [reflexivity | exists []; reflexivity]].
  cbv zeta in E. destruct (_ <=? 0)%Z;
    [|injection E as <-; split; [reflexivity | exists []; reflexivity]].
  unfold killEnemy in E. destruct (_ <? 5)%nat;
    [|injection E as <-; split; [reflexivity | exists []; reflexivity]].
  cbn [spawnEnemies newMesh] in E. fields in E.
  apply bind_Some in E. destruct E as [[[x z] rest] [P E]].
  apply spawnPosition_suffix in P. injection E as <-. fields. auto.
Qed.

Lemma recoil_rotation s s' :
  recoil s = Some s' ->
  exists r1 r2 rest,
    entropy s = r1 :: r2 :: rest /\
    Euler.x (Camera.rotation (camera s')) =
    Euler.x (Camera.rotation (camera s)) + (r1 - (1 # 2)) * (2 # 100).
Proof.
  unfold recoil, Math_random. intros E.
  destruct (entropy s) as [|r1 [|r2 rest]] eqn:T;
    cbn [bind] in E; fields in E; cbn [bind] in E; try discriminate.
  injection E as <-. exists r1, r2, rest. split; reflexivity.
Qed.

End Pitch.

Section PitchClamp.
Context {H : Host}.

(** [onMouseMove] under pointer lock: the pitch it stores is the
    requested one brought into the range. *)
Lemma onMouseMove_pitch movementX movementY s :
  isLocked s = true ->
  Euler.x (euler (onMouseMove movementX movementY s)) =
  Math_max (- Math_PI / 2) (Math_min (Math_PI / 2) (requestedPitch movementY s))
  /\
  camera (onMouseMove movementX movementY s) =
  set_camera_quaternion_from (camera s) (euler (onMouseMove movementX movementY s))
  /\
  Euler.y (euler (onMouseMove movementX movementY s)) =
  Euler.y (Euler_setFromQuaternion Euler.YXZ (Camera.quaternion (camera s)))
  - or_default movementX 0 * (2 # 1000)
  /\
  Euler.z (euler (onMouseMove movementX movementY s)) =
  Euler.z (Euler_setFromQuaternion Euler.YXZ (Camera.quaternion (camera s))).
Proof.
  intros L. unfold onMouseMove. rewrite L. cbn [negb]. fields.
  repeat split; reflexivity.
Qed.

Lemma pitch_clamped (x : Q) :
  - Math_PI / 2 <= Math_max (- Math_PI / 2) (Math_min (Math_PI / 2) x)
  <= Math_PI / 2 /\
  (Math_PI / 2 < x ->
   Math_max (- Math_PI / 2) (Math_min (Math_PI / 2) x) = Math_PI / 2) /\
  (x < - Math_PI / 2 ->
   Math_max (- Math_PI / 2) (Math_min (Math_PI / 2) x) = - Math_PI / 2).
Proof.
  unfold Math_max, Math_min.
  destruct (Qltb (Math_PI / 2) x) eqn:A.
  - replace (Qltb (Math_PI / 2) (- Math_PI / 2)) with false by reflexivity.
    apply Qltb_true in A.
    split; [split; [discriminate | apply Qle_refl]|].
    split; [reflexivity|].
    intros B. exfalso. apply (Qlt_irrefl x).
    apply (Qlt_trans _ _ _ B). apply (Qlt_trans _ (Math_PI / 2)); [|exact A].
    reflexivity.
  - apply Qltb_false in A. destruct (Qltb x (- Math_PI / 2)) eqn:B.
    + split; [split; [apply Qle_refl | discriminate]|].
      split; [|reflexivity].
      intros C. exfalso. apply (Qlt_irrefl x).
      apply (Qle_lt_trans _ _ _ A C).
    + apply Qltb_false in B. split; [auto|]. split.
      * intros C. exfalso. apply (Qlt_irrefl x).
        apply (Qle_lt_trans _ _ _ A C).
      * intros C. exfalso. apply (Qlt_irrefl x).
        apply (Qlt_le_trans _ _ _ C B).
Qed.

(** A call of [shoot] that fires adds the recoil to [camera.rotation.x]
    as it is. *)
Lemma shoot_rotation s s' :
  (0 < playerAmmo s)%Z ->
  isReloading s = false ->
  shoot s = Some s' ->
  exists r,
    In r (entropy s) /\
    Euler.x (Camera.rotation (camera s')) =
    Euler.x (Camera.rotation (camera s)) + (r - (1 # 2)) * (2 # 100).
Proof.
  intros A L E. unfold shoot in E.
  replace (playerAmmo s <=? 0)%Z with false in E
    by (symmetry; apply Z.leb_gt; exact A).
  rewrite L in E. cbn [orb] in E. cbv zeta in E.
  apply bind_Some in E. destruct E as [s2 [E2 E]].
  apply resolveHit_camera in E2. destruct E2 as (C2 & pre & T2).
  change (camera (fire s)) with (camera s) in C2.
  change (entropy (fire s)) with (entropy s) in T2.
  apply recoil_rotation in E. destruct E as (r1 & r2 & rest & T & X).
  exists r1. split.
  - rewrite T2, T. apply in_or_app. right. left. reflexivity.
  - rewrite X, C2. reflexivity.
Qed.

End PitchClamp.

(** C8, what the code does.  A mouse movement under pointer lock stores
    in [this.euler.x] the requested pitch brought into
    [-Math.PI / 2, Math.PI / 2] -- a request beyond a bound gives the
    bound -- and orients the camera by [this.euler].  A call of [shoot]
    that fires adds [(r - 0.5) * 0.02] to [camera.rotation.x], [r] being
    one of the random numbers, and clamps nothing.  So, on a host that
    reads the identity as the angles 0, 0, 0 and a pure pitch of
    [Math.PI / 2] as [rotation.x] within 0.001 of [Math.PI / 2], as
    three.js does: a new engine, the pointer locked, the mouse pushed far
    up and a shot with random numbers above 0.6 end with
    [camera.rotation.x] above [Math.PI / 2]. *)
Theorem recoil_bypasses_pitch_clamp {H : Host} (s : GameEngine) :
  (forall movementX movementY,
     isLocked s = true ->
     let s' := onMouseMove movementX movementY s in
     - Math_PI / 2 <= Euler.x (euler s') <= Math_PI / 2 /\
     (Math_PI / 2 < requestedPitch movementY s ->
      Euler.x (euler s') = Math_PI / 2) /\
     (requestedPitch movementY s < - Math_PI / 2 ->
      Euler.x (euler s') = - Math_PI / 2) /\
     Camera.quaternion (camera s') =
     Quaternion_setFromEuler Euler.YXZ (euler s')) /\
  (forall s',
     (0 < playerAmmo s)%Z ->
     isReloading s = false ->
     shoot s = Some s' ->
     exists r,
       In r (entropy s) /\
       Euler.x (Camera.rotation (camera s')) =
       Euler.x (Camera.rotation (camera s)) + (r - (1 # 2)) * (2 # 100)) /\
  (forall tape s3,
     constructor tape = Some s ->
     (let e := Euler_setFromQuaternion Euler.YXZ Quaternion.identity in
      Euler.x e == 0 /\ Euler.y e == 0 /\ Euler.z e == 0) ->
     (forall e,
        Euler.x e == Math_PI / 2 -> Euler.y e == 0 -> Euler.z e == 0 ->
        Math_PI / 2 - (1 # 1000) <=
        Euler.x
          (Euler_setFromQuaternion Euler.XYZ
             (Quaternion_setFromEuler Euler.YXZ e))) ->
     (forall r, In r (entropy s) -> 6 # 10 < r) ->
     run lookUpAndShoot s = Some s3 ->
     Math_PI / 2 < Euler.x (Camera.rotation (camera s3))).
Proof.
  split; [|split].
  - intros movementX movementY L s'. subst s'.
    destruct (onMouseMove_pitch movementX movementY s L) as (X & C & _).
    destruct (pitch_clamped (requestedPitch movementY s)) as (B & U & D).
    rewrite X. split; [exact B|]. split; [exact U|]. split; [exact D|].
    rewrite C. reflexivity.
  - intros s' A L E. apply shoot_rotation; assumption.
  - intros tape s3 K (I0x & I0y & I0z) P R E.
    apply constructor_fields in K. destruct K as (Kc & _ & Ka & _).
    injection Ka as Ka _ Kr _.
    unfold lookUpAndShoot in E. cbn [run step bind] in E.
    unfold onPointerLockChange in E.
    remember (set_isLocked true s) as s1 eqn:E1.
    assert (L1 : isLocked s1 = true) by (rewrite E1; reflexivity).
    assert (C1 : Camera.quaternion (camera s1) = Quaternion.identity)
      by (rewrite E1; fields; rewrite Kc; reflexivity).
    destruct (onMouseMove_pitch 0 (-1000) s1 L1) as (X & C & Y & Z).
    remember (onMouseMove 0 (-1000) s1) as s2 eqn:E2.
    assert (A2 : (0 < playerAmmo s2)%Z /\ isReloading s2 = false /\
                 entropy s2 = entropy s).
    { rewrite E2. unfold onMouseMove. rewrite L1. cbn [negb]. fields.
      rewrite E1. fields. rewrite Ka, Kr. repeat split. }
    destruct A2 as (A2 & L2 & T2).
    apply bind_Some in E. destruct E as [t [Et E]]. injection E as <-.
    destruct (shoot_rotation _ _ A2 L2 Et) as (r & Ir & Xr).
    rewrite T2 in Ir. apply R in Ir.
    assert (Q2 : Math_PI / 2 < requestedPitch (-1000) s1).
    { unfold requestedPitch. rewrite C1.
      change (or_default (-1000) 0) with (-1000).
      assert (T : Math_PI / 2 < 2) by reflexivity.
      assert (V : Euler.x (Euler_setFromQuaternion Euler.YXZ
                             Quaternion.identity) - -1000 * (2 # 1000) == 2)
        by (rewrite I0x; reflexivity).
      rewrite V. exact T. }
    destruct (pitch_clamped (requestedPitch (-1000) s1)) as (_ & U & _).
    rewrite (U Q2) in X.
    assert (G : Math_PI / 2 - (1 # 1000) <=
                Euler.x (Camera.rotation (camera s2))).
    { rewrite C. unfold set_camera_quaternion_from.
      cbn [Camera.rotation]. apply P.
      - rewrite X. reflexivity.
      - rewrite Y, C1. change (or_default 0 0) with 0. rewrite I0y.
        reflexivity.
      - rewrite Z, C1. exact I0z. }
    rewrite Xr. revert G Ir.
    generalize (Math_PI / 2) (Euler.x (Camera.rotation (camera s2))).
    intros hp x G Ir. lra.
Qed.

Lemma recoil_bypasses_pitch_clamp_witness :
  Math_PI / 2 <
  Euler.x
    (Camera.rotation
       (camera
          (the (run (H := angleHost) lookUpAndShoot
                  (the (constructor (spawnTape ++ [9 # 10; 9 # 10]))))))).
Proof.
  destruct (constructor (spawnTape ++ [9 # 10; 9 # 10])) as [s|] eqn:K;
    [|vm_compute in K; discriminate].
  destruct (run (H := angleHost) lookUpAndShoot (the (Some s))) as [s3|] eqn:E;
    [|vm_compute in K; injection K as <-; vm_compute in E; discriminate].
  destruct (recoil_bypasses_pitch_clamp (H := angleHost) s) as (_ & _ & W).
  apply (W (spawnTape ++ [9 # 10; 9 # 10]) s3 K).
  - repeat split; reflexivity.
  - intros e X _ _. cbn. rewrite X. generalize (Math_PI / 2). intros hp. lra.
  - vm_compute in K. injection K as <-. intros r I.
    vm_compute in I. destruct I as [<- | [<- | []]]; reflexivity.
  - exact E.
Defined.

(** * Further properties *)

(** ** Further properties of the player *)

(** X1.  Whatever the state and the elapsed time, [updatePlayer] leaves
    the player at height 10 or above and within 95 of the centre on both
    horizontal axes; so does every state the engine can reach. *)
Theorem player_stays_in_arena {H : Host} (s : GameEngine) :
  reachable s ->
  position_ok (Camera.position (camera s)) /\
  forall delta t, position_ok (Camera.position (camera (updatePlayer delta t))).
Proof.
  intros R. split; [apply reachable_position_ok; exact R|].
  intros delta t. apply updatePlayer_position_ok.
Qed.

Lemma player_stays_in_arena_witness :
  reachable (H := exampleHost castNothing) walkingEngine /\
  position_ok (Camera.position (camera walkingEngine)).
Proof.
  assert (R : reachable (H := exampleHost castNothing) walkingEngine).
  { apply (constructed_run_reachable spawnTape
             [KeyDown KeyW; UpdatePlayer (1 # 3); UpdatePlayer (1 # 3)]).
    vm_compute. reflexivity. }
  split; [exact R|]. exact (proj1 (player_stays_in_arena walkingEngine R)).
Defined.

Lemma collideWalls_canJump {H : Host} box prev ws delta s :
  canJump (collideWalls box prev ws (integrate delta (accelerate delta s))) =
  canJump s.
Proof.
  induction ws as [|w ws IH]; cbn [collideWalls]; [reflexivity|].
  destruct (Box3.intersectsBox _ _); [reflexivity | exact IH].
Qed.

(** X2.  A jump needs the ground: [Space] adds 15 to the vertical velocity
    only when [canJump] is set and clears the flag, so a second [Space]
    changes nothing; and [updatePlayer] sets the flag only by landing, at
    height 10 with vertical velocity 0. *)
Theorem no_double_jump {H : Host} (s : GameEngine) :
  onKeyDown Space (onKeyDown Space s) = onKeyDown Space s /\
  canJump (onKeyDown Space s) = false /\
  (canJump s = false -> velocity (onKeyDown Space s) = velocity s) /\
  (canJump s = true ->
   Vector3.y (velocity (onKeyDown Space s)) = Vector3.y (velocity s) + 15) /\
  (forall delta,
     canJump s = false ->
     canJump (updatePlayer delta s) = true ->
     Vector3.y (Camera.position (camera (updatePlayer delta s))) = 10 /\
     Vector3.y (velocity (updatePlayer delta s)) = 0).
Proof.
  split; [|split; [|split; [|split]]].
  - cbn [onKeyDown]. fields. reflexivity.
  - reflexivity.
  - intros C. cbn [onKeyDown]. rewrite C. reflexivity.
  - intros C. cbn [onKeyDown]. rewrite C. reflexivity.
  - intros delta C. unfold updatePlayer.
    remember (collideWalls _ _ _ _) as s3 eqn:E3.
    assert (C3 : canJump s3 = false).
    { rewrite E3, collideWalls_canJump. exact C. }
    clear E3. unfold arenaBounds, groundCollision.
    destruct (Qltb _ 10); fields; [|congruence].
    intros _. split; reflexivity.
Qed.

Lemma no_double_jump_witness :
  canJump walkingEngine = true /\
  Vector3.y (velocity (onKeyDown Space walkingEngine)) =
  Vector3.y (velocity walkingEngine) + 15.
Proof.
  assert (C : canJump walkingEngine = true) by (vm_compute; reflexivity).
  split; [exact C|].
  destruct (no_double_jump (H := exampleHost castNothing) walkingEngine)
    as (_ & _ & _ & J & _).
  exact (J C).
Defined.

(** ** Further properties of the handlers *)

(** X3.  While the pointer is not locked the game is paused for the
    mouse and the frame loop: mouse movements, mouse buttons and animation
    frames return the state unchanged.  A click with another button than
    the left one does nothing either. *)
Theorem unlocked_pointer_pauses {H : Host} (s : GameEngine) :
  (isLocked s = false ->
   (forall movementX movementY, onMouseMove movementX movementY s = s) /\
   (forall button, onMouseDown button s = Some s) /\
   (forall delta currentTime, animate delta currentTime s = Some s)) /\
  (forall button, button <> 0%Z -> onMouseDown button s = Some s).
Proof.
  split.
  - intros L. unfold onMouseMove, onMouseDown, animate. rewrite L.
    repeat split; reflexivity.
  - intros button N. unfold onMouseDown.
    replace (button =? 0)%Z with false by (symmetry; apply Z.eqb_neq; exact N).
    rewrite orb_true_r. reflexivity.
Qed.

Lemma unlocked_pointer_pauses_witness :
  isLocked aimingEngine = false /\
  animate (H := exampleHost castFirst) (1 # 60) 1000000 aimingEngine =
  Some aimingEngine.
Proof.
  assert (L : isLocked aimingEngine = false) by (vm_compute; reflexivity).
  split; [exact L|].
  destruct (unlocked_pointer_pauses (H := exampleHost castFirst) aimingEngine)
    as (W & _).
  destruct (W L) as (_ & _ & A). apply A.
Defined.

Section FixedWorld.
Context {H : Host}.

Lemma step_walls op s s' : step op s = Some s' -> walls s' = walls s.
Proof.
  intros E. apply step_cases in E.
  destruct E as [Q | [E | (delta & currentTime & s1 & Q & E)]].
  - destruct Q as (_ & _ & _ & W & _). exact W.
  - apply shoot_frame in E. rewrite (f_equal walls E). reflexivity.
  - apply updateEnemies_spec in E. destruct E as (F & _).
    rewrite (f_equal walls F). fields.
    destruct Q as (_ & _ & _ & W & _). exact W.
Qed.

End FixedWorld.

Lemma reachable_walls {H : Host} (s : GameEngine) :
  reachable s -> walls s = walls (createCover (createArena (fresh []))).
Proof.
  induction 1 as [tape s E | op s s' _ IH E].
  - apply constructor_fields in E. destruct E as (_ & _ & _ & _ & ->).
    vm_compute. reflexivity.
  - apply step_walls in E. congruence.
Qed.

(** X4.  The obstacles are fixed at construction: in every state the
    engine can reach, [walls] holds the twelve meshes that [createArena]
    and [createCover] built, whatever was played and whatever random
    numbers were drawn. *)
Theorem walls_are_fixed {H : Host} (s : GameEngine) :
  reachable s ->
  walls s = walls (createCover (createArena (fresh []))) /\
  length (walls s) = 12%nat.
Proof.
  intros R. apply reachable_walls in R.
  split; [exact R|]. rewrite R. reflexivity.
Qed.

Lemma walls_are_fixed_witness :
  reachable (H := exampleHost castFirst) killingEngine /\
  length (walls killingEngine) = 12%nat.
Proof.
  assert (R : reachable (H := exampleHost castFirst) killingEngine).
  { apply (constructed_run_reachable
             (spawnTape ++ [1 # 2; 1 # 2; 1 # 2; 1 # 2;
                            5 # 8; 17 # 32; 1 # 2; 1 # 2])
             [Shoot; Shoot; Shoot]).
    vm_compute. reflexivity. }
  split; [exact R|]. exact (proj2 (walls_are_fixed killingEngine R)).
Defined.

(** X5.  Only the frame update moves the player: every operation other
    than [updatePlayer] and [animate] -- keys, mouse, shots with their
    recoil, reloads, timers, the enemies' update -- leaves the position of
    the camera where it was. *)
Theorem only_frames_move_player {H : Host} (op : Op) (s s' : GameEngine) :
  step op s = Some s' ->
  (forall delta, op <> UpdatePlayer delta) ->
  (forall delta currentTime, op <> Animate delta currentTime) ->
  Camera.position (camera s') = Camera.position (camera s).
Proof.
  intros E N1 N2. destruct op; cbn [step] in E.
  - injection E as <-. destruct code; cbn [onKeyDown]; try reflexivity.
    + destruct (canJump s); reflexivity.
    + unfold reload. destruct (_ || _); reflexivity.
  - injection E as <-. destruct code; reflexivity.
  - injection E as <-. unfold onMouseMove. destruct (negb _); reflexivity.
  - unfold onMouseDown in E. destruct (_ || _).
    + injection E as <-. reflexivity.
    + apply shoot_position in E. exact E.
  - injection E as <-. reflexivity.
  - injection E as <-. unfold timeout. destruct (pending s); reflexivity.
  - exfalso. eapply N2. reflexivity.
  - apply shoot_position in E. exact E.
  - injection E as <-. unfold reload. destruct (_ || _); reflexivity.
  - exfalso. eapply N1. reflexivity.
  - apply updateEnemies_spec in E. destruct E as (F & _).
    rewrite (f_equal camera F). reflexivity.
Qed.

Lemma only_frames_move_player_witness :
  Camera.position
    (camera (the (step (H := exampleHost castFirst) Shoot aimingEngine))) =
  Camera.position (camera aimingEngine).
Proof.
  destruct (step (H := exampleHost castFirst) Shoot aimingEngine)
    as [s'|] eqn:E; [|vm_compute in E; discriminate].
  cbn [the].
  apply (only_frames_move_player (H := exampleHost castFirst) Shoot
           aimingEngine s' E); intros; discriminate.
Defined.

(** X6.  The life of a reload, in every state the engine can reach: the
    magazine holds at most 30 rounds; at most one reload callback is
    scheduled, and one is scheduled exactly while [isReloading] is set; and
    when it runs, the flag is cleared, nothing remains scheduled, the
    magazine is full or the reserve is empty, and the new magazine count
    is reported through [onAmmoChange]. *)
Theorem reload_lifecycle {H : Host} (s : GameEngine) :
  reachable s ->
  (playerAmmo s <= 30)%Z /\
  (length (pending s) <= 1)%nat /\
  (isReloading s = true <-> pending s <> []) /\
  (isReloading s = true ->
   isReloading (timeout s) = false /\
   pending (timeout s) = [] /\
   (playerAmmo (timeout s) = 30%Z \/ playerReserveAmmo (timeout s) = 0%Z) /\
   calls (timeout s) = onAmmoChange (playerAmmo (timeout s)) :: calls s).
Proof.
  intros R. apply reachable_ammo_ok in R.
  destruct R as (Ha & Hr & _ & Hp). unfold timeout.
  destruct (pending s) as [|t [|t' rest]]; [| |tauto].
  - split; [lia|]. split; [cbn; lia|]. split; [split; congruence|].
    congruence.
  - destruct Hp as [F T]. split; [lia|]. split; [cbn; lia|].
    split; [split; [discriminate | auto]|].
    intros _. unfold reloadDone. fields.
    split; [reflexivity|]. split; [reflexivity|]. split; [|reflexivity].
    rewrite T. lia.
Qed.

Lemma reload_lifecycle_witness :
  reachable (H := exampleHost castNothing) reloadingEngine /\
  isReloading reloadingEngine = true /\
  isReloading (timeout reloadingEngine) = false /\
  pending (timeout reloadingEngine) = [].
Proof.
  assert (R : reachable (H := exampleHost castNothing) reloadingEngine).
  { apply (constructed_run_reachable (spawnTape ++ [1 # 2; 1 # 2])
             [Shoot; Reload]).
    vm_compute. reflexivity. }
  assert (L : isReloading reloadingEngine = true) by (vm_compute; reflexivity).
  destruct (reload_lifecycle reloadingEngine R) as (_ & _ & _ & W).
  destruct (W L) as (W1 & W2 & _).
  split; [exact R|]. split; [exact L|]. split; [exact W1 | exact W2].
Defined.

(** X7.  The enemy array never holds a dead enemy or the same enemy
    twice: in every state the engine can reach the enemies are distinct
    objects, each created before [nextId], and the health of each is 100,
    66 or 32 -- positive, and 100 minus a multiple of 34. *)
Theorem live_enemies_distinct_and_alive {H : Host} (s : GameEngine) :
  reachable s ->
  NoDup (map Enemy.ident (enemies s)) /\
  forall enemy,
    In enemy (enemies s) ->
    (Enemy.ident enemy < nextId s)%nat /\
    (0 < Enemy.health enemy <= 100)%Z /\
    exists n, (n <= 2)%nat /\ Enemy.health enemy = (100 - 34 * Z.of_nat n)%Z.
Proof.
  intros R. apply reachable_enemies_ok in R.
  destruct R as (_ & N & I & Hh & _). split; [exact N|].
  intros enemy E. rewrite Forall_forall in I, Hh.
  specialize (I _ (in_map Enemy.ident _ _ E)).
  specialize (Hh _ (in_map Enemy.health _ _ E)).
  split; [exact I|]. cbn [In] in Hh.
  destruct Hh as [Hh | [Hh | [Hh | []]]]; rewrite <- Hh;
    (split; [lia|]);
    [exists 0%nat | exists 1%nat | exists 2%nat]; split; cbn; lia.
Qed.

Lemma live_enemies_distinct_and_alive_witness :
  reachable (H := exampleHost castFirst) killingEngine /\
  NoDup (map Enemy.ident (enemies killingEngine)).
Proof.
  assert (R : reachable (H := exampleHost castFirst) killingEngine).
  { apply (constructed_run_reachable
             (spawnTape ++ [1 # 2; 1 # 2; 1 # 2; 1 # 2;
                            5 # 8; 17 # 32; 1 # 2; 1 # 2])
             [Shoot; Shoot; Shoot]).
    vm_compute. reflexivity. }
  split; [exact R|].
  exact (proj1 (live_enemies_distinct_and_alive killingEngine R)).
Defined.

(** X8.  What an enemy's shot does once it is attempted.  When a wall
    is met on the way at a distance not beyond the player, the shot is
    swallowed: no random number is drawn and nothing but [lastShot]
    changes.  Otherwise one random number [r] decides: with [r <= 0.3]
    the shot misses and only the random source advances; with [r > 0.3]
    the player loses exactly 10 health, the new health is reported through
    [onHealthChange], and [onDeath] is invoked exactly when it is not
    positive. *)
Theorem enemy_shot_outcome {H : Host}
  (currentTime : Z) (enemy : Enemy.t) (s : GameEngine) :
  shotDue
    (distanceTo3 (Mesh.position (Enemy.mesh enemy))
       (Camera.position (camera s))) currentTime enemy = true ->
  (playerVisible enemy s = false ->
   shootAtPlayer currentTime enemy s =
   Some (Enemy.set_lastShot enemy currentTime, s)) /\
  (playerVisible enemy s = true ->
   forall r rest,
     entropy s = r :: rest ->
     exists s',
       shootAtPlayer currentTime enemy s =
       Some (Enemy.set_lastShot enemy currentTime, s') /\
       entropy s' = rest /\
       if Qltb (3 # 10) r then
         playerHealth s' = (playerHealth s - 10)%Z /\
         calls s' =
           (if (playerHealth s - 10 <=? 0)%Z then [onDeath] else []) ++
           onHealthChange (playerHealth s - 10) :: calls s
       else s' = set_entropy rest s).
Proof.
  intros D. unfold shootAtPlayer, playerVisible. rewrite D. split.
  - intros V. rewrite V. reflexivity.
  - intros V r rest E. rewrite V. unfold Math_random. rewrite E.
    cbn [bind]. destruct (Qltb (3 # 10) r).
    + eexists. split; [reflexivity|]. unfold hitPlayer. fields.
      destruct (_ <=? 0)%Z; fields; repeat split; reflexivity.
    + eexists. split; [reflexivity|]. split; reflexivity.
Qed.

Lemma enemy_shot_outcome_witness :
  shootAtPlayer (H := exampleHost castFirst) 1000000 sniper aimingEngine =
  Some (Enemy.set_lastShot sniper 1000000, aimingEngine).
Proof.
  assert (D : shotDue
                (distanceTo3 (H := exampleHost castFirst)
                   (Mesh.position (Enemy.mesh sniper))
                   (Camera.position (camera aimingEngine)))
                1000000 sniper = true)
    by (vm_compute; reflexivity).
  assert (V : playerVisible (H := exampleHost castFirst) sniper aimingEngine
              = false)
    by (vm_compute; reflexivity).
  exact (proj1 (enemy_shot_outcome (H := exampleHost castFirst)
                  1000000 sniper aimingEngine D) V).
Defined.

Section Reports.
Context {H : Host}.

Lemma afterHits_add (n2 n1 : nat) (h : Z) (cs : list Callback) :
  afterHits (n2 + n1) h cs =
  let '(h1, cs1) := afterHits n1 h cs in afterHits n2 h1 cs1.
Proof.
  induction n2 as [|n2 IH]; cbn [afterHits Nat.add].
  - destruct (afterHits n1 h cs). reflexivity.
  - rewrite IH. destruct (afterHits n1 h cs) as [h1 cs1]. reflexivity.
Qed.

Lemma retarget_state delta enemy s enemy' s' :
  retarget delta enemy s = Some (enemy', s') ->
  s' = set_entropy (entropy s') s.
Proof.
  unfold retarget. intros E1. destruct (Qltb 2 _).
  - apply bind_Some in E1. destruct E1 as [[r t1] [R1 E1]].
    apply Math_random_spec in R1. destruct R1 as [_ R1].
    destruct (Qltb _ r).
    + injection E1 as _ <-. exact R1.
    + apply bind_Some in E1. destruct E1 as [[rx t2] [R2 E1]].
      apply bind_Some in E1. destruct E1 as [[rz t3] [R3 E1]].
      apply Math_random_spec in R2. destruct R2 as [_ R2].
      apply Math_random_spec in R3. destruct R3 as [_ R3].
      injection E1 as _ <-. rewrite R3, R2, R1. destruct s; reflexivity.
  - injection E1 as _ <-. destruct s; reflexivity.
Qed.

Lemma updateEnemy_hits delta currentTime enemy s enemy' s' :
  updateEnemy delta currentTime enemy s = Some (enemy', s') ->
  exists n, (n <= 1)%nat /\
    (playerHealth s', calls s') = afterHits n (playerHealth s) (calls s).
Proof.
  unfold updateEnemy. intros E.
  apply bind_Some in E. destruct E as [[e1 s1] [E1 E]].
  apply retarget_state in E1.
  assert (T1 : calls s1 = calls s /\ playerHealth s1 = playerHealth s).
  { rewrite E1. auto. }
  destruct T1 as (C1 & P1). rewrite <- C1, <- P1.
  clear E1 C1 P1. unfold shootAtPlayer in E.
  destruct (shotDue _ _ _); [|injection E as _ <-; exists 0%nat; auto].
  match type of E with (if ?b then _ else _) = _ => destruct b end;
    [|injection E as _ <-; exists 0%nat; auto].
  apply bind_Some in E. destruct E as [[r t1] [R1 E]].
  apply Math_random_spec in R1. destruct R1 as [_ R1].
  assert (T1 : calls t1 = calls s1 /\ playerHealth t1 = playerHealth s1).
  { rewrite R1. auto. }
  destruct T1 as (C1 & P1). rewrite <- C1, <- P1.
  destruct (Qltb _ r); injection E as _ <-; [|exists 0%nat; auto].
  exists 1%nat. split; [lia|]. unfold hitPlayer. fields.
  cbn [afterHits]. destruct (_ <=? 0)%Z; reflexivity.
Qed.

Lemma forEachEnemy_hits delta currentTime es : forall s es' s',
  forEachEnemy delta currentTime es s = Some (es', s') ->
  exists n, (n <= length es)%nat /\
    (playerHealth s', calls s') = afterHits n (playerHealth s) (calls s).
Proof.
  induction es as [|enemy rest IH]; cbn [forEachEnemy]; intros s es' s' E.
  - injection E as _ <-. exists 0%nat. auto.
  - apply bind_Some in E. destruct E as [[e1 s1] [E1 E]].
    apply bind_Some in E. destruct E as [[r2 s2] [E2 E]].
    injection E as _ <-.
    apply updateEnemy_hits in E1. destruct E1 as (n1 & L1 & E1).
    apply IH in E2. destruct E2 as (n2 & L2 & E2).
    exists (n2 + n1)%nat. split; [cbn [length]; lia|].
    rewrite afterHits_add, <- E1. exact E2.
Qed.

Lemma updateEnemies_hits delta currentTime s s' :
  updateEnemies delta currentTime s = Some s' ->
  exists n, (n <= length (enemies s))%nat /\
    (playerHealth s', calls s') = afterHits n (playerHealth s) (calls s).
Proof.
  unfold updateEnemies. intros E.
  apply bind_Some in E. destruct E as [[es s1] [E1 E]].
  injection E as <-. apply forEachEnemy_hits in E1. exact E1.
Qed.

Lemma afterHits_health (n : nat) (h : Z) (cs : list Callback) :
  fst (afterHits n h cs) = (h - 10 * Z.of_nat n)%Z.
Proof.
  induction n as [|n IH]; cbn [afterHits]; [cbn; lia|].
  destruct (afterHits n h cs) as [h1 cs1]. cbn [fst] in *. lia.
Qed.

Lemma afterHits_taken (n : nat) (h : Z) (cs : list Callback) :
  Z.of_nat (length (filter is_onHealthChange (snd (afterHits n h cs)))) =
  (Z.of_nat (length (filter is_onHealthChange cs)) + Z.of_nat n)%Z.
Proof.
  induction n as [|n IH]; cbn [afterHits]; [cbn; lia|].
  destruct (afterHits n h cs) as [h1 cs1]. cbn [fst snd] in *.
  destruct (_ <=? 0)%Z; cbn [app filter is_onHealthChange is_onDeath length];
    lia.
Qed.

(** Every step is silent, or runs the scheduled reload, or is a call of
    [shoot], or is a call of [updateEnemies] after a silent change. *)
Lemma step_kinds op s s' :
  step op s = Some s' ->
  silent s s' \/
  s' = timeout s \/
  shoot s = Some s' \/
  exists delta currentTime s1,
    silent s s1 /\ updateEnemies delta currentTime s1 = Some s'.
Proof.
  assert (S0 : forall t, silent t t) by (intros t; unfold silent; auto 8).
  assert (SP : forall delta t, silent t (updatePlayer delta t)).
  { intros delta t. pose proof (updatePlayer_frame delta t) as F.
    unfold player_frame in F. unfold silent.
    rewrite (f_equal enemies F), (f_equal nextId F),
      (f_equal playerHealth F), (f_equal playerAmmo F),
      (f_equal playerReserveAmmo F), (f_equal calls F).
    fields. auto 8. }
  assert (SR : forall t, silent t (reload t)).
  { intros t. unfold reload. destruct (_ || _); [apply S0|].
    unfold silent. fields. auto 8. }
  destruct op; cbn [step]; intros E.
  - left. injection E as <-. destruct code; cbn [onKeyDown];
      try apply SR; try (unfold silent; fields; auto 8; fail).
    destruct (canJump s); unfold silent; fields; auto 8.
  - left. injection E as <-.
    destruct code; cbn [onKeyUp]; unfold silent; fields; auto 8.
  - left. injection E as <-. unfold onMouseMove.
    destruct (negb _); unfold silent; fields; auto 8.
  - unfold onMouseDown in E. destruct (_ || _); [left | auto].
    injection E as <-. apply S0.
  - left. injection E as <-. unfold silent, onPointerLockChange. fields.
    auto 8.
  - right. left. injection E as <-. reflexivity.
  - unfold animate in E. destruct (negb _).
    + left. injection E as <-. apply S0.
    + right. right. right. exists delta, currentTime, (updatePlayer delta s).
      split; [apply SP | exact E].
  - auto.
  - left. injection E as <-. apply SR.
  - left. injection E as <-. apply SP.
  - right. right. right. exists delta, currentTime, s.
    split; [apply S0 | exact E].
Qed.

End Reports.

(** ** The page follows the engine *)

Ltac page :=
  cbn [fold_right Game.afterCalls Game.callback Game.setHealth Game.setAmmo
       Game.setKills Game.setDeaths Game.setGameOver Game.setShowHitMarker
       Game.setTimeout Game.health Game.ammo Game.kills Game.deaths
       Game.gameOver Game.showHitMarker Game.hideTimers
       filter is_onHealthChange is_onKill is_onHit is_onDeath length app].

Tactic Notation "page" "in" hyp(X) :=
  cbn [fold_right Game.afterCalls Game.callback Game.setHealth Game.setAmmo
       Game.setKills Game.setDeaths Game.setGameOver Game.setShowHitMarker
       Game.setTimeout Game.health Game.ammo Game.kills Game.deaths
       Game.gameOver Game.showHitMarker Game.hideTimers
       filter is_onHealthChange is_onKill is_onHit is_onDeath length app]
    in X.

Lemma report_ok_ammo (hp am a : Z) (cs : list Callback) :
  report_ok hp am cs -> report_ok hp a (onAmmoChange a :: cs).
Proof.
  unfold report_ok, Game.afterCalls. page. intros (Hh & _ & Hd & Hg & Ht).
  auto 8.
Qed.

Lemma report_ok_onHit (hp am : Z) (cs : list Callback) :
  report_ok hp am cs -> report_ok hp am (onHit :: cs).
Proof. unfold report_ok, Game.afterCalls. page. auto. Qed.

Lemma report_ok_onKill (hp am : Z) (cs : list Callback) :
  report_ok hp am cs -> report_ok hp am (onKill :: cs).
Proof. unfold report_ok, Game.afterCalls. page. auto. Qed.

Lemma report_ok_hit (hp am : Z) (cs : list Callback) :
  report_ok hp am cs ->
  report_ok (hp - 10) am
    ((if (hp - 10 <=? 0)%Z then [onDeath] else []) ++
     onHealthChange (hp - 10) :: cs).
Proof.
  unfold report_ok, Game.afterCalls. intros (Hh & Ha & Hd & Hg & Ht).
  destruct (hp - 10 <=? 0)%Z eqn:D; page.
  - apply Z.leb_le in D. rewrite Hd.
    split; [reflexivity|]. split; [exact Ha|]. split; [lia|].
    split; [|lia]. symmetry. apply Z.ltb_lt. lia.
  - apply Z.leb_gt in D. rewrite Hd in *.
    split; [reflexivity|]. split; [exact Ha|]. split; [lia|].
    split; [|lia]. rewrite Hg. reflexivity.
Qed.

Lemma report_ok_afterHits (n : nat) (hp am : Z) (cs : list Callback) :
  report_ok hp am cs ->
  report_ok (fst (afterHits n hp cs)) am (snd (afterHits n hp cs)).
Proof.
  intros R. induction n as [|n IH]; cbn [afterHits]; [exact R|].
  destruct (afterHits n hp cs) as [h1 cs1]. cbn [fst snd] in *.
  apply report_ok_hit. exact IH.
Qed.

Lemma Game_after_kills (cs : list Callback) :
  Game.kills (Game.afterCalls cs) = Z.of_nat (length (filter is_onKill cs)).
Proof.
  induction cs as [|c cs IH]; [reflexivity|].
  unfold Game.afterCalls in *. destruct c; page; try exact IH.
  rewrite IH. lia.
Qed.

Lemma Game_run_shown (evs : list Game.Event) :
  forall (g g' : Game.t) (cs : list Callback),
    shown g = shown (Game.afterCalls cs) ->
    Game.handleAll evs g = Some g' ->
    shown g' = shown (Game.afterCalls (rev (Game.invoked evs) ++ cs)).
Proof.
  induction evs as [|ev evs IH]; cbn [Game.handleAll Game.invoked rev app];
    intros g g' cs V E.
  - injection E as <-. exact V.
  - apply bind_Some in E. destruct E as [g1 [E1 E]].
    destruct ev as [c|]; cbn [Game.handle] in E1.
    + injection E1 as <-. cbn [rev]. rewrite <- app_assoc. cbn [app].
      apply (IH _ _ (c :: cs)) in E; [exact E|].
      unfold shown in *. injection V as V1 V2 V3 V4 V5.
      unfold Game.afterCalls. cbn [fold_right]. fold (Game.afterCalls cs).
      destruct c; page; congruence.
    + unfold Game.hideHitMarker in E1.
      destruct (Game.hideTimers g); [discriminate|].
      injection E1 as <-. apply (IH _ _ cs) in E; [exact E | exact V].
Qed.

Section Page.
Context {H : Host}.

Lemma shoot_report_ok s s' :
  shoot s = Some s' ->
  report_ok (playerHealth s) (playerAmmo s) (calls s) ->
  report_ok (playerHealth s') (playerAmmo s') (calls s').
Proof.
  intros E R.
  pose proof (shoot_tally _ _ E) as [_ Hh].
  pose proof (shoot_ammoView _ _ E) as A. unfold ammoView in A.
  injection A as A _ _ _.
  apply shoot_outcome in E. unfold shotOutcome in E.
  rewrite Hh, A.
  destruct ((playerAmmo s <=? 0)%Z || isReloading s).
  - subst s'. exact R.
  - destruct (hitEnemy s) as [enemy|].
    + destruct (_ <=? 0)%Z.
      * destruct E as (-> & _). apply report_ok_onKill, report_ok_onHit.
        eapply report_ok_ammo; exact R.
      * destruct E as (-> & _). apply report_ok_onHit.
        eapply report_ok_ammo; exact R.
    + destruct E as (-> & _). eapply report_ok_ammo; exact R.
Qed.

Lemma updateEnemies_report_ok delta currentTime s s' :
  updateEnemies delta currentTime s = Some s' ->
  report_ok (playerHealth s) (playerAmmo s) (calls s) ->
  report_ok (playerHealth s') (playerAmmo s') (calls s').
Proof.
  intros E R.
  pose proof (updateEnemies_ammoView _ _ _ _ E) as A. unfold ammoView in A.
  injection A as A _ _ _. rewrite A.
  apply updateEnemies_hits in E. destruct E as (n & _ & E).
  pose proof (report_ok_afterHits n _ _ _ R) as R'.
  rewrite <- E in R'. exact R'.
Qed.

Lemma timeout_report_ok s :
  report_ok (playerHealth s) (playerAmmo s) (calls s) ->
  report_ok (playerHealth (timeout s)) (playerAmmo (timeout s))
    (calls (timeout s)).
Proof.
  intros R. unfold timeout. destruct (pending s) as [|t rest]; [exact R|].
  unfold reloadDone. fields. eapply report_ok_ammo; exact R.
Qed.

Lemma step_report_ok op s s' :
  step op s = Some s' ->
  report_ok (playerHealth s) (playerAmmo s) (calls s) ->
  report_ok (playerHealth s') (playerAmmo s') (calls s').
Proof.
  intros E R. apply step_kinds in E.
  destruct E as [Q | [-> | [E | (delta & currentTime & s1 & Q & E)]]].
  - destruct Q as (_ & _ & -> & -> & _ & ->). exact R.
  - apply timeout_report_ok. exact R.
  - eapply shoot_report_ok; eauto.
  - eapply updateEnemies_report_ok; [exact E|].
    destruct Q as (_ & _ & -> & -> & _ & ->). exact R.
Qed.

Lemma reachable_report_ok s :
  reachable s -> report_ok (playerHealth s) (playerAmmo s) (calls s).
Proof.
  induction 1 as [tape s E | op s s' _ IH E].
  - apply constructor_fields in E. destruct E as (_ & Hh & A & C & _).
    unfold ammoView in A. injection A as A _ _ _.
    rewrite Hh, A, C. unfold report_ok. cbn. repeat split.
  - eapply step_report_ok; eauto.
Qed.

End Page.

(** X9.  The page shows the engine's state.  Take any state the engine
    can reach and let the page receive the callbacks the engine invoked,
    in their order, with the hide timers of the hit marker running at any
    moments in between: the page's health is the player's health, its
    magazine count is the player's magazine, its kills are the [onKill]
    invocations; its deaths are the hits taken from the tenth on -- the
    engine keeps running after a death -- and the game-over overlay is up
    exactly when the health is not positive. *)
Theorem page_shows_engine_state {H : Host}
  (s : GameEngine) (evs : list Game.Event) (g : Game.t) :
  reachable s ->
  Game.handleAll evs Game.initial = Some g ->
  Game.invoked evs = rev (calls s) ->
  Game.health g = playerHealth s /\
  Game.ammo g = playerAmmo s /\
  Game.kills g = Z.of_nat (kills s) /\
  Game.deaths g = Z.max 0 (hitsTaken s - 9) /\
  Game.gameOver g = (playerHealth s <=? 0)%Z.
Proof.
  intros R E I.
  apply (Game_run_shown evs Game.initial g []) in E; [|reflexivity].
  rewrite I, rev_involutive, app_nil_r in E.
  unfold shown in E. injection E as -> -> -> -> ->.
  apply reachable_report_ok in R. unfold report_ok in R.
  destruct R as (Hh & Ha & Hd & Hg & Ht).
  split; [exact Hh|]. split; [exact Ha|].
  split; [apply Game_after_kills|]. split; [exact Hd|].
  rewrite Hg, Hd. unfold hitsTaken.
  destruct (playerHealth s <=? 0)%Z eqn:D.
  - apply Z.leb_le in D. apply Z.ltb_lt. lia.
  - apply Z.leb_gt in D. apply Z.ltb_ge. lia.
Qed.

Lemma page_shows_engine_state_witness :
  reachable (H := exampleHost castNothing) overrunEngine /\
  Game.health overrunPage = (-50)%Z /\
  Game.deaths overrunPage = 6%Z /\
  Game.gameOver overrunPage = true.
Proof.
  assert (R : reachable (H := exampleHost castNothing) overrunEngine).
  { apply (constructed_run_reachable
             (spawnTape ++ concat (repeat hitTape 15))
             [PointerLockChange true; Animate 3 1000000; Animate 3 1003000;
              Animate 3 1006000]).
    vm_compute. reflexivity. }
  assert (E : Game.handleAll (map Game.Invoke (rev (calls overrunEngine)))
                Game.initial = Some overrunPage)
    by (vm_compute; reflexivity).
  assert (I : Game.invoked (map Game.Invoke (rev (calls overrunEngine))) =
              rev (calls overrunEngine))
    by (vm_compute; reflexivity).
  destruct (page_shows_engine_state (H := exampleHost castNothing)
              overrunEngine _ overrunPage R E I) as (Hh & _ & _ & Hd & Hg).
  split; [exact R|].
  split; [rewrite Hh | split; [rewrite Hd | rewrite Hg]];
    vm_compute; reflexivity.
Defined.

(** X10.  The hit marker does not stay on: whatever callbacks and hide
    timers the page has run, the marker is shown only while a hide timer
    is still scheduled, and the scheduled timers are at most the hits
    reported. *)
Theorem hit_marker_clears (evs : list Game.Event) (g : Game.t) :
  Game.handleAll evs Game.initial = Some g ->
  (Game.showHitMarker g = true -> (0 < Game.hideTimers g)%nat) /\
  (Game.hideTimers g <= length (filter is_onHit (Game.invoked evs)))%nat.
Proof.
  assert (G : forall evs g0 g,
             Game.handleAll evs g0 = Some g ->
             (Game.showHitMarker g0 = true -> (0 < Game.hideTimers g0)%nat) ->
             (Game.showHitMarker g = true -> (0 < Game.hideTimers g)%nat) /\
             (Game.hideTimers g <=
              Game.hideTimers g0 +
              length (filter is_onHit (Game.invoked evs)))%nat).
  { clear evs g. induction evs as [|ev evs IH];
      cbn [Game.handleAll Game.invoked]; intros g0 g E M.
    - injection E as <-. split; [exact M | cbn; lia].
    - apply bind_Some in E. destruct E as [g1 [E1 E]].
      destruct ev as [c|]; cbn [Game.handle] in E1.
      + injection E1 as <-. apply IH in E.
        * destruct E as [E2 E3]. split; [exact E2|].
          destruct c; page; cbn [Game.callback] in E3; page in E3; lia.
        * destruct c; page; try exact M. intros _. lia.
      + unfold Game.hideHitMarker in E1.
        destruct (Game.hideTimers g0) as [|n] eqn:T; [discriminate|].
        injection E1 as <-. apply IH in E.
        * page in E. destruct E as [E2 E3]. split; [exact E2 | lia].
        * page. discriminate. }
  intros E. apply G in E; [|cbn; discriminate].
  cbn [Game.initial Game.hideTimers] in E. exact E.
Qed.

Lemma hit_marker_clears_witness :
  Game.handleAll [Game.Invoke onHit; Game.Invoke onHit; Game.HideHitMarker]
    Game.initial <> None /\
  (Game.hideTimers
     (match Game.handleAll [Game.Invoke onHit; Game.Invoke onHit;
                      Game.HideHitMarker] Game.initial with
      | Some g => g | None => Game.initial end) <= 2)%nat.
Proof.
  destruct (Game.handleAll [Game.Invoke onHit; Game.Invoke onHit;
                      Game.HideHitMarker] Game.initial) as [g|] eqn:E;
    [|vm_compute in E; discriminate].
  split; [discriminate|].
  exact (proj2 (hit_marker_clears _ g E)).
Defined.

(** ** Hits, kills and ammunition *)

Lemma damage_cons (a : Enemy.t) es :
  damageDealt (a :: es) = (100 - Enemy.health a + damageDealt es)%Z.
Proof. reflexivity. Qed.

Lemma damage_afterHit enemy es :
  lookup (Enemy.ident enemy) es = Some enemy ->
  damageDealt (afterHit enemy es) = (damageDealt es + 34)%Z.
Proof.
  unfold afterHit, lookup.
  induction es as [|a es IH]; cbn [find assign_first]; [discriminate|].
  unfold Enemy.same at 1. rewrite (Nat.eqb_sym (Enemy.ident enemy)).
  destruct (Nat.eqb (Enemy.ident a) (Enemy.ident enemy)).
  - intros E. injection E as ->. rewrite !damage_cons.
    unfold damaged. cbn [Enemy.health Enemy.set_health]. lia.
  - intros E. apply IH in E. rewrite !damage_cons. lia.
Qed.

Lemma lookup_absent (m : nat) es :
  ~ In m (map Enemy.ident es) -> lookup m es = None.
Proof.
  unfold lookup. induction es as [|a es IH]; cbn [find map In]; [reflexivity|].
  intros N. destruct (Nat.eqb (Enemy.ident a) m) eqn:E.
  - apply Nat.eqb_eq in E. tauto.
  - apply IH. tauto.
Qed.

Lemma damage_survivors enemy es :
  NoDup (map Enemy.ident es) ->
  lookup (Enemy.ident enemy) es = Some enemy ->
  damageDealt (survivors enemy es) =
  (damageDealt es - (100 - Enemy.health enemy))%Z.
Proof.
  rewrite survivors_filter. unfold lookup.
  induction es as [|a es IH]; cbn [find filter map]; [discriminate|].
  intros N E. inversion N as [|i l N1 N2]; subst.
  destruct (Nat.eqb (Enemy.ident a) (Enemy.ident enemy)) eqn:I; cbn [negb].
  - injection E as ->.
    pose proof (others_all _ _ (lookup_absent _ _ N1)) as O.
    unfold others in O. rewrite O, damage_cons. lia.
  - rewrite !damage_cons, (IH N2 E). lia.
Qed.

Lemma damage_spawned es (id : nat) (x z : Q) :
  damageDealt (es ++ [spawned id x z]) = damageDealt es.
Proof.
  induction es as [|a es IH]; cbn [app]; [reflexivity|].
  rewrite !damage_cons, IH. reflexivity.
Qed.

Lemma damage_maps : forall es es',
  map Enemy.health es' = map Enemy.health es ->
  damageDealt es' = damageDealt es.
Proof.
  induction es as [|a es IH]; intros [|a' es'] E; cbn [map] in E;
    try discriminate; [reflexivity|].
  injection E as E1 E2. rewrite !damage_cons, E1, (IH _ E2). reflexivity.
Qed.

Lemma damage_nonneg es :
  Forall (fun h => In h [100; 66; 32]%Z) (map Enemy.health es) ->
  (0 <= damageDealt es)%Z.
Proof.
  induction es as [|a es IH]; cbn [map]; [cbn; lia|].
  intros F. inversion F as [|h l F1 F2]; subst. apply IH in F2.
  cbn [In] in F1. rewrite damage_cons. lia.
Qed.

Lemma afterHits_landed (n : nat) (h : Z) (cs : list Callback) :
  filter is_onHit (snd (afterHits n h cs)) = filter is_onHit cs.
Proof.
  induction n as [|n IH]; cbn [afterHits]; [reflexivity|].
  destruct (afterHits n h cs) as [h1 cs1]. cbn [snd] in *.
  destruct (_ <=? 0)%Z; cbn [app filter is_onHit]; exact IH.
Qed.

Section Ledger.
Context {H : Host}.

Lemma shoot_ledger_ok s s' :
  shoot s = Some s' -> enemies_ok s -> ledger_ok s -> ledger_ok s'.
Proof.
  intros E (_ & N & _ & Hh & _) (L1 & L2).
  pose proof (shoot_ammoView _ _ E) as A. unfold ammoView in A.
  injection A as A Ar _ _.
  pose proof (shoot_outcome _ _ E) as O. unfold shotOutcome in O.
  unfold ledger_ok, hitsLanded, kills in *. rewrite A, Ar.
  destruct ((playerAmmo s <=? 0)%Z || isReloading s).
  { subst s'. split; assumption. }
  destruct (hitEnemy s) as [enemy|] eqn:F.
  - pose proof (lookup_hitEnemy _ _ F) as Lk.
    pose proof (hitEnemy_found _ _ F) as I.
    destruct (Enemy.health enemy - 34 <=? 0)%Z eqn:K.
    + destruct O as (-> & O).
      assert (D : damageDealt (enemies s') =
                  (damageDealt (enemies s) - 68)%Z).
      { assert (H32 : Enemy.health enemy = 32%Z).
        { apply Z.leb_le in K. rewrite Forall_forall in Hh.
          specialize (Hh _ (in_map Enemy.health _ _ I)).
          cbn [In] in Hh. lia. }
        pose proof (damage_survivors _ _ N Lk) as S.
        destruct (length _ <? 5)%nat.
        - destruct O as (_ & x & z & _ & ->). rewrite damage_spawned. lia.
        - destruct O as (_ & ->). lia. }
      rewrite D. cbn [filter is_onHit is_onKill length]. split; lia.
    + destruct O as (-> & -> & _). rewrite (damage_afterHit _ _ Lk).
      cbn [filter is_onHit is_onKill length]. split; lia.
  - destruct O as (-> & -> & _).
    cbn [filter is_onHit is_onKill length]. split; lia.
Qed.

Lemma updateEnemies_ledger_ok delta currentTime s s' :
  updateEnemies delta currentTime s = Some s' -> ledger_ok s -> ledger_ok s'.
Proof.
  intros E (L1 & L2).
  pose proof (updateEnemies_ammoView _ _ _ _ E) as A. unfold ammoView in A.
  injection A as A Ar _ _.
  pose proof (updateEnemies_tally _ _ _ _ E) as [K _].
  pose proof (updateEnemies_spec _ _ _ _ E) as (_ & _ & M).
  apply updateEnemies_hits in E. destruct E as (n & _ & E).
  assert (C : filter is_onHit (calls s') = filter is_onHit (calls s)).
  { replace (calls s') with (snd (afterHits n (playerHealth s) (calls s)))
      by (rewrite <- E; reflexivity).
    apply afterHits_landed. }
  unfold ledger_ok, hitsLanded in *.
  rewrite A, Ar, K, C, (damage_maps _ _ M). split; assumption.
Qed.

Lemma silent_ledger_ok s s' : silent s s' -> ledger_ok s -> ledger_ok s'.
Proof.
  intros (E & _ & _ & A & Ar & C). unfold ledger_ok, hitsLanded, kills.
  rewrite E, A, Ar, C. auto.
Qed.

Lemma timeout_ledger_ok s : ledger_ok s -> ledger_ok (timeout s).
Proof.
  unfold timeout. destruct (pending s) as [|t rest]; [auto|].
  unfold ledger_ok, hitsLanded, kills, reloadDone. fields.
  cbn [filter is_onHit is_onKill]. intros (L1 & L2). split; lia.
Qed.

Lemma step_ledger_ok op s s' :
  step op s = Some s' -> enemies_ok s -> ledger_ok s -> ledger_ok s'.
Proof.
  intros E O L. apply step_kinds in E.
  destruct E as [Q | [-> | [E | (delta & currentTime & s1 & Q & E)]]].
  - eapply silent_ledger_ok; eauto.
  - apply timeout_ledger_ok. exact L.
  - eapply shoot_ledger_ok; eauto.
  - eapply updateEnemies_ledger_ok; [exact E|].
    eapply silent_ledger_ok; eauto.
Qed.

Lemma reachable_ledger_ok s : reachable s -> ledger_ok s.
Proof.
  induction 1 as [tape s E | op s s' R IH E].
  - pose proof (constructor_enemies_ok _ _ E) as (_ & _ & _ & Hh & _).
    pose proof (constructor_fields _ _ E) as (_ & _ & A & C & _).
    unfold ammoView in A. injection A as A Ar _ _.
    assert (D : damageDealt (enemies s) = 0%Z).
    { rewrite constructor_unfold in E. apply spawnEnemies_many in E.
      destruct E as (new & E1 & _ & E3 & _).
      rewrite world_enemies in E1. rewrite E1. cbn [app].
      clear E1. induction E3 as [|e l E1 _ IH]; [reflexivity|].
      rewrite damage_cons, IH, E1. reflexivity. }
    unfold ledger_ok, hitsLanded, kills. rewrite A, Ar, C, D.
    cbn [filter length]. split; lia.
  - eapply step_ledger_ok; eauto. apply reachable_enemies_ok. exact R.
Qed.

End Ledger.

(** X11.  Ammunition bounds the kills.  In every state the engine can
    reach, the hits the player has landed, the magazine and the reserve
    together are at most the 120 rounds of the start; 34 times the hits
    landed is 102 for every kill plus the health the live enemies are
    missing; so no more than 40 enemies are ever killed. *)
Theorem kills_bounded_by_ammunition {H : Host} (s : GameEngine) :
  reachable s ->
  (hitsLanded s + playerAmmo s + playerReserveAmmo s <= 120)%Z /\
  (34 * hitsLanded s =
   102 * Z.of_nat (kills s) + damageDealt (enemies s))%Z /\
  (kills s <= 40)%nat.
Proof.
  intros R. pose proof (reachable_ledger_ok _ R) as (L1 & L2).
  pose proof (reachable_ammo_ok _ R) as (Ha & Hr & _).
  pose proof (reachable_enemies_ok _ R) as (_ & _ & _ & Hh & _).
  apply damage_nonneg in Hh.
  split; [exact L1|]. split; [exact L2 | lia].
Qed.

Lemma kills_bounded_by_ammunition_witness :
  reachable (H := exampleHost castFirst) killingEngine /\
  hitsLanded killingEngine = 3%Z /\
  kills killingEngine = 1%nat /\
  (34 * hitsLanded killingEngine =
   102 * Z.of_nat (kills killingEngine) +
   damageDealt (enemies killingEngine))%Z.
Proof.
  assert (R : reachable (H := exampleHost castFirst) killingEngine).
  { apply (constructed_run_reachable
             (spawnTape ++ [1 # 2; 1 # 2; 1 # 2; 1 # 2;
                            5 # 8; 17 # 32; 1 # 2; 1 # 2])
             [Shoot; Shoot; Shoot]).
    vm_compute. reflexivity. }
  destruct (kills_bounded_by_ammunition killingEngine R) as (_ & L & _).
  split; [exact R|]. split; [vm_compute; reflexivity|].
  split; [vm_compute; reflexivity | exact L].
Defined.

(** X12.  One frame costs the player at most one hit per enemy: a call
    of [updateEnemies] lowers the player's health by 10 for each of [n]
    hits, [n] at most the number of enemies -- at most 5, so at most 50
    health, in a state the engine can reach -- and changes neither the
    magazine nor the reserve. *)
Theorem frame_damage_bounded {H : Host}
  (delta : Q) (currentTime : Z) (s s' : GameEngine) :
  reachable s ->
  updateEnemies delta currentTime s = Some s' ->
  (exists n,
     (n <= 5)%nat /\
     playerHealth s' = (playerHealth s - 10 * Z.of_nat n)%Z /\
     hitsTaken s' = (hitsTaken s + Z.of_nat n)%Z) /\
  (playerHealth s - 50 <= playerHealth s' <= playerHealth s)%Z /\
  playerAmmo s' = playerAmmo s /\
  playerReserveAmmo s' = playerReserveAmmo s.
Proof.
  intros R E.
  pose proof (updateEnemies_ammoView _ _ _ _ E) as A. unfold ammoView in A.
  injection A as A Ar _ _.
  apply reachable_enemies_ok in R. destruct R as (L & _).
  apply updateEnemies_hits in E. destruct E as (n & Ln & E). rewrite L in Ln.
  assert (Hh : playerHealth s' = (playerHealth s - 10 * Z.of_nat n)%Z).
  { rewrite <- afterHits_health with (cs := calls s), <- E. reflexivity. }
  assert (Ht : hitsTaken s' = (hitsTaken s + Z.of_nat n)%Z).
  { unfold hitsTaken.
    rewrite <- afterHits_taken with (h := playerHealth s), <- E.
    reflexivity. }
  split; [exists n; auto|]. split; [lia | auto].
Qed.

Lemma frame_damage_bounded_witness :
  reachable (H := exampleHost castNothing) besiegedEngine /\
  playerHealth
    (the (updateEnemies (H := exampleHost castNothing) 3 1000000
            besiegedEngine)) = 50%Z.
Proof.
  assert (R : reachable (H := exampleHost castNothing) besiegedEngine).
  { apply (constructed_run_reachable
             (spawnTape ++ concat (repeat hitTape 5))
             [PointerLockChange true]).
    vm_compute. reflexivity. }
  split; [exact R|].
  destruct (updateEnemies (H := exampleHost castNothing) 3 1000000
              besiegedEngine) as [s'|] eqn:E;
    [|vm_compute in E; discriminate].
  cbn [the].
  destruct (frame_damage_bounded 3 1000000 besiegedEngine s' R E)
    as ((n & _ & Hn & Ht) & _).
  assert (T : hitsTaken s' = 5%Z).
  { assert (E' : the (updateEnemies (H := exampleHost castNothing)
                        3 1000000 besiegedEngine) = s')
      by (rewrite E; reflexivity).
    rewrite <- E'. vm_compute. reflexivity. }
  assert (T0 : hitsTaken besiegedEngine = 0%Z) by (vm_compute; reflexivity).
  assert (H0 : playerHealth besiegedEngine = 100%Z)
    by (vm_compute; reflexivity).
  lia.
Defined.

(** ** Enemy objects *)

Lemma afterHit_Forall (P : Enemy.t -> Prop) enemy es :
  P (damaged enemy) -> Forall P es -> Forall P (afterHit enemy es).
Proof.
  intros D F. unfold afterHit.
  induction F as [|a l Pa Fl IH]; cbn [assign_first]; [constructor|].
  destruct (Enemy.same enemy a); constructor; auto.
Qed.

Lemma body_ok_spawned (id : nat) (x z : Q) : body_ok (spawned id x z).
Proof.
  unfold body_ok, spawned. cbn. repeat split. discriminate.
Qed.

Lemma spawnEnemies_bodies n : forall s s',
  spawnEnemies n s = Some s' ->
  Forall body_ok (enemies s) -> Forall body_ok (enemies s').
Proof.
  induction n as [|n IH]; intros s s' E F.
  - injection E as <-. exact F.
  - cbn [spawnEnemies newMesh] in E.
    apply bind_Some in E. destruct E as [[[x z] rest] [_ E]].
    apply IH in E; [exact E|]. fields. apply Forall_app. split; [exact F|].
    constructor; [|constructor]. apply (body_ok_spawned (nextId s) x z).
Qed.

Section Bodies.
Context {H : Host}.

Lemma updateEnemy_body delta currentTime enemy s enemy' s' :
  updateEnemy delta currentTime enemy s = Some (enemy', s') ->
  body_ok enemy -> body_ok enemy'.
Proof.
  unfold updateEnemy. intros E B.
  apply bind_Some in E. destruct E as [[e1 s1] [E1 E]].
  assert (B1 : body_ok e1).
  { destruct B as (B1 & B2 & B3 & B4).
    unfold retarget in E1. destruct (Qltb 2 _) eqn:T.
    - apply bind_Some in E1. destruct E1 as [[r t1] [_ E1]].
      destruct (Qltb _ r).
      + injection E1 as <- _. unfold body_ok. cbn. repeat split; auto.
        discriminate.
      + apply bind_Some in E1. destruct E1 as [[rx t2] [_ E1]].
        apply bind_Some in E1. destruct E1 as [[rz t3] [_ E1]].
        injection E1 as <- _. unfold body_ok. cbn. repeat split; auto.
        discriminate.
    - injection E1 as <- _. apply Qltb_false in T.
      unfold body_ok. cbn [Enemy.mesh Enemy.velocity Enemy.moveTimer
                           Enemy.set_moveTimer] in *.
      repeat split; auto. }
  assert (B2 : body_ok (moveTowardsTarget delta e1)).
  { destruct B1 as (B1 & B2 & B3 & B4).
    unfold moveTowardsTarget. destruct (Qltb 2 _); [|unfold body_ok; auto].
    unfold body_ok.
    cbn [Enemy.mesh Enemy.velocity Enemy.moveTimer Enemy.set_mesh
         Enemy.set_velocity Mesh.position Mesh.size Mesh.set_position
         Mesh.set_quaternion Vector3.y Vector3.set_x Vector3.set_z].
    auto. }
  clear B B1 E1. destruct B2 as (B1 & B2 & B3 & B4).
  assert (B : body_ok
                (Enemy.set_lastShot (moveTowardsTarget delta e1) currentTime)).
  { unfold body_ok. cbn [Enemy.mesh Enemy.velocity Enemy.moveTimer
                         Enemy.set_lastShot]. auto. }
  unfold shootAtPlayer in E.
  destruct (shotDue _ _ _);
    [|injection E as <- _; unfold body_ok; auto].
  match type of E with (if ?b then _ else _) = _ => destruct b end;
    [|injection E as <- _; exact B].
  apply bind_Some in E. destruct E as [[r t1] [_ E]].
  destruct (Qltb _ r); injection E as <- _; exact B.
Qed.

Lemma forEachEnemy_bodies delta currentTime es : forall s es' s',
  forEachEnemy delta currentTime es s = Some (es', s') ->
  Forall body_ok es -> Forall body_ok es'.
Proof.
  induction es as [|enemy rest IH]; cbn [forEachEnemy]; intros s es' s' E F.
  - injection E as <- _. constructor.
  - apply bind_Some in E. destruct E as [[e1 s1] [E1 E]].
    apply bind_Some in E. destruct E as [[r2 s2] [E2 E]].
    injection E as <- _. inversion F as [|a l Fa Fl]; subst.
    constructor; [eapply updateEnemy_body; eauto | eapply IH; eauto].
Qed.

Lemma updateEnemies_bodies delta currentTime s s' :
  updateEnemies delta currentTime s = Some s' ->
  Forall body_ok (enemies s) -> Forall body_ok (enemies s').
Proof.
  unfold updateEnemies. intros E.
  apply bind_Some in E. destruct E as [[es s1] [E1 E]].
  injection E as <-. fields. eapply forEachEnemy_bodies; eauto.
Qed.

Lemma shoot_bodies s s' :
  shoot s = Some s' ->
  Forall body_ok (enemies s) -> Forall body_ok (enemies s').
Proof.
  intros E F. apply shoot_outcome in E.
  destruct (shotOutcome s) as [| |enemy|enemy] eqn:O.
  - subst s'. exact F.
  - destruct E as (_ & -> & _). exact F.
  - assert (I : In enemy (enemies s)).
    { eapply shotOutcome_hit. left. exact O. }
    destruct E as (_ & -> & _). apply afterHit_Forall; [|exact F].
    rewrite Forall_forall in F. apply F in I. exact I.
  - assert (I : In enemy (enemies s)).
    { eapply shotOutcome_hit. right. exact O. }
    assert (S : Forall body_ok (survivors enemy (enemies s))).
    { unfold survivors. apply Forall_filter. apply afterHit_Forall; [|exact F].
      rewrite Forall_forall in F. apply F in I. exact I. }
    destruct E as (_ & E). destruct (_ <? 5)%nat.
    + destruct E as (_ & x & z & _ & ->). apply Forall_app.
      split; [exact S|]. constructor; [apply body_ok_spawned | constructor].
    + destruct E as (_ & ->). exact S.
Qed.

End Bodies.

(** X13.  Enemies stay on the ground plane: in every state the engine
    can reach, every enemy's mesh is at height 6 with the size 4 x 12 x 4
    it was built with, its velocity has no vertical component, and its
    retarget timer is at most 2 -- whatever frame times were passed. *)
Theorem enemies_keep_their_bodies {H : Host} (s : GameEngine) :
  reachable s ->
  forall enemy,
    In enemy (enemies s) ->
    Vector3.y (Mesh.position (Enemy.mesh enemy)) = 6 /\
    Mesh.size (Enemy.mesh enemy) = Vector3.mk 4 12 4 /\
    Vector3.y (Enemy.velocity enemy) = 0 /\
    Enemy.moveTimer enemy <= 2.
Proof.
  intros R.
  assert (F : Forall body_ok (enemies s)).
  { induction R as [tape s E | op s s' _ IH E].
    - rewrite constructor_unfold in E.
      apply spawnEnemies_bodies in E; [exact E|].
      rewrite world_enemies. constructor.
    - apply step_kinds in E.
      destruct E as [Q | [-> | [E | (delta & currentTime & s1 & Q & E)]]].
      + destruct Q as (-> & _). exact IH.
      + destruct (timeout_quiet s) as (-> & _). exact IH.
      + eapply shoot_bodies; eauto.
      + eapply updateEnemies_bodies; [exact E|].
        destruct Q as (-> & _). exact IH. }
  intros enemy I. rewrite Forall_forall in F. exact (F _ I).
Qed.

Lemma enemies_keep_their_bodies_witness :
  reachable (H := exampleHost castNothing) overrunEngine /\
  Forall (fun e => Vector3.y (Mesh.position (Enemy.mesh e)) = 6)
    (enemies overrunEngine).
Proof.
  assert (R : reachable (H := exampleHost castNothing) overrunEngine).
  { apply (constructed_run_reachable
             (spawnTape ++ concat (repeat hitTape 15))
             [PointerLockChange true; Animate 3 1000000; Animate 3 1003000;
              Animate 3 1006000]).
    vm_compute. reflexivity. }
  split; [exact R|]. apply Forall_forall. intros e I.
  exact (proj1 (enemies_keep_their_bodies overrunEngine R e I)).
Defined.

(** ** Where enemies appear *)

Lemma spawnPosition_range tape x z rest :
  Forall unit_interval tape ->
  spawnPosition tape = Some (x, z, rest) ->
  -80 <= x < 80 /\ -80 <= z < 80 /\ Forall unit_interval rest.
Proof.
  assert (G : forall n tape, (length tape <= n)%nat ->
            Forall unit_interval tape ->
            spawnPosition tape = Some (x, z, rest) ->
            -80 <= x < 80 /\ -80 <= z < 80 /\ Forall unit_interval rest).
  { induction n as [|n IH]; intros [|r1 [|r2 tape']] L F E;
      try discriminate; cbn [length] in L; try lia.
    cbn [spawnPosition] in E. cbv zeta in E.
    inversion F as [|a l F1 F']; subst.
    inversion F' as [|a l F2 F'']; subst.
    destruct (_ && _).
    - apply (IH tape'); [lia | exact F'' | exact E].
    - injection E as <- <- <-. unfold unit_interval in F1, F2.
      split; [lra|]. split; [lra | exact F'']. }
  apply (G (length tape)). lia.
Qed.

Lemma spawnEnemies_placed n : forall s s',
  Forall unit_interval (entropy s) ->
  spawnEnemies n s = Some s' ->
  exists new,
    enemies s' = enemies s ++ new /\
    length new = n /\
    Forall placed new /\
    Forall unit_interval (entropy s').
Proof.
  induction n as [|n IH]; intros s s' F E.
  - injection E as <-. exists []. rewrite app_nil_r. auto.
  - cbn [spawnEnemies newMesh] in E.
    apply bind_Some in E. destruct E as [[[x z] rest] [P E]].
    fields in P.
    pose proof (spawnPosition_outside _ _ _ _ P) as O.
    apply (spawnPosition_range _ _ _ _ F) in P. destruct P as (X & Z & F').
    apply IH in E; [|fields; exact F']. fields in E.
    destruct E as (new & E1 & E2 & E3 & E4).
    exists (spawned (nextId s) x z :: new).
    rewrite E1, <- app_assoc. cbn [app length].
    split; [reflexivity|]. split; [lia|]. split; [|exact E4].
    constructor; [|exact E3]. exists (nextId s), x, z. auto.
Qed.

Lemma spawnPosition_accepted tape :
  match spawnPosition tape with
  | Some (_, _, rest) => acceptedPairs tape = S (acceptedPairs rest)
  | None => acceptedPairs tape = O
  end.
Proof.
  assert (G : forall n tape, (length tape <= n)%nat ->
            match spawnPosition tape with
            | Some (_, _, rest) => acceptedPairs tape = S (acceptedPairs rest)
            | None => acceptedPairs tape = O
            end).
  { clear tape. induction n as [|n IH]; intros [|r1 [|r2 tape']] L;
      try reflexivity; cbn [length] in L; try lia.
    cbn [spawnPosition acceptedPairs]. cbv zeta.
    destruct (_ && _).
    - specialize (IH tape'). destruct (spawnPosition tape') as [[[x z] rest]|];
        cbn [Nat.add]; apply IH; lia.
    - reflexivity. }
  apply (G (length tape)). lia.
Qed.

Lemma spawnEnemies_returns n : forall s,
  (n <= acceptedPairs (entropy s))%nat <->
  exists s', spawnEnemies n s = Some s'.
Proof.
  induction n as [|n IH]; intros s.
  - split; [intros _; exists s; reflexivity | intros _; lia].
  - cbn [spawnEnemies newMesh]. fields.
    pose proof (spawnPosition_accepted (entropy s)) as A.
    destruct (spawnPosition (entropy s)) as [[[x z] rest]|]; cbn [bind].
    + rewrite <- IH. fields. lia.
    + split; [lia | intros (s' & E); discriminate].
Qed.

(** X14.  Enemies appear away from the player's start.  [spawnEnemies]
    returns exactly when the random numbers, taken two by two, hold as
    many pairs outside the square of side 40 around the origin as enemies
    are asked for; and then, with random numbers in [0, 1), every enemy
    it adds -- at construction and after a kill -- is a fresh enemy with
    health 100 at height 6 whose coordinates lie in [-80, 80), inside the
    walls, and outside that square; the enemies that were there are kept
    in front of the new ones. *)
Theorem enemies_spawn_away_from_start (count : nat) (s : GameEngine) :
  ((count <= acceptedPairs (entropy s))%nat <->
   exists s', spawnEnemies count s = Some s') /\
  (Forall unit_interval (entropy s) ->
   forall s',
     spawnEnemies count s = Some s' ->
     exists new,
       enemies s' = enemies s ++ new /\
       length new = count /\
       Forall unit_interval (entropy s') /\
       forall e,
         In e new ->
         exists id x z,
           e = spawned id x z /\
           -80 <= x < 80 /\ -80 <= z < 80 /\
           ~ (Qabs x < 20 /\ Qabs z < 20)).
Proof.
  split; [apply spawnEnemies_returns|].
  intros F s' E. apply (spawnEnemies_placed _ _ _ F) in E.
  destruct E as (new & E1 & E2 & E3 & E4). exists new.
  split; [exact E1|]. split; [exact E2|]. split; [exact E4|].
  intros e I. rewrite Forall_forall in E3. exact (E3 e I).
Qed.

Lemma enemies_spawn_away_from_start_witness :
  Forall unit_interval (entropy emptyArena) /\
  (5 <= acceptedPairs (entropy emptyArena))%nat /\
  exists s' new,
    spawnEnemies 5 emptyArena = Some s' /\
    enemies s' = enemies emptyArena ++ new /\ length new = 5%nat.
Proof.
  assert (F : Forall unit_interval (entropy emptyArena)).
  { vm_compute. repeat constructor; discriminate. }
  assert (A : (5 <= acceptedPairs (entropy emptyArena))%nat)
    by (vm_compute; lia).
  split; [exact F|]. split; [exact A|].
  destruct (enemies_spawn_away_from_start 5 emptyArena) as (T & P).
  destruct (proj1 T A) as (s' & E).
  destruct (P F s' E) as (new & E1 & E2 & _).
  exists s', new. auto.
Defined.

(** ** Recoil *)

Section Recoil.
Context {H : Host}.



End Recoil.



(** X16.  Opposite keys cancel: when forward and backward are both held
    or both released, [updatePlayer]'s acceleration step only damps the
    velocity along z, by the factor [1 - 10 delta]; likewise left and
    right along x; and gravity takes [9.8 * 10 * delta] from the vertical
    velocity whatever is held. *)
Theorem opposite_keys_cancel {H : Host} (delta : Q) (s : GameEngine) :
  (moveForward s = moveBackward s ->
   Vector3.z (velocity (accelerate delta s)) ==
   Vector3.z (velocity s) * (1 - 10 * delta)) /\
  (moveLeft s = moveRight s ->
   Vector3.x (velocity (accelerate delta s)) ==
   Vector3.x (velocity s) * (1 - 10 * delta)) /\
  Vector3.y (velocity (accelerate delta s)) =
  Vector3.y (velocity s) - (98 # 10) * 10 * delta.
Proof.
  unfold accelerate. fields. cbv zeta.
  split; [|split].
  - intros E. rewrite E.
    destruct (moveBackward s); destruct (moveLeft s || moveRight s);
      cbn [orb Number Vector3.x Vector3.y Vector3.z Vector3.set_x
           Vector3.set_y Vector3.set_z normalize3 Vector3.normalize
           Vector3.divideScalar Vector3.multiplyScalar]; ring.
  - intros E. rewrite E.
    destruct (moveRight s); destruct (moveForward s || moveBackward s);
      cbn [orb Number Vector3.x Vector3.y Vector3.z Vector3.set_x
           Vector3.set_y Vector3.set_z normalize3 Vector3.normalize
           Vector3.divideScalar Vector3.multiplyScalar]; ring.
  - destruct (moveForward s || moveBackward s);
      destruct (moveLeft s || moveRight s); reflexivity.
Qed.

Lemma opposite_keys_cancel_witness :
  moveForward (onKeyDown KeyS walkingEngine) =
  moveBackward (onKeyDown KeyS walkingEngine) /\
  Vector3.z
    (velocity
       (accelerate (H := exampleHost castNothing) (1 # 3)
          (onKeyDown KeyS walkingEngine))) ==
  Vector3.z (velocity (onKeyDown KeyS walkingEngine)) * (1 - 10 * (1 # 3)).
Proof.
  assert (E : moveForward (onKeyDown KeyS walkingEngine) =
              moveBackward (onKeyDown KeyS walkingEngine))
    by (vm_compute; reflexivity).
  split; [exact E|].
  exact (proj1 (opposite_keys_cancel (H := exampleHost castNothing) (1 # 3)
                  (onKeyDown KeyS walkingEngine)) E).
Defined.

(** ** Random numbers drawn by a frame *)

Section Draws.
Context {H : Host}.

Lemma retarget_returns delta enemy s :
  (3 <= length (entropy s))%nat ->
  exists enemy' s',
    retarget delta enemy s = Some (enemy', s') /\
    (length (entropy s') <= length (entropy s) <=
     length (entropy s') + 3)%nat.
Proof.
  intros L. unfold retarget, Math_random.
  destruct (entropy s) as [|r1 [|r2 [|r3 rest]]] eqn:T;
    cbn [length] in L; try lia.
  destruct (Qltb 2 _).
  - cbn [bind]. destruct (Qltb _ r1).
    + eexists _, _. split; [reflexivity|]. fields. cbn [length]. lia.
    + fields. cbn [bind]. fields. cbn [bind].
      eexists _, _. split; [reflexivity|]. fields. cbn [length]. lia.
  - eexists _, _. split; [reflexivity|]. rewrite T. cbn [length]. lia.
Qed.

Lemma shootAtPlayer_returns currentTime enemy s :
  (1 <= length (entropy s))%nat ->
  exists enemy' s',
    shootAtPlayer currentTime enemy s = Some (enemy', s') /\
    (length (entropy s') <= length (entropy s) <=
     length (entropy s') + 1)%nat.
Proof.
  intros L. unfold shootAtPlayer, Math_random.
  destruct (entropy s) as [|r1 rest] eqn:T; cbn [length] in L; try lia.
  destruct (shotDue _ _ _);
    [|eexists _, _; split; [reflexivity|]; rewrite T; cbn [length]; lia].
  match goal with |- context [if ?b then _ else _] => destruct b end;
    [|eexists _, _; split; [reflexivity|]; rewrite T; cbn [length]; lia].
  cbn [bind]. destruct (Qltb _ r1);
    (eexists _, _; split; [reflexivity|]).
  - unfold hitPlayer. fields. destruct (_ <=? 0)%Z; fields; cbn [length]; lia.
  - fields. cbn [length]. lia.
Qed.

Lemma updateEnemy_returns delta currentTime enemy s :
  (4 <= length (entropy s))%nat ->
  exists enemy' s',
    updateEnemy delta currentTime enemy s = Some (enemy', s') /\
    (length (entropy s') <= length (entropy s) <=
     length (entropy s') + 4)%nat.
Proof.
  intros L. unfold updateEnemy.
  destruct (retarget_returns delta enemy s) as (e1 & s1 & E1 & L1); [lia|].
  rewrite E1. cbn [bind].
  destruct (shootAtPlayer_returns currentTime
              (moveTowardsTarget delta e1) s1) as (e2 & s2 & E2 & L2); [lia|].
  exists e2, s2. split; [exact E2 | lia].
Qed.

Lemma forEachEnemy_returns delta currentTime es : forall s,
  (4 * length es <= length (entropy s))%nat ->
  exists es' s',
    forEachEnemy delta currentTime es s = Some (es', s') /\
    length es' = length es /\
    (length (entropy s') <= length (entropy s) <=
     length (entropy s') + 4 * length es)%nat.
Proof.
  induction es as [|enemy rest IH]; cbn [forEachEnemy length]; intros s L.
  - exists [], s. split; [reflexivity|]. split; [reflexivity | lia].
  - destruct (updateEnemy_returns delta currentTime enemy s)
      as (e1 & s1 & E1 & L1); [lia|].
    rewrite E1. cbn [bind].
    destruct (IH s1) as (es2 & s2 & E2 & N2 & L2); [lia|].
    rewrite E2. cbn [bind]. exists (e1 :: es2), s2.
    split; [reflexivity|]. cbn [length]. split; [lia | lia].
Qed.

End Draws.

(** X17.  A frame of the enemies always completes and draws at most four
    random numbers per enemy -- one to choose the kind of target, two for
    a random target, one for the accuracy of a shot: with that many
    numbers at hand [updateEnemies] returns, with as many enemies as
    before. *)
Theorem frame_draws_four_per_enemy {H : Host}
  (delta : Q) (currentTime : Z) (s : GameEngine) :
  (4 * length (enemies s) <= length (entropy s))%nat ->
  exists s',
    updateEnemies delta currentTime s = Some s' /\
    length (enemies s') = length (enemies s) /\
    (length (entropy s') <= length (entropy s) <=
     length (entropy s') + 4 * length (enemies s))%nat.
Proof.
  intros L. unfold updateEnemies.
  destruct (forEachEnemy_returns delta currentTime (enemies s) s L)
    as (es' & s1 & E & N & L1).
  rewrite E. cbn [bind]. eexists. split; [reflexivity|]. fields. auto.
Qed.

Lemma frame_draws_four_per_enemy_witness :
  (4 * length (enemies besiegedEngine) <=
   length (entropy besiegedEngine))%nat /\
  exists s',
    updateEnemies (H := exampleHost castNothing) 3 1000000 besiegedEngine =
    Some s'.
Proof.
  assert (L : (4 * length (enemies besiegedEngine) <=
               length (entropy besiegedEngine))%nat)
    by (vm_compute; lia).
  split; [exact L|].
  destruct (frame_draws_four_per_enemy (H := exampleHost castNothing)
              3 1000000 besiegedEngine L) as (s' & E & _).
  exists s'. exact E.
Defined.

(** ** The boundary walls *)

Lemma arena_walls_beyond_bounds :
  Forall beyond_bounds (walls (createArena (fresh []))).
Proof.
  assert (F : forallb
                (fun w =>
                   Qle_bool 99 (Vector3.x (Box3.min (Mesh.box w))) ||
                   Qle_bool (Vector3.x (Box3.max (Mesh.box w))) (-99) ||
                   Qle_bool 99 (Vector3.z (Box3.min (Mesh.box w))) ||
                   Qle_bool (Vector3.z (Box3.max (Mesh.box w))) (-99))
                (walls (createArena (fresh []))) = true)
    by (vm_compute; reflexivity).
  apply Forall_forall. intros w I. rewrite forallb_forall in F.
  apply F in I. unfold beyond_bounds.
  rewrite !orb_true_iff, !Qle_bool_iff in I. tauto.
Qed.

Lemma beyond_bounds_clear (p : Vector3.t) (w : Mesh.t) :
  position_ok p ->
  beyond_bounds w ->
  Box3.intersectsBox
    (Box3.setFromCenterAndSize p (Vector3.mk 2 10 2)) (Mesh.box w) = false.
Proof.
  intros (_ & X & Z) B. unfold beyond_bounds in B. unfold Box3.intersectsBox.
  generalize dependent (Mesh.box w). intros wb B.
  cbn [Box3.setFromCenterAndSize Box3.min Box3.max Vector3.sub Vector3.add
       Vector3.multiplyScalar Vector3.x Vector3.y Vector3.z].
  destruct B as [B | [B | [B | B]]].
  - replace (Qltb (Vector3.x p + 2 * (1 # 2)) (Vector3.x (Box3.min wb)))
      with true by (symmetry; apply Qltb_true; lra).
    rewrite ?orb_true_r. reflexivity.
  - replace (Qltb (Vector3.x (Box3.max wb)) (Vector3.x p - 2 * (1 # 2)))
      with true by (symmetry; apply Qltb_true; lra).
    reflexivity.
  - replace (Qltb (Vector3.z p + 2 * (1 # 2)) (Vector3.z (Box3.min wb)))
      with true by (symmetry; apply Qltb_true; lra).
    rewrite ?orb_true_r. reflexivity.
  - replace (Qltb (Vector3.z (Box3.max wb)) (Vector3.z p - 2 * (1 # 2)))
      with true by (symmetry; apply Qltb_true; lra).
    rewrite ?orb_true_r. reflexivity.
Qed.

(** X18.  The arena bounds keep the player off the boundary walls: the
    four walls that [createArena] builds are the first four of [walls],
    their boxes begin at 99 from the centre, and in every state the engine
    can reach the box around the player meets none of them. *)
Theorem player_clear_of_boundary_walls {H : Host} (s : GameEngine) :
  reachable s ->
  firstn 4 (walls s) = walls (createArena (fresh [])) /\
  forall wall,
    In wall (firstn 4 (walls s)) ->
    beyond_bounds wall /\
    Box3.intersectsBox (playerBox s) (Mesh.box wall) = false.
Proof.
  intros R.
  assert (W : firstn 4 (walls s) = walls (createArena (fresh []))).
  { rewrite (reachable_walls _ R). vm_compute. reflexivity. }
  split; [exact W|]. intros wall I. rewrite W in I.
  pose proof arena_walls_beyond_bounds as F. rewrite Forall_forall in F.
  apply F in I. split; [exact I|].
  apply beyond_bounds_clear; [|exact I].
  apply reachable_position_ok. exact R.
Qed.

Lemma player_clear_of_boundary_walls_witness :
  reachable (H := exampleHost castNothing) walkingEngine /\
  firstn 4 (walls walkingEngine) = walls (createArena (fresh [])).
Proof.
  assert (R : reachable (H := exampleHost castNothing) walkingEngine).
  { apply (constructed_run_reachable spawnTape
             [KeyDown KeyW; UpdatePlayer (1 # 3); UpdatePlayer (1 # 3)]).
    vm_compute. reflexivity. }
  split; [exact R|].
  exact (proj1 (player_clear_of_boundary_walls walkingEngine R)).
Defined.
(** ** Input flags *)

(** X19.  The input flags follow their own events and nothing else: after
    any operation, [moveForward], [moveBackward], [moveLeft] and
    [moveRight] are set if the operation was the press of W, S, A or D,
    cleared if it was the release of that key, and otherwise what they
    were; and [isLocked] changes with the pointer-lock event only.  No
    shot, reload, timer or frame touches them. *)
Theorem input_flags_follow_events {H : Host} (op : Op) (s s' : GameEngine) :
  step op s = Some s' ->
  moveForward s' =
    match op with
    | KeyDown KeyW => true | KeyUp KeyW => false | _ => moveForward s
    end /\
  moveBackward s' =
    match op with
    | KeyDown KeyS => true | KeyUp KeyS => false | _ => moveBackward s
    end /\
  moveLeft s' =
    match op with
    | KeyDown KeyA => true | KeyUp KeyA => false | _ => moveLeft s
    end /\
  moveRight s' =
    match op with
    | KeyDown KeyD => true | KeyUp KeyD => false | _ => moveRight s
    end /\
  isLocked s' =
    match op with
    | PointerLockChange locked => locked | _ => isLocked s
    end.
Proof.
  assert (FP : forall delta t,
             moveForward (updatePlayer delta t) = moveForward t /\
             moveBackward (updatePlayer delta t) = moveBackward t /\
             moveLeft (updatePlayer delta t) = moveLeft t /\
             moveRight (updatePlayer delta t) = moveRight t /\
             isLocked (updatePlayer delta t) = isLocked t).
  { intros delta t. pose proof (updatePlayer_frame delta t) as F.
    unfold player_frame in F.
    rewrite (f_equal moveForward F), (f_equal moveBackward F),
      (f_equal moveLeft F), (f_equal moveRight F), (f_equal isLocked F).
    fields. auto. }
  assert (FS : forall t t',
             shoot t = Some t' ->
             moveForward t' = moveForward t /\
             moveBackward t' = moveBackward t /\
             moveLeft t' = moveLeft t /\
             moveRight t' = moveRight t /\
             isLocked t' = isLocked t).
  { intros t t' E. apply shoot_frame in E.
    rewrite (f_equal moveForward E), (f_equal moveBackward E),
      (f_equal moveLeft E), (f_equal moveRight E), (f_equal isLocked E).
    fields. auto. }
  assert (FE : forall delta currentTime t t',
             updateEnemies delta currentTime t = Some t' ->
             moveForward t' = moveForward t /\
             moveBackward t' = moveBackward t /\
             moveLeft t' = moveLeft t /\
             moveRight t' = moveRight t /\
             isLocked t' = isLocked t).
  { intros delta currentTime t t' E. apply updateEnemies_spec in E.
    destruct E as (E & _).
    rewrite (f_equal moveForward E), (f_equal moveBackward E),
      (f_equal moveLeft E), (f_equal moveRight E), (f_equal isLocked E).
    fields. auto. }
  assert (FR : forall t,
             moveForward (reload t) = moveForward t /\
             moveBackward (reload t) = moveBackward t /\
             moveLeft (reload t) = moveLeft t /\
             moveRight (reload t) = moveRight t /\
             isLocked (reload t) = isLocked t).
  { intros t. unfold reload. destruct (_ || _); fields; auto. }
  intros E. destruct op; cbn [step] in E.
  - injection E as <-. destruct code; cbn [onKeyDown]; fields; auto.
    destruct (canJump s); fields; auto.
  - injection E as <-. destruct code; cbn [onKeyUp]; fields; auto.
  - injection E as <-. unfold onMouseMove. destruct (negb _); fields; auto.
  - unfold onMouseDown in E. destruct (_ || _); [|apply FS; exact E].
    injection E as <-. auto.
  - injection E as <-. unfold onPointerLockChange. fields. auto.
  - injection E as <-. unfold timeout. destruct (pending s); [auto|].
    unfold reloadDone. fields. auto.
  - unfold animate in E. destruct (negb _); [injection E as <-; auto|].
    apply FE in E. destruct (FP delta s) as (P1 & P2 & P3 & P4 & P5).
    destruct E as (E1 & E2 & E3 & E4 & E5).
    rewrite E1, E2, E3, E4, E5. auto.
  - apply FS. exact E.
  - injection E as <-. apply FR.
  - injection E as <-. apply FP.
  - eapply FE. exact E.
Qed.

Lemma input_flags_follow_events_witness :
  moveForward
    (the (step (H := exampleHost castNothing) (KeyUp KeyW) walkingEngine)) =
  false /\
  moveForward walkingEngine = true.
Proof.
  destruct (step (H := exampleHost castNothing) (KeyUp KeyW) walkingEngine)
    as [s'|] eqn:E; [|vm_compute in E; discriminate].
  cbn [the].
  destruct (input_flags_follow_events (H := exampleHost castNothing)
              (KeyUp KeyW) walkingEngine s' E) as (F & _).
  split; [exact F | vm_compute; reflexivity].
Defined.
